(** * Davis: assembler and CPU execution engine

    A shallow embedding of [src/app/assembly/assembler.ts] (label resolver
    and two-pass assembler) and of the CPU of [app/emulation/cpu.ts]
    (register table, reset, step, push/pop, effective addresses), followed
    by the properties of the specification that concern them.

    JavaScript numbers are modelled as [Z]; the programs considered only
    use integers.  Strings are sequences of 8-bit characters.  Exceptions
    are modelled by the [Result] type; objects that the source mutates in
    place and shares (the assembly data, the label operands, the register
    banks) are modelled by explicit state passing over a store in which the
    sharing is visible.  The functions of lodash that the source calls are
    modelled after lodash 4; [_.has] in particular takes a string for a
    property path. *)

From Stdlib Require Import ZArith Lia String Ascii Bool DecimalString.
From stdpp Require Import base list strings.

Open Scope Z_scope.

(** ** Parsed program (the output of the external grammar) *)

(** An operand as the grammar hands it to the assembler.  [deref] records
    whether the object carries a [deref] property ([_.has(operand, "deref")]).
    The register operands inside a memory operand are objects with a [name];
    [None] stands for JavaScript's [null]. *)
Inductive Operand :=
| CastOperand (size : Z) (value : Operand)
| RegOperand (name : string)
| ConstantOperand (value : Z) (deref : bool)
| MemoryOperand (baseRegister indexRegister : option string)
                (multiplier constant : option Z)
| LabelOperand (value : string) (deref : bool).

(** The tag of an operand: [Parameter.Reg], [Parameter.Constant],
    [Parameter.Memory], [Parameter.Label], and the wrapper tag ["Cast"]. *)
Inductive ParameterTag := TCast | TReg | TConstant | TMemory | TLabel.

#[global] Instance ParameterTag_eq_dec : EqDecision ParameterTag.
Proof. solve_decision. Defined.

Definition tag (operand : Operand) : ParameterTag :=
  match operand with
  | CastOperand _ _ => TCast
  | RegOperand _ => TReg
  | ConstantOperand _ _ => TConstant
  | MemoryOperand _ _ _ _ => TMemory
  | LabelOperand _ _ => TLabel
  end.

Record ParsedInstruction := {
  pi_type : option string;          (* [instruction.type]; [None] is undefined *)
  pi_name : string;
  pi_operands : list Operand
}.

Record ParsedLabel := {
  pl_name : string;                 (* [label.name.value] *)
  pl_local : bool
}.

(** A line of the text segment: [{label, instruction}]. *)
Record TextLine := {
  tl_label : option ParsedLabel;
  tl_instruction : option ParsedInstruction
}.

(** A constant of a data definition: a string (the array of its
    one-character strings, each given by its character) or a number. *)
Inductive DataConstant :=
| StringConstant (characters : list ascii)
| NumberConstant (value : Z).

(** A line of the data segment: [{label, size, constants}]. *)
Record DataLine := {
  dl_label : option ParsedLabel;
  dl_size : option Z;
  dl_constants : list DataConstant
}.

(** An element of [parsedProgram.text] / [parsedProgram.data]: the line
    together with [location.start.line]. *)
Record Located (A : Type) := {
  startLine : Z;
  line : A
}.
Arguments startLine {A} _.
Arguments line {A} _.

Record ParsedProgram := {
  pp_text : list (Located TextLine);
  pp_data : list (Located DataLine)
}.

(** What [parser.parse(program)] does (asm-parser.js, the generated parser,
    is not among the sources): it returns the parsed program, or it throws
    a syntax error that carries a message and [location.start.line]. *)
Inductive ParseOutcome :=
| Parsed (parsedProgram : ParsedProgram)
| SyntaxError (message : string) (errorLine : Z).

(** ** Exceptions *)

(** The [data] field of an [AssemblyException]: [{}] by default, or the
    parsed line the exception was raised for. *)
Inductive LineData :=
| NoData
| DataLineData (l : DataLine)
| TextLineData (l : TextLine).

(** What the code can throw: its own [AssemblyException] (message, line,
    data), and the engine's [TypeError] and [RangeError]. *)
Inductive Exception :=
| AssemblyException (message : string) (lineNo : Z) (data : LineData)
| TypeError (message : string)
| RangeError (message : string).

Inductive Result (A : Type) :=
| Ok (a : A)
| Throw (e : Exception).
Arguments Ok {A} a.
Arguments Throw {A} e.

Definition bind {A B : Type} (m : Result A) (f : A -> Result B) : Result B :=
  match m with
  | Ok a => f a
  | Throw e => Throw e
  end.

Notation "'let!' x ':=' m 'in' k" := (bind m (fun x => k))
  (at level 10, x name, m at level 100, k at level 200, only parsing).
Notation "'let!' ' p ':=' m 'in' k" := (bind m (fun x => match x with p => k end))
  (at level 10, p pattern, m at level 100, k at level 200, only parsing).

(** [new AssemblyException(message)]: line 0 and data [{}]. *)
Definition assemblyException (message : string) : Exception :=
  AssemblyException message 0 NoData.

(** ** Addressable storage *)

(** Modelled from the spec: [MemoryBlock] (memory-block.ts is not among the
    sources) is a fixed-size byte buffer; [new MemoryBlock(n)] has [n]
    zero bytes and [size] is its length in bytes. *)
Abbreviation MemoryBlock := (list Z).

Definition newMemoryBlock (n : nat) : MemoryBlock := replicate n 0.

Definition size (b : MemoryBlock) : Z := Z.of_nat (length b).

(** Modelled from the spec: a read returns the byte range of the view
    reinterpreted as an integer.  The register table puts the high byte of a
    2-byte register at offset 1, so the least significant byte comes first;
    the integer is taken unsigned. *)
Fixpoint readBytes (b : MemoryBlock) (i n : nat) : Z :=
  match n with
  | O => 0
  | S n' => default 0 (b !! i) + 256 * readBytes b (S i) n'
  end.

(** Modelled from the spec: a write stores the low [n] bytes of the value
    (two's complement), least significant first, in the byte range of the
    view and nowhere else. *)
Fixpoint writeBytes (b : MemoryBlock) (i n : nat) (v : Z) : MemoryBlock :=
  match n with
  | O => b
  | S n' => writeBytes (<[i := v mod 256]> b) (S i) n' (v / 256)
  end.

(** Modelled from the spec: reads and writes are bounds-checked. *)
Definition inBounds (b : MemoryBlock) (index : Z) (byteSize : nat) : bool :=
  (0 <=? index) && (index + Z.of_nat byteSize <=? size b).

Definition blockGet (b : MemoryBlock) (index : Z) (byteSize : nat) : Result Z :=
  if inBounds b index byteSize
  then Ok (readBytes b (Z.to_nat index) byteSize)
  else Throw (RangeError "Offset is outside the bounds of the DataView").

Definition blockSet (b : MemoryBlock) (index : Z) (byteSize : nat) (v : Z)
  : Result MemoryBlock :=
  if inBounds b index byteSize
  then Ok (writeBytes b (Z.to_nat index) byteSize v)
  else Throw (RangeError "Offset is outside the bounds of the DataView").

(** The block a view looks into: one of the register banks
    ([this.registers[bank]]) or the main memory ([this.memory]). *)
Inductive BlockRef :=
| RegisterBank (bank : nat)
| MainMemory.

(** [new MemoryView(block, byteSize, index)]: a window of [byteSize] bytes at
    offset [index] of a block it shares with every other view of that block. *)
Record MemoryView := {
  mv_block : BlockRef;
  mv_byteSize : nat;
  mv_index : Z
}.

(** ** Register table *)

Record RegisterInfo := {
  ri_id : Z;
  ri_bank : nat;
  ri_byteSize : nat;
  ri_index : Z
}.

Definition registerInfo (id : Z) (bank byteSize : nat) (index : Z) :=
  {| ri_id := id; ri_bank := bank; ri_byteSize := byteSize; ri_index := index |}.

Definition REGISTER_INDEX : list (string * RegisterInfo) :=
  [ ("NULL", registerInfo 0 0 4 0);
    ("EIP",  registerInfo 1 1 4 0);
    ("EBP",  registerInfo 2 2 4 0);
    ("ESP",  registerInfo 3 3 4 0);
    ("EAX",  registerInfo 20 4 4 0);
    ("AX",   registerInfo 21 4 2 0);
    ("AH",   registerInfo 22 4 1 1);
    ("AL",   registerInfo 23 4 1 0);
    ("EBX",  registerInfo 24 5 4 0);
    ("BX",   registerInfo 25 5 2 0);
    ("BH",   registerInfo 26 5 1 1);
    ("BL",   registerInfo 27 5 1 0);
    ("ECX",  registerInfo 28 6 4 0);
    ("CX",   registerInfo 29 6 2 0);
    ("CH",   registerInfo 30 6 1 1);
    ("CL",   registerInfo 31 6 1 0) ]%string.

(** The value of the own property [key] of an object used as a dictionary,
    which is given as the list of its own properties in the order in which
    the object enumerates them; [None] when [key] is no own property. *)
Fixpoint lookupKey {A : Type} (key : string) (object : list (string * A)) : option A :=
  match object with
  | [] => None
  | (k, v) :: rest => if String.eqb k key then Some v else lookupKey key rest
  end.

(** ** JavaScript values and lodash's [_.has] *)

(** The values found inside the dictionaries of the program, as far as
    [_.has] looks into them.  An array is the object of its indices and of
    its [length]; a class is the object of its own properties. *)
#[local] Unset Elimination Schemes.
Inductive Value :=
| VUndefined
| VNull
| VNumber (n : Z)
| VBoolean (b : bool)
| VString (s : string)
| VObject (properties : list (string * Value)).
#[local] Set Elimination Schemes.

(** The decimal numeral of a position of a string. *)
Definition decimal (n : nat) : string := NilEmpty.string_of_uint (Nat.to_uint n).

Definition positions (s : string) : list nat := seq 0 (String.length s).

(** [object != null && hasOwnProperty.call(object, key)] (lodash's
    [baseHas]).  Numbers and booleans have no property of their own; a
    string has its [length] and its positions. *)
Definition hasOwnProperty (object : Value) (key : string) : bool :=
  match object with
  | VObject properties =>
      match lookupKey key properties with
      | Some _ => true
      | None => false
      end
  | VString s =>
      String.eqb key "length" || existsb (fun i => String.eqb key (decimal i)) (positions s)
  | _ => false
  end.

(** [object[key]] for a key that is an own property. *)
Definition getProperty (object : Value) (key : string) : Value :=
  match object with
  | VObject properties => default VUndefined (lookupKey key properties)
  | VString s =>
      if String.eqb key "length" then VNumber (Z.of_nat (String.length s))
      else match find (fun i => String.eqb key (decimal i)) (positions s) with
           | Some i =>
               match String.get i s with
               | Some c => VString (String c EmptyString)
               | None => VUndefined
               end
           | None => VUndefined
           end
  | _ => VUndefined
  end.

(** The characters of lodash's regular expressions. *)
Definition dot : ascii := ascii_of_nat 46.
Definition openBracket : ascii := ascii_of_nat 91.
Definition closeBracket : ascii := ascii_of_nat 93.
Definition backslash : ascii := ascii_of_nat 92.
Definition doubleQuote : ascii := ascii_of_nat 34.
Definition apostrophe : ascii := ascii_of_nat 39.

Definition isDigit (c : ascii) : bool :=
  (48 <=? nat_of_ascii c)%nat && (nat_of_ascii c <=? 57)%nat.

(** [\w]: a letter, a digit or the underscore. *)
Definition isWord (c : ascii) : bool :=
  isDigit c
  || (65 <=? nat_of_ascii c)%nat && (nat_of_ascii c <=? 90)%nat
  || (97 <=? nat_of_ascii c)%nat && (nat_of_ascii c <=? 122)%nat
  || (nat_of_ascii c =? 95)%nat.

(** The line terminators, which [.] does not match. *)
Definition isLineTerminator (c : ascii) : bool :=
  (nat_of_ascii c =? 10)%nat || (nat_of_ascii c =? 13)%nat.

Definition matches {A : Type} (m : option A) : bool :=
  match m with
  | Some _ => true
  | None => false
  end.

(** [reIsPlainProp = /^\w*$/]. *)
Fixpoint reIsPlainProp (value : string) : bool :=
  match value with
  | EmptyString => true
  | String c rest => isWord c && reIsPlainProp rest
  end.

(** [[^[\]]*\]] at the start of [s]: the first bracket met is a closing
    one. *)
Fixpoint plainBracket (s : string) : bool :=
  match s with
  | EmptyString => false
  | String c rest =>
      if Ascii.eqb c closeBracket then true
      else if Ascii.eqb c openBracket then false
      else plainBracket rest
  end.

(** [(?:(?!q)[^\\]|\\.)*?q\]] at the start of [s], for the quote [q]: the
    characters before the closing quote, which the closing bracket must
    follow.  A backslash takes the next character with it. *)
Fixpoint quotedBody (q : ascii) (s : string) : option string :=
  match s with
  | EmptyString => None
  | String c rest =>
      if Ascii.eqb c q then
        match rest with
        | String d _ => if Ascii.eqb d closeBracket then Some EmptyString else None
        | EmptyString => None
        end
      else if Ascii.eqb c backslash then
        match rest with
        | String d rest' =>
            if isLineTerminator d then None
            else option_map (fun body => String c (String d body)) (quotedBody q rest')
        | EmptyString => None
        end
      else option_map (String c) (quotedBody q rest)
  end.

(** A quoted property name and its closing bracket at the start of [s]:
    [(q)((?:(?!q)[^\\]|\\.)*?)q\]], where [q] is a quotation mark or an
    apostrophe. *)
Definition quoted (s : string) : option string :=
  match s with
  | String q rest =>
      if Ascii.eqb q doubleQuote || Ascii.eqb q apostrophe then quotedBody q rest else None
  | EmptyString => None
  end.

(** [reIsDeepProp], searched anywhere in the value: a dot, or an opening
    bracket followed by [[^[\]]*\]] or by a quoted property name and its
    closing bracket. *)
Fixpoint reIsDeepProp (value : string) : bool :=
  match value with
  | EmptyString => false
  | String c rest =>
      Ascii.eqb c dot
      || Ascii.eqb c openBracket && (plainBracket rest || matches (quoted rest))
      || reIsDeepProp rest
  end.

(** [[^.[\]]]. *)
Definition isNameChar (c : ascii) : bool :=
  negb (Ascii.eqb c dot || Ascii.eqb c openBracket || Ascii.eqb c closeBracket).

Fixpoint nameRun (s : string) : string :=
  match s with
  | EmptyString => EmptyString
  | String c rest => if isNameChar c then String c (nameRun rest) else EmptyString
  end.

Fixpoint digitRun (s : string) : string :=
  match s with
  | EmptyString => EmptyString
  | String c rest => if isDigit c then String c (digitRun rest) else EmptyString
  end.

Fixpoint dropCharacters (n : nat) (s : string) : string :=
  match n, s with
  | S n', String _ rest => dropCharacters n' rest
  | _, _ => s
  end.

(** [(-?\d+(?:\.\d+)?)\]] at the start of [s]: the numeral. *)
Definition bracketNumber (s : string) : option string :=
  let sign :=
    match s with
    | String c _ => if Ascii.eqb c (ascii_of_nat 45) then String c EmptyString else EmptyString
    | EmptyString => EmptyString
    end in
  let integer := digitRun (dropCharacters (String.length sign) s) in
  let afterInteger := dropCharacters (String.length sign + String.length integer) s in
  match integer, afterInteger with
  | EmptyString, _ => None
  | _, String c rest =>
      if Ascii.eqb c closeBracket then Some (sign +:+ integer)
      else if Ascii.eqb c dot then
        let fraction := digitRun rest in
        match fraction, dropCharacters (String.length fraction) rest with
        | EmptyString, _ => None
        | _, String d _ =>
            if Ascii.eqb d closeBracket
            then Some (sign +:+ integer +:+ String dot fraction)
            else None
        | _, EmptyString => None
        end
      else None
  | _, EmptyString => None
  end.

(** [reEscapeChar = /\\(\\)?/g] replaced by its group: a backslash is
    removed, and of two backslashes one is kept. *)
Fixpoint unescape (s : string) : string :=
  match s with
  | EmptyString => EmptyString
  | String c rest =>
      if Ascii.eqb c backslash then
        match rest with
        | String d rest' =>
            if Ascii.eqb d backslash then String backslash (unescape rest') else unescape rest
        | EmptyString => EmptyString
        end
      else String c (unescape rest)
  end.

(** [(?:\.|\[\])] at the start of [s]: what follows it. *)
Definition separator (s : string) : option string :=
  match s with
  | String c rest =>
      if Ascii.eqb c dot then Some rest
      else if Ascii.eqb c openBracket then
        match rest with
        | String d rest' => if Ascii.eqb d closeBracket then Some rest' else None
        | EmptyString => None
        end
      else None
  | EmptyString => None
  end.

(** The third alternative of [rePropName],
    [(?=(?:\.|\[\])(?:\.|\[\]|$))]: an empty property name. *)
Definition emptyNameAt (s : string) : bool :=
  match separator s with
  | Some EmptyString => true
  | Some rest => matches (separator rest)
  | None => false
  end.

(** The first two alternatives of [rePropName] at the start of [s]: a run
    [[^.[\]]+], or after an opening bracket a numeral or a quoted property
    name, with its closing bracket.  The result is the property name and
    the number of characters matched. *)
Definition propNameAt (s : string) : option (string * nat) :=
  match s with
  | EmptyString => None
  | String c rest =>
      if isNameChar c then Some (nameRun s, String.length (nameRun s))
      else if Ascii.eqb c openBracket then
        match bracketNumber rest with
        | Some number => Some (number, (2 + String.length number)%nat)
        | None =>
            match quoted rest with
            | Some body => Some (unescape body, (4 + String.length body)%nat)
            | None => None
            end
        end
      else None
  end.

(** [string.replace(rePropName, ...)]: the matches of [rePropName] from
    left to right.  [skip] counts the characters still covered by the last
    match; after an empty match the search goes on one character further. *)
Fixpoint propNames (s : string) (skip : nat) : list string :=
  match s with
  | EmptyString => []
  | String _ rest =>
      match skip with
      | S skip' => propNames rest skip'
      | O =>
          match propNameAt s with
          | Some (name, matched) => name :: propNames rest (matched - 1)
          | None =>
              if emptyNameAt s then EmptyString :: propNames rest 0
              else propNames rest 0
          end
      end
  end.

(** lodash's [stringToPath]: a leading dot gives an empty first name. *)
Definition stringToPath (s : string) : list string :=
  match s with
  | String c _ => if Ascii.eqb c dot then [EmptyString] else []
  | EmptyString => []
  end ++ propNames s 0.

(** lodash's [isKey(value, object)] for a string: a word, or a string
    without path syntax, or a property of the object.  The last test,
    [value in Object(object)], is only reached for a value that is no word,
    and the properties that the objects of the program inherit have words
    as names: it is a test for an own property. *)
Definition isKey (value : string) (object : Value) : bool :=
  reIsPlainProp value || negb (reIsDeepProp value) || hasOwnProperty object value.

Definition castPath (value : string) (object : Value) : list string :=
  if isKey value object then [value] else stringToPath value.

(** The loop of lodash's [hasPath] with [baseHas]: every name of the path
    is an own property of the value reached so far. *)
Fixpoint hasEach (object : Value) (path : list string) : bool :=
  match path with
  | [] => true
  | key :: rest => hasOwnProperty object key && hasEach (getProperty object key) rest
  end.

(** lodash's [hasPath]: an empty path has nothing, and none of the values
    is an array or an [arguments] object, for which an index below the
    length counts as present. *)
Definition hasPath (object : Value) (path : list string) : bool :=
  match path with
  | [] => false
  | _ => hasEach object path
  end.

(** [_.has(object, path)] for a string [path] (lodash 4): the path is the
    string itself when [isKey] says so, and otherwise its property names. *)
Definition has (object : Value) (path : string) : bool :=
  match object with
  | VUndefined | VNull => false
  | _ => hasPath object (castPath path object)
  end.

(** An object literal used as a dictionary, as a value: its entries are
    shown to [_.has] through [reflect]. *)
Definition dictionary {A : Type} (reflect : A -> Value) (object : list (string * A)) : Value :=
  VObject (map (fun '(key, value) => (key, reflect value)) object).

(** [object[key] = value] on an object literal used as a dictionary.  The
    key [__proto__] is the accessor that every object inherits: assigning
    to it replaces the prototype of the object and adds no property.  Any
    other key that is no property yet becomes the last one (the keys of the
    program are no numerals of array indices, which an object enumerates
    first). *)
Definition assign {A : Type} (key : string) (value : A) (object : list (string * A))
  : list (string * A) :=
  if String.eqb key "__proto__" then object
  else
    match lookupKey key object with
    | Some _ =>
        map (fun '(k, v) => if String.eqb k key then (k, value) else (k, v)) object
    | None => object ++ [(key, value)]
    end.

(** A [RegisterInfo] as a value: its private fields are its own
    properties, its getters are inherited. *)
Definition registerInfoValue (info : RegisterInfo) : Value :=
  VObject [ ("_id", VNumber (ri_id info));
            ("_bank", VNumber (Z.of_nat (ri_bank info)));
            ("_byteSize", VNumber (Z.of_nat (ri_byteSize info)));
            ("_index", VNumber (ri_index info)) ]%string.

(** ** Label resolver *)

(** [class Label]. *)
Record Label := {
  label_name : string;
  label_local : bool;
  label_address : Z
}.

(** [class LabelParameter] (parameter.ts): size, label name, dereference
    flag, and the address written by [resolveLabel] ([None] until then). *)
Record LabelParameter := {
  lp_size : Z;
  lp_label : string;
  lp_deref : bool;
  lp_address : option Z
}.

Definition resolveLabel (address : Z) (p : LabelParameter) : LabelParameter :=
  {| lp_size := lp_size p; lp_label := lp_label p; lp_deref := lp_deref p;
     lp_address := Some address |}.

(** A [Label] as a value: its three fields are its own properties. *)
Definition labelValue (l : Label) : Value :=
  VObject [ ("name", VString (label_name l));
            ("local", VBoolean (label_local l));
            ("address", VNumber (label_address l)) ]%string.

(** [labels] is the object used as a dictionary, as the list of its own
    properties in the order in which the object enumerates them: the order
    of their insertion (label names are identifiers, possibly qualified,
    and none is the numeral of an array index, which an object enumerates
    first).  [unresolvedParameters] holds the label operand objects
    themselves: an encoded instruction refers to its label operand by its
    position in this list. *)
Record LabelResolver := {
  labels : list (string * Label);
  unresolvedParameters : list LabelParameter
}.

Definition newLabelResolver : LabelResolver :=
  {| labels := []; unresolvedParameters := [] |}.

(** [_.findLast(collection, predicate)]: the last element, in enumeration
    order, that satisfies the predicate. *)
Fixpoint findLast {A : Type} (predicate : A -> bool) (collection : list A) : option A :=
  match collection with
  | [] => None
  | x :: rest =>
      match findLast predicate rest with
      | Some y => Some y
      | None => if predicate x then Some x else None
      end
  end.

Definition findPreviousGlobalLabel (r : LabelResolver) (address : Z) : option Label :=
  findLast (fun label => negb (label_local label) && (label_address label <=? address))
           (map snd (labels r)).

Definition hasLabel (r : LabelResolver) (label : string) : bool :=
  has (dictionary labelValue (labels r)) label.

Definition normalizeLabelName (r : LabelResolver) (label : string) (local : bool)
    (address : Z) : Result string :=
  if local then
    match findPreviousGlobalLabel r address with
    | None => Throw (assemblyException ("Local label without a global label: " +:+ label))
    | Some previousLabel => Ok (label_name previousLabel +:+ "." +:+ label)
    end
  else Ok label.

Definition addLabel (address : Z) (label : string) (local : bool) (r : LabelResolver)
  : Result LabelResolver :=
  let! label := normalizeLabelName r label local address in
  if hasLabel r label
  then Throw (assemblyException ("Duplicate label found: " +:+ label))
  else Ok {| labels := assign label {| label_name := label; label_local := local;
                                       label_address := address |} (labels r);
             unresolvedParameters := unresolvedParameters r |}.

Definition markUnresolvedParameter (labelParameter : LabelParameter) (r : LabelResolver)
  : LabelResolver :=
  {| labels := labels r;
     unresolvedParameters := unresolvedParameters r ++ [labelParameter] |}.

(** The loop of [resolveAddresses] over the recorded operands:
    [_.has(this.labels, label)] guards [this.labels[label].address], which
    raises when the label is no property of the table. *)
Fixpoint resolveEach (labels : list (string * Label)) (ps : list LabelParameter)
  : Result (list LabelParameter) :=
  match ps with
  | [] => Ok []
  | labelParameter :: rest =>
      if has (dictionary labelValue labels) (lp_label labelParameter) then
        match lookupKey (lp_label labelParameter) labels with
        | Some l =>
            let! rest' := resolveEach labels rest in
            Ok (resolveLabel (label_address l) labelParameter :: rest')
        | None => Throw (TypeError "Cannot read property 'address' of undefined")
        end
      else Throw (assemblyException ("Unknown label " +:+ lp_label labelParameter))
  end.

Definition resolveAddresses (r : LabelResolver) : Result LabelResolver :=
  let! ps := resolveEach (labels r) (unresolvedParameters r) in
  Ok {| labels := labels r; unresolvedParameters := ps |}.

(** ** Assembly data *)

(** Modelled from the spec: [LineMap] (program.ts is not among the sources)
    maps instruction addresses to source lines and back; it is kept as the
    list of the pairs [(address, line)] recorded by [mapLine]. *)
Definition LineMap := list (Z * Z).

Definition mapLine (address line : Z) (m : LineMap) : LineMap := m ++ [(address, line)].

(** Modelled from the spec: the address recorded for a source line, [None]
    ([null]) when the line carries no instruction. *)
Fixpoint getAddressByLine (m : LineMap) (row : Z) : option Z :=
  match m with
  | [] => None
  | (a, l) :: rest => if l =? row then Some a else getAddressByLine rest row
  end.

Inductive MemoryType := Data | Text.

Record AssemblyData := {
  textAddress : Z;
  dataAddress : Z;
  lineMap : LineMap;
  labelResolver : LabelResolver
}.

Definition newAssemblyData : AssemblyData :=
  {| textAddress := 0; dataAddress := 0; lineMap := []; labelResolver := newLabelResolver |}.

Definition getAddress (memoryType : MemoryType) (d : AssemblyData) : Z :=
  match memoryType with
  | Data => dataAddress d
  | Text => textAddress d
  end.

Definition setLabelResolver (r : LabelResolver) (d : AssemblyData) : AssemblyData :=
  {| textAddress := textAddress d; dataAddress := dataAddress d;
     lineMap := lineMap d; labelResolver := r |}.

Definition setDataAddress (a : Z) (d : AssemblyData) : AssemblyData :=
  {| textAddress := textAddress d; dataAddress := a;
     lineMap := lineMap d; labelResolver := labelResolver d |}.

Record MemoryDefinition := {
  md_address : Z;
  md_size : Z;
  md_value : Z
}.

(** ** Operand model *)

(** The encoded operands ([class Parameter] and its subclasses; the name
    [Parameter] is reserved in Rocq).  A label operand is an object shared with the
    resolver's list of recorded operands; it is referred to by its position
    in that list. *)
Inductive EncodedParameter :=
| RegisterParameter (size : Z) (registerId : Z)
| ConstantParameter (size : Z) (value : Z) (deref : bool)
| MemoryParameter (size : Z) (baseRegId indexRegId multiplier constant : Z)
| LabelParameterRef (position : nat).

(** The instruction classes of [InstructionMapping]. *)
Inductive Instruction := Move | Jump | Interrupt.

Definition InstructionMapping : list (string * Instruction) :=
  [ ("MOV", Move); ("JMP", Jump); ("INT", Interrupt) ]%string.

Record EncodedInstruction := {
  ei_instruction : Instruction;
  ei_parameters : list EncodedParameter
}.

(** [class Program] (program.ts; [Program] is reserved in Rocq), with the
    label operand objects its instructions refer to. *)
Record ProgramImage := {
  instructions : list EncodedInstruction;
  memoryDefinitions : list MemoryDefinition;
  prog_lineMap : LineMap;
  labelParameters : list LabelParameter
}.

(** ** Assembler *)

Definition parseRegisterName (name : option string) : Result string :=
  match name with
  | None => Throw (TypeError "Cannot read property 'name' of null")
  | Some registerName =>
      if has (dictionary registerInfoValue REGISTER_INDEX) registerName then Ok registerName
      else Throw (assemblyException ("Unknown register " +:+ registerName))
  end.

(** [REGISTER_INDEX[name].id] for a name that [parseRegisterName] returned:
    a name that [_.has] accepted as a path into the table is no property of
    the table. *)
Definition registerId (registerName : string) : Result Z :=
  match lookupKey registerName REGISTER_INDEX with
  | Some info => Ok (ri_id info)
  | None => Throw (TypeError "Cannot read property 'id' of undefined")
  end.

Fixpoint getInnerParameter (operand : Operand) : Operand :=
  match operand with
  | CastOperand _ value => getInnerParameter value
  | _ => operand
  end.

Definition getParameterSize (operand : Operand) : Z :=
  match operand with
  | CastOperand size _ => if 0 <? size then size else 4
  | _ => 4
  end.

Definition parseRegisterParameter (size : Z) (operand : Operand) : Result EncodedParameter :=
  match operand with
  | RegOperand name =>
      let! registerName := parseRegisterName (Some name) in
      let! id := registerId registerName in
      Ok (RegisterParameter size id)
  | _ => Throw (TypeError "not a register operand")
  end.

Definition parseConstantParameter (size : Z) (operand : Operand) : Result EncodedParameter :=
  match operand with
  | ConstantOperand value deref => Ok (ConstantParameter size value deref)
  | _ => Throw (TypeError "not a constant operand")
  end.

Definition parseMemoryParameter (size : Z) (operand : Operand) : Result EncodedParameter :=
  match operand with
  | MemoryOperand baseRegister indexRegister multiplier constant =>
      let! baseName := parseRegisterName baseRegister in
      let! baseRegId := registerId baseName in
      let! indexRegId :=
        match indexRegister with
        | None => Ok 0
        | Some _ =>
            let! indexName := parseRegisterName indexRegister in
            registerId indexName
        end in
      let multiplier := match multiplier with Some value => value | None => 0 end in
      let constant := match constant with Some value => value | None => 0 end in
      Ok (MemoryParameter size baseRegId indexRegId multiplier constant)
  | _ => Throw (TypeError "not a memory operand")
  end.

(** [parseLabelParameter(size, operand, assemblyData)]; [assemblyData] is
    [None] when the caller passes no third argument (it is then
    [undefined]).  The new operand object is recorded in the resolver and
    returned as its position there. *)
Definition parseLabelParameter (size : Z) (operand : Operand)
    (assemblyData : option AssemblyData) : Result (EncodedParameter * AssemblyData) :=
  match operand with
  | LabelOperand value deref =>
      let labelParameter :=
        {| lp_size := size; lp_label := value; lp_deref := deref; lp_address := None |} in
      match assemblyData with
      | None => Throw (TypeError "Cannot read property 'labelResolver' of undefined")
      | Some d =>
          Ok (LabelParameterRef (length (unresolvedParameters (labelResolver d))),
              setLabelResolver (markUnresolvedParameter labelParameter (labelResolver d)) d)
      end
  | _ => Throw (TypeError "not a label operand")
  end.

Section Assembler.

(** The parts of the instruction classes (instruction/*.ts, not among the
    sources) that the assembler calls: the valid parameter masks and the
    display name. *)
Variable getValidParameters : Instruction -> list (list ParameterTag).
Variable toString : Instruction -> string.

(** The own properties of the class objects themselves (their [name],
    [length] and [prototype], and their static members), which [_.has]
    looks into when it takes an instruction name for a path. *)
Variable classProperties : Instruction -> list (string * Value).

Definition checkParameterCompatibility (instruction : Instruction)
    (operands : list Operand) : Result unit :=
  let parameterMask := map (fun operand => tag (getInnerParameter operand)) operands in
  if existsb (fun validMask => bool_decide (parameterMask = validMask))
             (getValidParameters instruction)
  then Ok tt
  else Throw (assemblyException
                ("Unknown parameter combination for instruction " +:+ toString instruction)).

(** The callback of [_.map] in [loadParameters]: the builder selected by
    the tag of the inner operand is called with the size and the inner
    operand, and with nothing else. *)
Definition loadParameter (operand : Operand) : Result EncodedParameter :=
  let innerOperand := getInnerParameter operand in
  let size := getParameterSize operand in
  match tag innerOperand with
  | TReg => parseRegisterParameter size innerOperand
  | TConstant => parseConstantParameter size innerOperand
  | TMemory => parseMemoryParameter size innerOperand
  | TLabel =>
      let! '(parameter, _) := parseLabelParameter size innerOperand None in
      Ok parameter
  | TCast => Throw (TypeError "Cannot read property 'call' of undefined")
  end.

Fixpoint mapResult {A B : Type} (f : A -> Result B) (l : list A) : Result (list B) :=
  match l with
  | [] => Ok []
  | x :: rest =>
      let! y := f x in
      let! ys := mapResult f rest in
      Ok (y :: ys)
  end.

Definition loadParameters (instruction : Instruction) (operands : list Operand)
  : Result (list EncodedParameter) :=
  let! _ := checkParameterCompatibility instruction operands in
  mapResult loadParameter operands.

(** [new InstructionMapping[instruction.name]] raises when the name, which
    [_.has] accepted, is no property of the mapping. *)
Definition parseInstruction (instruction : ParsedInstruction) : Result EncodedInstruction :=
  if has (dictionary (fun class => VObject (classProperties class)) InstructionMapping)
         (pi_name instruction)
  then
    match lookupKey (pi_name instruction) InstructionMapping with
    | Some instructionInstance =>
        let! parameters := loadParameters instructionInstance (pi_operands instruction) in
        Ok {| ei_instruction := instructionInstance; ei_parameters := parameters |}
    | None => Throw (TypeError "undefined is not a constructor")
    end
  else
    Throw (assemblyException
             ("Unknown instruction type " +:+ default "undefined"%string (pi_type instruction))).

Definition assembleLabel (label : ParsedLabel) (assemblyData : AssemblyData)
    (memoryType : MemoryType) : Result AssemblyData :=
  let! r := addLabel (getAddress memoryType assemblyData) (pl_name label) (pl_local label)
                     (labelResolver assemblyData) in
  Ok (setLabelResolver r assemblyData).

Definition assembleInstruction (line : TextLine) (assemblyData : AssemblyData)
  : Result (option EncodedInstruction * AssemblyData) :=
  let! assemblyData :=
    match tl_label line with
    | Some label => assembleLabel label assemblyData Text
    | None => Ok assemblyData
    end in
  match tl_instruction line with
  | Some instruction =>
      let! encoded := parseInstruction instruction in
      Ok (Some encoded, assemblyData)
  | None => Ok (None, assemblyData)
  end.

(** The inner loop of [assembleMemoryDefinitions] over the characters of
    a string constant. *)
Fixpoint defineCharacters (size : Z) (characters : list ascii) (dataAddress : Z)
  : list MemoryDefinition * Z :=
  match characters with
  | [] => ([], dataAddress)
  | c :: rest =>
      let '(definitions, final) := defineCharacters size rest (dataAddress + size) in
      ({| md_address := dataAddress; md_size := size;
          md_value := Z.of_nat (nat_of_ascii c) |} :: definitions, final)
  end.

(** The outer loop of [assembleMemoryDefinitions] over the constants. *)
Fixpoint defineConstants (size : Z) (constants : list DataConstant) (dataAddress : Z)
  : list MemoryDefinition * Z :=
  match constants with
  | [] => ([], dataAddress)
  | StringConstant characters :: rest =>
      let '(definitions, next) := defineCharacters size characters dataAddress in
      let '(definitions', final) := defineConstants size rest next in
      (definitions ++ definitions', final)
  | NumberConstant value :: rest =>
      let '(definitions', final) := defineConstants size rest (dataAddress + size) in
      ({| md_address := dataAddress; md_size := size; md_value := value |} :: definitions',
       final)
  end.

Definition assembleMemoryDefinitions (line : DataLine) (assemblyData : AssemblyData)
  : Result (list MemoryDefinition * AssemblyData) :=
  let! assemblyData :=
    match dl_label line with
    | Some label => assembleLabel label assemblyData Data
    | None => Ok assemblyData
    end in
  match dl_size line with
  | Some size =>
      let '(definitions, final) :=
        defineConstants size (dl_constants line) (dataAddress assemblyData) in
      Ok (definitions, setDataAddress final assemblyData)
  | None => Ok ([], assemblyData)
  end.

(** The [catch] clause of both passes: an [AssemblyException] is thrown
    again with the line number and the parsed line; anything else is
    thrown again as it is. *)
Definition rethrow (e : Exception) (lineNo : Z) (data : LineData) : Exception :=
  match e with
  | AssemblyException message _ _ => AssemblyException message lineNo data
  | _ => e
  end.

(** The loop of [assembleDataSegment], from the definitions gathered so far. *)
Fixpoint assembleDataLines (dataLines : list (Located DataLine))
    (memoryDefinitions : list MemoryDefinition) (assemblyData : AssemblyData)
  : Result (list MemoryDefinition * AssemblyData) :=
  match dataLines with
  | [] => Ok (memoryDefinitions, assemblyData)
  | dataLine :: rest =>
      let lineNo := startLine dataLine - 1 in
      match assembleMemoryDefinitions (line dataLine) assemblyData with
      | Ok (definitions, assemblyData) =>
          assembleDataLines rest (memoryDefinitions ++ definitions) assemblyData
      | Throw e => Throw (rethrow e (lineNo + 1) (DataLineData (line dataLine)))
      end
  end.

Definition assembleDataSegment (dataLines : list (Located DataLine))
    (assemblyData : AssemblyData) : Result (list MemoryDefinition * AssemblyData) :=
  assembleDataLines dataLines [] assemblyData.

Definition advanceText (lineNo : Z) (d : AssemblyData) : AssemblyData :=
  {| textAddress := textAddress d + 1; dataAddress := dataAddress d;
     lineMap := mapLine (textAddress d) lineNo (lineMap d);
     labelResolver := labelResolver d |}.

(** The loop of [assembleTextSegment], from the instructions gathered so far. *)
Fixpoint assembleTextLines (textLines : list (Located TextLine))
    (instructions : list EncodedInstruction) (assemblyData : AssemblyData)
  : Result (list EncodedInstruction * AssemblyData) :=
  match textLines with
  | [] => Ok (instructions, assemblyData)
  | textLine :: rest =>
      let lineNo := startLine textLine - 1 in
      match assembleInstruction (line textLine) assemblyData with
      | Ok (Some instruction, assemblyData) =>
          assembleTextLines rest (instructions ++ [instruction])
                            (advanceText lineNo assemblyData)
      | Ok (None, assemblyData) => assembleTextLines rest instructions assemblyData
      | Throw e => Throw (rethrow e (lineNo + 1) (TextLineData (line textLine)))
      end
  end.

Definition assembleTextSegment (textLines : list (Located TextLine))
    (assemblyData : AssemblyData) : Result (list EncodedInstruction * AssemblyData) :=
  assembleTextLines textLines [] assemblyData.

(** [assemble(program)]; [parsed] is what [parser.parse(program)] does on
    the source text.  A syntax error is thrown again as an
    [AssemblyException] with the line of the error and the default data. *)
Definition assemble (parsed : ParseOutcome) : Result ProgramImage :=
  match parsed with
  | SyntaxError message errorLine => Throw (AssemblyException message errorLine NoData)
  | Parsed parsedProgram =>
      let assemblyData := newAssemblyData in
      let! '(memoryDefinitions, assemblyData) :=
        assembleDataSegment (pp_data parsedProgram) assemblyData in
      let! '(instructions, assemblyData) :=
        assembleTextSegment (pp_text parsedProgram) assemblyData in
      let! r := resolveAddresses (labelResolver assemblyData) in
      Ok {| instructions := instructions; memoryDefinitions := memoryDefinitions;
            prog_lineMap := lineMap assemblyData;
            labelParameters := unresolvedParameters r |}
  end.

End Assembler.

(** ** CPU *)

Record StatusWord := {
  carry : bool;
  zero : bool;
  overflow : bool;
  signum : bool;
  direction : bool
}.

Definition newStatusWord : StatusWord :=
  {| carry := false; zero := false; overflow := false; signum := false; direction := false |}.

(** What a CPU does to its host and to its observers: notifying the exit
    observers ([onExit.notify]), and setting and clearing timers
    ([setTimeout], [clearTimeout]). *)
Inductive Event :=
| ExitNotified
| TimeoutCleared (handle : nat)
| TimeoutSet (handle : nat).

(** The fields of [class CPU].  [registers] are the ten register banks and
    [memory] the main memory: every view is a window on one of these blocks.
    [breakpoints] is [None] until the setter is called.  [events] is the
    trace of the notifications and timer calls made so far. *)
Record CPU := {
  status : StatusWord;
  registers : list MemoryBlock;
  memory : MemoryBlock;
  program : ProgramImage;
  running : bool;
  breakpoints : option (list Z);
  stoppedOnBreakpoint : bool;
  scheduleTimeout : option nat;
  events : list Event
}.

Definition setStatus (x : StatusWord) (c : CPU) : CPU :=
  {| status := x; registers := registers c; memory := memory c; program := program c;
     running := running c; breakpoints := breakpoints c;
     stoppedOnBreakpoint := stoppedOnBreakpoint c; scheduleTimeout := scheduleTimeout c;
     events := events c |}.

Definition setRegisters (x : list MemoryBlock) (c : CPU) : CPU :=
  {| status := status c; registers := x; memory := memory c; program := program c;
     running := running c; breakpoints := breakpoints c;
     stoppedOnBreakpoint := stoppedOnBreakpoint c; scheduleTimeout := scheduleTimeout c;
     events := events c |}.

Definition setMemory (x : MemoryBlock) (c : CPU) : CPU :=
  {| status := status c; registers := registers c; memory := x; program := program c;
     running := running c; breakpoints := breakpoints c;
     stoppedOnBreakpoint := stoppedOnBreakpoint c; scheduleTimeout := scheduleTimeout c;
     events := events c |}.

Definition setRunning (x : bool) (c : CPU) : CPU :=
  {| status := status c; registers := registers c; memory := memory c; program := program c;
     running := x; breakpoints := breakpoints c;
     stoppedOnBreakpoint := stoppedOnBreakpoint c; scheduleTimeout := scheduleTimeout c;
     events := events c |}.

Definition setBreakpoints (x : option (list Z)) (c : CPU) : CPU :=
  {| status := status c; registers := registers c; memory := memory c; program := program c;
     running := running c; breakpoints := x;
     stoppedOnBreakpoint := stoppedOnBreakpoint c; scheduleTimeout := scheduleTimeout c;
     events := events c |}.

Definition setStoppedOnBreakpoint (x : bool) (c : CPU) : CPU :=
  {| status := status c; registers := registers c; memory := memory c; program := program c;
     running := running c; breakpoints := breakpoints c;
     stoppedOnBreakpoint := x; scheduleTimeout := scheduleTimeout c;
     events := events c |}.

Definition setScheduleTimeout (x : option nat) (c : CPU) : CPU :=
  {| status := status c; registers := registers c; memory := memory c; program := program c;
     running := running c; breakpoints := breakpoints c;
     stoppedOnBreakpoint := stoppedOnBreakpoint c; scheduleTimeout := x;
     events := events c |}.

Definition emit (e : Event) (c : CPU) : CPU :=
  {| status := status c; registers := registers c; memory := memory c; program := program c;
     running := running c; breakpoints := breakpoints c;
     stoppedOnBreakpoint := stoppedOnBreakpoint c; scheduleTimeout := scheduleTimeout c;
     events := events c ++ [e] |}.

(** The dictionary built by the constructor: one view per entry of
    [REGISTER_INDEX], on the bank of the entry. *)
Definition registerMap : list (string * MemoryView) :=
  map (fun '(key, reg) =>
         (key, {| mv_block := RegisterBank (ri_bank reg);
                  mv_byteSize := ri_byteSize reg;
                  mv_index := ri_index reg |}))
      REGISTER_INDEX.

(** [registerMap[name]]: [None] when the name is no key of the dictionary.
    What the CPU gets then is no view: [undefined], or for a name that every
    object inherits (such as [toString]) the member inherited. *)
Definition getRegisterByName (name : string) : option MemoryView :=
  lookupKey name registerMap.

(** Calling a method of what [getRegisterByName] returned: a [TypeError]
    when that is no view. *)
Definition method (view : option MemoryView) : Result MemoryView :=
  match view with
  | Some view => Ok view
  | None => Throw (TypeError "Cannot read property of undefined")
  end.

(** [_.findKey(REGISTER_INDEX, reg => reg.id == index)]. *)
Fixpoint findKey {A : Type} (predicate : A -> bool) (object : list (string * A))
  : option string :=
  match object with
  | [] => None
  | (k, v) :: rest => if predicate v then Some k else findKey predicate rest
  end.

(** [getRegisterByName(_.findKey(...))]: when no register has the id,
    [_.findKey] returns [undefined], which as a key is the string
    ["undefined"]. *)
Definition getRegisterByIndex (index : Z) : option MemoryView :=
  match findKey (fun reg => ri_id reg =? index) REGISTER_INDEX with
  | Some key => getRegisterByName key
  | None => getRegisterByName "undefined"
  end.

(** The block behind a view. *)
Definition blockOf (r : BlockRef) (c : CPU) : Result MemoryBlock :=
  match r with
  | RegisterBank bank =>
      match registers c !! bank with
      | Some b => Ok b
      | None => Throw (TypeError "Cannot read property of undefined")
      end
  | MainMemory => Ok (memory c)
  end.

Definition putBlock (r : BlockRef) (b : MemoryBlock) (c : CPU) : CPU :=
  match r with
  | RegisterBank bank => setRegisters (<[bank := b]> (registers c)) c
  | MainMemory => setMemory b c
  end.

(** Modelled from the spec: [MemoryView.getValue], [setValue] and [add]
    (memory-view.ts is not among the sources): sized read and write of the
    byte range of the view in the block it shares, and [add] as a read
    followed by a write. *)
Definition getValue (view : MemoryView) (c : CPU) : Result Z :=
  let! b := blockOf (mv_block view) c in
  blockGet b (mv_index view) (mv_byteSize view).

Definition setValue (view : MemoryView) (value : Z) (c : CPU) : Result CPU :=
  let! b := blockOf (mv_block view) c in
  let! b' := blockSet b (mv_index view) (mv_byteSize view) value in
  Ok (putBlock (mv_block view) b' c).

Definition add (view : MemoryView) (value : Z) (c : CPU) : Result CPU :=
  let! old := getValue view c in
  setValue view (old + value) c.

(** Modelled from the spec: [MemoryBlock.load(address, size)] is the view
    of [size] bytes of the block at [address]. *)
Definition load (address : Z) (byteSize : nat) : MemoryView :=
  {| mv_block := MainMemory; mv_byteSize := byteSize; mv_index := address |}.

Definition eip (c : CPU) : Result Z :=
  let! view := method (lookupKey "EIP" registerMap) in
  getValue view c.

(** The constructor, before its call to [reset]. *)
Definition newCPU (program : ProgramImage) (memory : MemoryBlock) : CPU :=
  {| status := newStatusWord;
     registers := replicate 10 (newMemoryBlock 4);
     memory := memory;
     program := program;
     running := false;
     breakpoints := None;
     stoppedOnBreakpoint := false;
     scheduleTimeout := None;
     events := [] |}.

Definition reset (c : CPU) : Result CPU :=
  let! r := method (getRegisterByName "EIP") in
  let! c := setValue r 0 c in
  let! r := method (getRegisterByName "ESP") in
  let! c := setValue r (size (memory c) - 1) c in
  let! r := method (getRegisterByName "EBP") in
  setValue r (size (memory c) - 1) c.

Definition construct (program : ProgramImage) (memory : MemoryBlock) : Result CPU :=
  reset (newCPU program memory).

(** [_.filter(collection)] without a predicate: the identity is the
    predicate, so the elements kept are the truthy ones; [null] and the
    number 0 are not. *)
Definition truthy (x : option Z) : bool :=
  match x with
  | Some n => negb (n =? 0)
  | None => false
  end.

Fixpoint filterTruthy (collection : list (option Z)) : list Z :=
  match collection with
  | [] => []
  | Some n :: rest => if truthy (Some n) then n :: filterTruthy rest else filterTruthy rest
  | None :: rest => filterTruthy rest
  end.

(** The setter of [breakpoints]: the predicate [value !== null] is the
    third argument of [_.map], which ignores it, and [_.filter] is called
    with the mapped collection alone. *)
Definition set_breakpoints (value : list Z) (c : CPU) : CPU :=
  setBreakpoints
    (Some (filterTruthy
             (map (fun row => getAddressByLine (prog_lineMap (program c)) row) value)))
    c.

Definition clearScheduledRun (c : CPU) : CPU :=
  match scheduleTimeout c with
  | Some handle => emit (TimeoutCleared handle) c
  | None => c
  end.

Definition pause (c : CPU) : CPU :=
  clearScheduledRun (setRunning false c).

(** [scheduleRun]; [handle] is the timer handle that [setTimeout] returns. *)
Definition scheduleRun (handle : nat) (c : CPU) : CPU :=
  setScheduleTimeout (Some handle) (emit (TimeoutSet handle) (clearScheduledRun c)).

Definition run (handle : nat) (c : CPU) : CPU :=
  scheduleRun handle (setRunning true c).

Definition isFinished (c : CPU) : Result bool :=
  let! eip := eip c in
  Ok (Z.of_nat (length (instructions (program c))) <=? eip).

(** [_.includes(this._breakpoints, this.eip)]; an undefined collection
    includes nothing. *)
Definition hasBreakpoint (c : CPU) : Result bool :=
  let! eip := eip c in
  Ok (match breakpoints c with
      | Some addresses => existsb (Z.eqb eip) addresses
      | None => false
      end).

Definition deref (memoryView : MemoryView) (c : CPU) : Result MemoryView :=
  let! address := getValue memoryView c in
  Ok (load address (mv_byteSize memoryView)).

Definition push (value : Z) (c : CPU) : Result CPU :=
  let! esp := method (getRegisterByName "ESP") in
  let! c := add esp (-4) c in
  let! target := deref esp c in
  setValue target value c.

Definition pop (c : CPU) : Result (Z * CPU) :=
  let! esp := method (getRegisterByName "ESP") in
  let! source := deref esp c in
  let! value := getValue source c in
  let! c := add esp 4 c in
  Ok (value, c).

(** [calculateEffectiveAddress(baseReg, indexReg?, multiplier = 1, constant = 0)];
    [None] is an argument left out (undefined). *)
Definition calculateEffectiveAddress (baseReg : MemoryView) (indexReg : option MemoryView)
    (multiplier constant : option Z) (c : CPU) : Result Z :=
  let multiplier := default 1 multiplier in
  let constant := default 0 constant in
  let! indexReg :=
    match indexReg with
    | Some view => Ok view
    | None => method (getRegisterByName "NULL")
    end in
  let! base := getValue baseReg c in
  let! index := getValue indexReg c in
  Ok (base + index * multiplier + constant).

Definition setFlags (value : Z) (c : CPU) : CPU :=
  setStatus {| carry := carry (status c); zero := value =? 0;
               overflow := overflow (status c); signum := value <? 0;
               direction := direction (status c) |} c.

Section Engine.

(** The behaviour of the instruction classes (instruction/*.ts, not among
    the sources): executing an encoded instruction on the CPU yields the
    next address and the CPU it leaves. *)
Variable execute : EncodedInstruction -> CPU -> Result (Z * CPU).

(** [program.getInstructionByAddress(cpu, eip)]. *)
Definition loadInstruction (c : CPU) (eip : Z) : Result EncodedInstruction :=
  match (if 0 <=? eip then instructions (program c) !! Z.to_nat eip else None) with
  | Some instruction => Ok instruction
  | None => Throw (TypeError "Cannot read property 'execute' of undefined")
  end.

Definition executeOneInstruction (c : CPU) : Result CPU :=
  let! eip := eip c in
  let! instruction := loadInstruction c eip in
  let! '(nextAddress, c) := execute instruction c in
  let! r := method (getRegisterByName "EIP") in
  setValue r nextAddress c.

Definition step (c : CPU) : Result CPU :=
  let! finished := isFinished c in
  if finished then Ok (emit ExitNotified (pause c))
  else
    let! stop := hasBreakpoint c in
    if stop then
      if negb (stoppedOnBreakpoint c)
      then Ok (pause (setStoppedOnBreakpoint true c))
      else executeOneInstruction (setStoppedOnBreakpoint false c)
    else executeOneInstruction c.

(** [tickStep], the callback of the timer; [handle] is the handle of the
    timer it sets. *)
Definition tickStep (handle : nat) (c : CPU) : Result CPU :=
  if running c then
    let! c := step c in
    Ok (scheduleRun handle c)
  else Ok c.

End Engine.

(** The byte range of a view inside its block. *)
Definition inRange (view : MemoryView) (offset : nat) : Prop :=
  mv_index view <= Z.of_nat offset < mv_index view + Z.of_nat (mv_byteSize view).

(** A CPU as the constructor builds it and as every operation keeps it:
    ten register banks of four bytes, and bytes everywhere. *)
Definition isByte (x : Z) : Prop := 0 <= x < 256.

Record wellFormed (c : CPU) : Prop := {
  wf_banks : length (registers c) = 10%nat;
  wf_bank_size : forall b, b ∈ registers c -> length b = 4%nat;
  wf_bank_bytes : forall b, b ∈ registers c -> Forall isByte b;
  wf_memory_bytes : Forall isByte (memory c)
}.

(** Modelled from the spec: the valid parameter masks of the three
    instruction classes as far as the examples of the specification fix them
    ([MOV EAX, 5], [JMP end], [INT 0]), and their display names. *)
Definition specValidParameters (i : Instruction) : list (list ParameterTag) :=
  match i with
  | Move => [[TReg; TReg]; [TReg; TConstant]; [TReg; TMemory]; [TMemory; TReg]]
  | Jump => [[TLabel]]
  | Interrupt => [[TConstant]]
  end.

Definition specToString (i : Instruction) : string :=
  match i with
  | Move => "MOV"
  | Jump => "JMP"
  | Interrupt => "INT"
  end.

(** The own properties of a class object that has no static member: its
    [length], its [name] and its [prototype], here with the two methods that
    the assembler calls. *)
Definition plainClass (i : Instruction) : list (string * Value) :=
  [ ("length", VNumber 0);
    ("name", VString match i with Move => "Move" | Jump => "Jump" | Interrupt => "Interrupt" end);
    ("prototype", VObject [("getValidParameters", VObject []); ("toString", VObject [])]) ]%string.

(** ** Auxiliary definitions for the statements *)

(** Reading the register [name] of a CPU:
    [cpu.getRegisterByName(name).getValue()]. *)
Definition registerValue (name : string) (c : CPU) : Result Z :=
  let! view := method (getRegisterByName name) in
  getValue view c.

(** The view of a register of the table, as the constructor builds it. *)
Definition viewOf (info : RegisterInfo) : MemoryView :=
  {| mv_block := RegisterBank (ri_bank info); mv_byteSize := ri_byteSize info;
     mv_index := ri_index info |}.

Definition EIP_info : RegisterInfo := registerInfo 1 1 4 0.
Definition EBP_info : RegisterInfo := registerInfo 2 2 4 0.
Definition ESP_info : RegisterInfo := registerInfo 3 3 4 0.
Definition AX_info : RegisterInfo := registerInfo 21 4 2 0.
Definition AH_info : RegisterInfo := registerInfo 22 4 1 1.
Definition AL_info : RegisterInfo := registerInfo 23 4 1 0.

(** A program without instructions, and a machine with 16 bytes of memory
    built on it. *)
Definition emptyProgram : ProgramImage :=
  {| instructions := []; memoryDefinitions := []; prog_lineMap := [];
     labelParameters := [] |}.

Definition smallCPU : CPU := newCPU emptyProgram (newMemoryBlock 16).

(** [n] successive calls of [step]. *)
Fixpoint steps (execute : EncodedInstruction -> CPU -> Result (Z * CPU)) (n : nat) (c : CPU)
  : Result CPU :=
  match n with
  | O => Ok c
  | S n' => let! c := step execute c in steps execute n' c
  end.

(** What [clearScheduledRun] tells the host. *)
Definition cancellation (c : CPU) : list Event :=
  match scheduleTimeout c with
  | Some handle => [TimeoutCleared handle]
  | None => []
  end.

(** The image of the one-line program [MOV EAX, 5], whose instruction is on
    source row 0, and the CPU constructed on it with 16 bytes of memory. *)
Definition oneInstruction : ProgramImage :=
  {| instructions := [ {| ei_instruction := Move;
                          ei_parameters := [RegisterParameter 4 20; ConstantParameter 4 5 false] |} ];
     memoryDefinitions := [];
     prog_lineMap := mapLine 0 0 [];
     labelParameters := [] |}.

Definition oneInstructionCPU : CPU :=
  match construct oneInstruction (newMemoryBlock 16) with
  | Ok c => c
  | Throw _ => newCPU oneInstruction (newMemoryBlock 16)
  end.

(** An instruction behaviour that touches nothing and continues with the
    next address. *)
Definition fallThrough (i : EncodedInstruction) (c : CPU) : Result (Z * CPU) :=
  let! a := eip c in
  Ok (a + 1, c).

(** The CPU constructed on the empty program, set running with timer 7. *)
Definition finishedCPU : CPU :=
  run 7 (match construct emptyProgram (newMemoryBlock 16) with
         | Ok c => c
         | Throw _ => smallCPU
         end).

(** The parsed program of [JMP end / end: / INT 0] (lines 1 to 3). *)
Definition forwardJump : ParsedProgram :=
  {| pp_text :=
       [ {| startLine := 1;
            line := {| tl_label := None;
                       tl_instruction :=
                         Some {| pi_type := None; pi_name := "JMP";
                                 pi_operands := [LabelOperand "end" false] |} |} |};
         {| startLine := 2;
            line := {| tl_label := Some {| pl_name := "end"; pl_local := false |};
                       tl_instruction := None |} |};
         {| startLine := 3;
            line := {| tl_label := None;
                       tl_instruction :=
                         Some {| pi_type := None; pi_name := "INT";
                                 pi_operands := [ConstantOperand 0 false] |} |} |} ];
     pp_data := [] |}.

(** A data line [x: db 1] and text lines carrying only a label. *)
Definition dataByte (lineNo : Z) (name : string) (value : Z) : Located DataLine :=
  {| startLine := lineNo;
     line := {| dl_label := Some {| pl_name := name; pl_local := false |};
                dl_size := Some 1; dl_constants := [NumberConstant value] |} |}.

Definition labelOnly (lineNo : Z) (name : string) (local : bool) : Located TextLine :=
  {| startLine := lineNo;
     line := {| tl_label := Some {| pl_name := name; pl_local := local |};
                tl_instruction := None |} |}.


(** The label [x] defined twice: in the data segment, in the text segment,
    and once in each. *)
Definition twiceInData : ParsedProgram :=
  {| pp_text := []; pp_data := [dataByte 1 "x" 1; dataByte 2 "x" 2] |}.

Definition twiceInText : ParsedProgram :=
  {| pp_text := [labelOnly 1 "x" false; labelOnly 2 "x" false]; pp_data := [] |}.

Definition onceInEach : ParsedProgram :=
  {| pp_text := [labelOnly 2 "x" false]; pp_data := [dataByte 1 "x" 1] |}.

(** The names of the global labels that the lines of a program carry, data
    lines first. *)
Definition globalLabelOf (label : option ParsedLabel) : list string :=
  match label with
  | Some l => if pl_local l then [] else [pl_name l]
  | None => []
  end.

Definition globalLabels (p : ParsedProgram) : list string :=
  flat_map (fun l => globalLabelOf (dl_label (line l))) (pp_data p)
  ++ flat_map (fun l => globalLabelOf (tl_label (line l))) (pp_text p).

(** The keys of the label table. *)
Definition labelKeys (d : AssemblyData) : list string :=
  map fst (labels (labelResolver d)).





(** The assembly data after the data line [x: db 1]. *)
Definition afterDataX : AssemblyData :=
  {| textAddress := 0; dataAddress := 1; lineMap := [];
     labelResolver :=
       {| labels := [("x"%string, {| label_name := "x"; label_local := false;
                                     label_address := 0 |})];
          unresolvedParameters := [] |} |}.

(** The names that the label table stores: every name but [__proto__]. *)
Definition stored (names : list string) : list string :=
  List.filter (fun name => negb (String.eqb name "__proto__")) names.

(** A run of lines from the assembly data [d] to [d']: the keys of the
    label table are extended, stay without repetition, and the names in
    [globals] that the table stores are among the keys added, in their
    order. *)
Definition extends (globals : list string) (d d' : AssemblyData) : Prop :=
  exists added, labelKeys d' = labelKeys d ++ added /\
    (NoDup (labelKeys d) -> NoDup (labelKeys d')) /\ sublist (stored globals) added.

(** The label [__proto__] defined twice in the data segment, and once in
    each segment before a label [x]. *)
Definition protoTwice : ParsedProgram :=
  {| pp_text := []; pp_data := [dataByte 1 "__proto__" 1; dataByte 2 "__proto__" 2] |}.

Definition protoInEach : ParsedProgram :=
  {| pp_text := [labelOnly 2 "__proto__" false; labelOnly 3 "x" false];
     pp_data := [dataByte 1 "__proto__" 1] |}.

(** ** Auxiliary definitions for further properties *)

(** The lines of a text segment that carry an instruction. *)
Definition instructionLines (lines : list (Located TextLine)) : list (Located TextLine) :=
  List.filter (fun l => match tl_instruction (line l) with Some _ => true | None => false end)
              lines.

(** The entries of the line map for lines that receive the addresses
    [a], [a + 1], ... in turn; the line recorded is the line of the grammar
    minus 1. *)
Fixpoint numbered (a : Z) (lines : list (Located TextLine)) : LineMap :=
  match lines with
  | [] => []
  | l :: rest => (a, startLine l - 1) :: numbered (a + 1) rest
  end.

(** Memory definitions that follow each other without gap from address [a]
    to address [final]. *)
Fixpoint chained (a : Z) (definitions : list MemoryDefinition) (final : Z) : Prop :=
  match definitions with
  | [] => a = final
  | m :: rest => md_address m = a /\ chained (a + md_size m) rest final
  end.

(** The values that a constant of a data line defines. *)
Definition constantValues (c : DataConstant) : list Z :=
  match c with
  | StringConstant characters => map (fun ch => Z.of_nat (nat_of_ascii ch)) characters
  | NumberConstant value => [value]
  end.

(** The size field of an encoded operand that is not a label operand. *)
Definition parameterSize (p : EncodedParameter) : option Z :=
  match p with
  | RegisterParameter size _ => Some size
  | ConstantParameter size _ _ => Some size
  | MemoryParameter size _ _ _ _ => Some size
  | LabelParameterRef _ => None
  end.

(** The spec's program [start: / MOV EAX, 5 / INT 0], with an empty line
    before the last instruction. *)
Definition movInt : ParsedProgram :=
  {| pp_text :=
       [ labelOnly 1 "start" false;
         {| startLine := 2;
            line := {| tl_label := None;
                       tl_instruction :=
                         Some {| pi_type := None; pi_name := "MOV";
                                 pi_operands := [RegOperand "EAX"; ConstantOperand 5 false] |} |} |};
         {| startLine := 3; line := {| tl_label := None; tl_instruction := None |} |};
         {| startLine := 4;
            line := {| tl_label := Some {| pl_name := "stop"; pl_local := false |};
                       tl_instruction :=
                         Some {| pi_type := None; pi_name := "INT";
                                 pi_operands := [ConstantOperand 0 false] |} |} |} ];
     pp_data := [] |}.

(** The resolver after [mark_unresolved] of a reference to [end] and the
    later definition of [end] at address 1. *)
Definition forwardReference : Result LabelResolver :=
  addLabel 1 "end" false
    (markUnresolvedParameter
       {| lp_size := 4; lp_label := "end"; lp_deref := false; lp_address := None |}
       newLabelResolver).

(** The values and the sizes of the definitions that a data line produces:
    none when the line has no element size. *)
Definition lineValues (l : Located DataLine) : list Z :=
  match dl_size (line l) with
  | Some _ => flat_map constantValues (dl_constants (line l))
  | None => []
  end.

Definition lineSizes (l : Located DataLine) : list Z :=
  match dl_size (line l) with
  | Some size => map (fun _ => size) (flat_map constantValues (dl_constants (line l)))
  | None => []
  end.

(** A data segment: [msg: db "Hi", 0] and [num: dd 7] (lines 1 and 2). *)
Definition twoDataLines : list (Located DataLine) :=
  [ {| startLine := 1;
       line := {| dl_label := Some {| pl_name := "msg"; pl_local := false |};
                  dl_size := Some 1;
                  dl_constants := [StringConstant ["H"%char; "i"%char]; NumberConstant 0] |} |};
    {| startLine := 2;
       line := {| dl_label := Some {| pl_name := "num"; pl_local := false |};
                  dl_size := Some 4;
                  dl_constants := [NumberConstant 7] |} |} ].

(** The encoded instruction of a text line that carries an instruction. *)
Definition encodes (valid : Instruction -> list (list ParameterTag))
    (display : Instruction -> string) (members : Instruction -> list (string * Value))
    (l : Located TextLine) (encoded : EncodedInstruction) : Prop :=
  exists i, tl_instruction (line l) = Some i /\
    parseInstruction valid display members i = Ok encoded.

(** The kinds of the operands of an instruction, casts removed. *)
Definition parameterMask (operands : list Operand) : list ParameterTag :=
  map (fun operand => tag (getInnerParameter operand)) operands.

(** An encoded operand that is not a reference to a label operand. *)
Definition notLabelRef (p : EncodedParameter) : Prop := parameterSize p <> None.



(** The timers of the host that are pending after a trace of events:
    [setTimeout] adds its handle, [clearTimeout] removes the handle it is
    given. *)
Definition applyEvent (pending : list nat) (e : Event) : list nat :=
  match e with
  | TimeoutSet handle => handle :: pending
  | TimeoutCleared handle => List.filter (fun h => negb (Nat.eqb h handle)) pending
  | ExitNotified => pending
  end.

Definition pendingTimers (trace : list Event) : list nat :=
  fold_left applyEvent trace [].

(** Every pending timer is the one whose handle the CPU holds. *)
Definition onlyScheduled (c : CPU) : Prop :=
  forall h, In h (pendingTimers (events c)) -> scheduleTimeout c = Some h.

(** The number of exit notifications in a trace. *)
Definition exitCount (trace : list Event) : nat :=
  length (List.filter (fun e => match e with ExitNotified => true | _ => false end) trace).

(** The image of [MOV EAX, 5 / INT 0] (source rows 0 and 1) and the CPU
    constructed on it with 16 bytes of memory. *)
Definition twoInstructions : ProgramImage :=
  {| instructions :=
       [ {| ei_instruction := Move;
            ei_parameters := [RegisterParameter 4 20; ConstantParameter 4 5 false] |};
         {| ei_instruction := Interrupt; ei_parameters := [ConstantParameter 4 0 false] |} ];
     memoryDefinitions := [];
     prog_lineMap := mapLine 1 1 (mapLine 0 0 []);
     labelParameters := [] |}.

Definition twoInstructionsCPU : CPU :=
  match construct twoInstructions (newMemoryBlock 16) with
  | Ok c => c
  | Throw _ => newCPU twoInstructions (newMemoryBlock 16)
  end.

(** A name without path syntax: it contains neither a dot nor an opening
    bracket. *)
Fixpoint noPathSyntax (s : string) : bool :=
  match s with
  | EmptyString => true
  | String c rest =>
      negb (Ascii.eqb c dot) && negb (Ascii.eqb c openBracket) && noPathSyntax rest
  end.

(** The register table as [_.has] sees it. *)
Definition registerTable : Value := dictionary registerInfoValue REGISTER_INDEX.

Definition NULL_info : RegisterInfo := registerInfo 0 0 4 0.
Definition EAX_info : RegisterInfo := registerInfo 20 4 4 0.

(** The CPU constructed on the empty program with 16 bytes of memory, after
    the value 5 has been written through the register with id 0. *)
Definition nullWritten : Result CPU :=
  let! c := construct emptyProgram (newMemoryBlock 16) in
  let! null := method (getRegisterByIndex 0) in
  setValue null 5 c.

(** A property name as it stands in a path: it contains no dot and no
    bracket. *)
Fixpoint isName (s : string) : bool :=
  match s with
  | EmptyString => true
  | String c rest => isNameChar c && isName rest
  end.

(** The name [object.field] of a path of two names. *)
Definition dotted (object field : string) : string := object +:+ String dot field.

(** The resolver after [x: db 1] with one recorded operand that names
    [x.address]. *)
Definition pathReference : LabelResolver :=
  markUnresolvedParameter
    {| lp_size := 4; lp_label := "x.address"; lp_deref := false; lp_address := None |}
    (labelResolver afterDataX).

(** An encoded operand with another size. *)
Definition withSize (size : Z) (p : EncodedParameter) : EncodedParameter :=
  match p with
  | RegisterParameter _ registerId => RegisterParameter size registerId
  | ConstantParameter _ value deref => ConstantParameter size value deref
  | MemoryParameter _ baseRegId indexRegId multiplier constant =>
      MemoryParameter size baseRegId indexRegId multiplier constant
  | LabelParameterRef position => LabelParameterRef position
  end.

(** The builder that [loadParameters] selects for an operand that is no
    cast, called with [size]. *)
Definition build (size : Z) (innerOperand : Operand) : Result EncodedParameter :=
  match tag innerOperand with
  | TReg => parseRegisterParameter size innerOperand
  | TConstant => parseConstantParameter size innerOperand
  | TMemory => parseMemoryParameter size innerOperand
  | TLabel =>
      let! '(parameter, _) := parseLabelParameter size innerOperand None in
      Ok parameter
  | TCast => Throw (TypeError "Cannot read property 'call' of undefined")
  end.


(** The instruction mapping as [_.has] sees it: each class with its own
    properties. *)
Definition instructionTable (members : Instruction -> list (string * Value)) : Value :=
  dictionary (fun class => VObject (members class)) InstructionMapping.

(** * Properties *)

(** ** Sized reads and writes *)

Lemma length_writeBytes (n : nat) : forall (b : MemoryBlock) (i : nat) (v : Z),
  length (writeBytes b i n v) = length b.
Proof.
  induction n as [|n IH]; intros b i v; simpl; [reflexivity|].
  rewrite IH. apply length_insert.
Qed.

(** A write leaves every byte outside its range as it was. *)
Lemma writeBytes_outside (n : nat) : forall (b : MemoryBlock) (i j : nat) (v : Z),
  (j < i \/ i + n <= j)%nat -> writeBytes b i n v !! j = b !! j.
Proof.
  induction n as [|n IH]; intros b i j v Hj; simpl; [reflexivity|].
  rewrite IH by lia. apply list_lookup_insert_ne. lia.
Qed.

(** A read depends on the bytes of its range only. *)
Lemma readBytes_ext (n : nat) : forall (b b' : MemoryBlock) (i : nat),
  (forall j, (i <= j < i + n)%nat -> b !! j = b' !! j) ->
  readBytes b i n = readBytes b' i n.
Proof.
  induction n as [|n IH]; intros b b' i H; simpl; [reflexivity|].
  rewrite (H i) by lia. rewrite (IH b b' (S i)); [reflexivity|].
  intros j Hj. apply H. lia.
Qed.

(** Reading back what was written gives the value modulo the width. *)
Lemma readBytes_writeBytes (n : nat) : forall (b : MemoryBlock) (i : nat) (v : Z),
  (i + n <= length b)%nat ->
  readBytes (writeBytes b i n v) i n = v mod 256 ^ Z.of_nat n.
Proof.
  induction n as [|n IH]; intros b i v Hlen.
  - simpl. rewrite Z.mod_1_r. reflexivity.
  - cbn [readBytes writeBytes].
    rewrite writeBytes_outside by lia.
    rewrite list_lookup_insert_eq by lia. cbn [default].
    rewrite IH by (rewrite length_insert; lia).
    rewrite Nat2Z.inj_succ, Z.pow_succ_r by lia.
    rewrite Z.rem_mul_r by lia. reflexivity.
Qed.

Lemma writeBytes_bytes (n : nat) : forall (b : MemoryBlock) (i : nat) (v : Z),
  Forall isByte b -> Forall isByte (writeBytes b i n v).
Proof.
  induction n as [|n IH]; intros b i v Hb; simpl; [assumption|].
  apply IH. apply Forall_insert; [assumption|].
  unfold isByte. apply Z.mod_pos_bound. lia.
Qed.

Lemma readBytes_range (n : nat) : forall (b : MemoryBlock) (i : nat),
  Forall isByte b -> 0 <= readBytes b i n < 256 ^ Z.of_nat n.
Proof.
  induction n as [|n IH]; intros b i Hb.
  - simpl. lia.
  - cbn [readBytes]. rewrite Nat2Z.inj_succ, Z.pow_succ_r by lia.
    specialize (IH b (S i) Hb).
    assert (Hx : 0 <= default 0 (b !! i) < 256).
    { destruct (b !! i) as [x|] eqn:E; simpl; [|lia].
      rewrite Forall_forall in Hb. apply Hb. eapply list_elem_of_lookup_2. exact E. }
    nia.
Qed.

(** ** Register views *)

Lemma wellFormed_bank (c : CPU) (k : nat) :
  wellFormed c -> (k < 10)%nat ->
  exists b, registers c !! k = Some b /\ length b = 4%nat /\ Forall isByte b.
Proof.
  intros [Hn Hs Hb _] Hk.
  destruct (lookup_lt_is_Some_2 (registers c) k) as [b E]; [lia|].
  exists b. pose proof (list_elem_of_lookup_2 _ _ _ E) as Hin. auto.
Qed.

Lemma getValue_bank (c : CPU) (k sz : nat) (idx : Z) (b : list Z) :
  registers c !! k = Some b -> length b = 4%nat ->
  0 <= idx -> idx + Z.of_nat sz <= 4 ->
  getValue {| mv_block := RegisterBank k; mv_byteSize := sz; mv_index := idx |} c
  = Ok (readBytes b (Z.to_nat idx) sz).
Proof.
  intros E Hl H0 H4. unfold getValue, blockOf, blockGet, inBounds, size; simpl.
  rewrite E; simpl. rewrite Hl.
  replace (0 <=? idx) with true by (symmetry; apply Z.leb_le; lia).
  replace (idx + Z.of_nat sz <=? Z.of_nat 4) with true by (symmetry; apply Z.leb_le; lia).
  reflexivity.
Qed.

Lemma setValue_bank (c : CPU) (k sz : nat) (idx v : Z) (b : list Z) :
  registers c !! k = Some b -> length b = 4%nat ->
  0 <= idx -> idx + Z.of_nat sz <= 4 ->
  setValue {| mv_block := RegisterBank k; mv_byteSize := sz; mv_index := idx |} v c
  = Ok (setRegisters (<[k := writeBytes b (Z.to_nat idx) sz v]> (registers c)) c).
Proof.
  intros E Hl H0 H4. unfold setValue, blockOf, blockSet, inBounds, size; simpl.
  rewrite E; simpl. rewrite Hl.
  replace (0 <=? idx) with true by (symmetry; apply Z.leb_le; lia).
  replace (idx + Z.of_nat sz <=? Z.of_nat 4) with true by (symmetry; apply Z.leb_le; lia).
  reflexivity.
Qed.

Lemma wellFormed_setRegisters (c : CPU) (k : nat) (b : list Z) :
  wellFormed c -> length b = 4%nat -> Forall isByte b ->
  wellFormed (setRegisters (<[k := b]> (registers c)) c).
Proof.
  intros [Hn Hs Hb Hm] Hl Hy. split; simpl.
  - rewrite length_insert. exact Hn.
  - intros x Hx. apply list_elem_of_lookup_1 in Hx as [i Hi].
    destruct (decide (k = i)) as [->|Hne].
    + destruct (decide (i < length (registers c))%nat).
      * rewrite list_lookup_insert_eq in Hi by assumption. congruence.
      * rewrite list_insert_ge in Hi by lia. eapply Hs, list_elem_of_lookup_2, Hi.
    + rewrite list_lookup_insert_ne in Hi by assumption.
      eapply Hs, list_elem_of_lookup_2, Hi.
  - intros x Hx. apply list_elem_of_lookup_1 in Hx as [i Hi].
    destruct (decide (k = i)) as [->|Hne].
    + destruct (decide (i < length (registers c))%nat).
      * rewrite list_lookup_insert_eq in Hi by assumption. congruence.
      * rewrite list_insert_ge in Hi by lia. eapply Hb, list_elem_of_lookup_2, Hi.
    + rewrite list_lookup_insert_ne in Hi by assumption.
      eapply Hb, list_elem_of_lookup_2, Hi.
  - exact Hm.
Qed.

Lemma wellFormed_newCPU (p : ProgramImage) (m : list Z) :
  Forall isByte m -> wellFormed (newCPU p m).
Proof.
  intros Hm. split; cbn [newCPU registers memory]; [reflexivity| | |exact Hm].
  - intros b Hb. apply elem_of_replicate in Hb as [-> _]. reflexivity.
  - intros b Hb. apply elem_of_replicate in Hb as [-> _].
    unfold newMemoryBlock. apply Forall_replicate. unfold isByte. lia.
Qed.

Lemma register_table (name : string) (info : RegisterInfo) :
  lookupKey name REGISTER_INDEX = Some info ->
  (ri_bank info < 10)%nat /\ 0 <= ri_index info /\
  ri_index info + Z.of_nat (ri_byteSize info) <= 4 /\
  getRegisterByName name = Some (viewOf info).
Proof.
  unfold getRegisterByName, registerMap, REGISTER_INDEX. cbn [lookupKey map].
  repeat (destruct (String.eqb _ name);
          [intros [= <-]; cbn; repeat split; lia|]).
  discriminate.
Qed.

(** Reading a register of the table, on a well-formed CPU. *)
Lemma registerValue_read (c : CPU) (name : string) (info : RegisterInfo) :
  wellFormed c -> lookupKey name REGISTER_INDEX = Some info ->
  exists b, registers c !! ri_bank info = Some b /\ length b = 4%nat /\ Forall isByte b /\
    registerValue name c
    = Ok (readBytes b (Z.to_nat (ri_index info)) (ri_byteSize info)).
Proof.
  intros Hwf Hname.
  destruct (register_table _ _ Hname) as (Hk & H0 & H4 & Hview).
  destruct (wellFormed_bank c _ Hwf Hk) as (b & E & Hl & Hb).
  exists b. repeat split; try assumption.
  unfold registerValue. rewrite Hview. cbn [bind method].
  apply getValue_bank; assumption.
Qed.

(** Writing a register of the table, on a well-formed CPU: the bank of the
    register gets the bytes of the value in the range of the view, and
    nothing else changes. *)
Lemma register_write (c : CPU) (name : string) (info : RegisterInfo) (v : Z) :
  wellFormed c -> lookupKey name REGISTER_INDEX = Some info ->
  exists b,
    registers c !! ri_bank info = Some b /\ length b = 4%nat /\
    setValue (viewOf info) v c
    = Ok (setRegisters (<[ri_bank info :=
                           writeBytes b (Z.to_nat (ri_index info)) (ri_byteSize info) v]>
                          (registers c)) c) /\
    wellFormed (setRegisters (<[ri_bank info :=
                           writeBytes b (Z.to_nat (ri_index info)) (ri_byteSize info) v]>
                          (registers c)) c).
Proof.
  intros Hwf Hname.
  destruct (register_table _ _ Hname) as (Hk & H0 & H4 & Hview).
  destruct (wellFormed_bank c _ Hwf Hk) as (b & E & Hl & Hb).
  exists b. split; [assumption|]. split; [assumption|]. split.
  - apply setValue_bank; assumption.
  - apply wellFormed_setRegisters; [assumption| |].
    + rewrite length_writeBytes. assumption.
    + apply writeBytes_bytes. assumption.
Qed.

(** A register read after a write of the same register. *)
Lemma registerValue_written (c c' : CPU) (name : string) (info : RegisterInfo) (v : Z) :
  wellFormed c -> lookupKey name REGISTER_INDEX = Some info ->
  setValue (viewOf info) v c = Ok c' ->
  wellFormed c' /\ memory c' = memory c /\
  registerValue name c' = Ok (v mod 256 ^ Z.of_nat (ri_byteSize info)).
Proof.
  intros Hwf Hname Hset.
  destruct (register_table _ _ Hname) as (Hk & H0 & H4 & Hview).
  destruct (register_write c name info v Hwf Hname) as (b & E & Hl & Hset' & Hwf').
  rewrite Hset' in Hset. injection Hset as <-.
  split; [assumption|]. split; [reflexivity|].
  unfold registerValue. rewrite Hview. cbn [bind method]. unfold viewOf.
  pose proof (lookup_lt_Some _ _ _ E) as Hlt.
  rewrite (getValue_bank _ _ _ _
             (writeBytes b (Z.to_nat (ri_index info)) (ri_byteSize info) v));
    [|cbn [registers setRegisters]; apply list_lookup_insert_eq; assumption
     |rewrite length_writeBytes; assumption|assumption|assumption].
  rewrite readBytes_writeBytes by lia. reflexivity.
Qed.

(** A register read after a write of a register of another bank. *)
Lemma registerValue_other (c c' : CPU) (name name' : string) (info info' : RegisterInfo)
    (v : Z) :
  wellFormed c -> lookupKey name REGISTER_INDEX = Some info ->
  lookupKey name' REGISTER_INDEX = Some info' -> ri_bank info' <> ri_bank info ->
  setValue (viewOf info) v c = Ok c' ->
  registerValue name' c' = registerValue name' c.
Proof.
  intros Hwf Hname Hname' Hne Hset.
  destruct (register_write c name info v Hwf Hname) as (b & E & Hl & Hset' & Hwf').
  rewrite Hset' in Hset. injection Hset as <-.
  destruct (register_table _ _ Hname') as (Hk & H0 & H4 & Hview).
  unfold registerValue. rewrite Hview. cbn [bind method].
  unfold getValue, blockOf. cbn [viewOf mv_block registers setRegisters].
  rewrite list_lookup_insert_ne by auto. reflexivity.
Qed.

(** ** reset *)

Lemma reset_ok (c : CPU) :
  wellFormed c -> 0 < size (memory c) <= 2 ^ 32 ->
  exists c', reset c = Ok c' /\ wellFormed c' /\ memory c' = memory c /\
    eip c' = Ok 0 /\
    registerValue "ESP" c' = Ok (size (memory c) - 1) /\
    registerValue "EBP" c' = Ok (size (memory c) - 1).
Proof.
  intros Hwf Hsize. unfold reset.
  change (method (getRegisterByName "EIP")) with (Ok (viewOf EIP_info)).
  change (method (getRegisterByName "ESP")) with (Ok (viewOf ESP_info)).
  change (method (getRegisterByName "EBP")) with (Ok (viewOf EBP_info)).
  cbn [bind].
  destruct (register_write c "EIP" EIP_info 0 Hwf eq_refl) as (b1 & _ & _ & E1 & _).
  rewrite E1. cbn [bind].
  destruct (registerValue_written _ _ "EIP" EIP_info 0 Hwf eq_refl E1) as (Hwf1 & Hm1 & Hr1).
  set (c1 := setRegisters _ c) in *.
  destruct (register_write c1 "ESP" ESP_info (size (memory c1) - 1) Hwf1 eq_refl)
    as (b2 & _ & _ & E2 & _).
  rewrite E2. cbn [bind].
  destruct (registerValue_written _ _ "ESP" ESP_info _ Hwf1 eq_refl E2) as (Hwf2 & Hm2 & Hr2).
  pose proof (registerValue_other _ _ "ESP" "EIP" ESP_info EIP_info _ Hwf1 eq_refl eq_refl
                ltac:(discriminate) E2) as Ho2.
  set (c2 := setRegisters _ c1) in *.
  destruct (register_write c2 "EBP" EBP_info (size (memory c2) - 1) Hwf2 eq_refl)
    as (b3 & _ & _ & E3 & _).
  rewrite E3.
  destruct (registerValue_written _ _ "EBP" EBP_info _ Hwf2 eq_refl E3) as (Hwf3 & Hm3 & Hr3).
  pose proof (registerValue_other _ _ "EBP" "EIP" EBP_info EIP_info _ Hwf2 eq_refl eq_refl
                ltac:(discriminate) E3) as Ho3.
  pose proof (registerValue_other _ _ "EBP" "ESP" EBP_info ESP_info _ Hwf2 eq_refl eq_refl
                ltac:(discriminate) E3) as Ho3'.
  set (c3 := setRegisters _ c2) in *.
  exists c3. split; [reflexivity|]. split; [assumption|].
  split; [congruence|].
  assert (Hmod : (size (memory c) - 1) mod 256 ^ Z.of_nat 4 = size (memory c) - 1).
  { apply Z.mod_small. change (256 ^ Z.of_nat 4) with (2 ^ 32). lia. }
  split; [|split].
  - change (eip c3) with (registerValue "EIP" c3). rewrite Ho3, Ho2, Hr1. reflexivity.
  - rewrite Ho3', Hr2, Hm1. cbn [ri_byteSize ESP_info registerInfo]. rewrite Hmod.
    reflexivity.
  - rewrite Hr3, Hm2, Hm1. cbn [ri_byteSize EBP_info registerInfo]. rewrite Hmod.
    reflexivity.
Qed.

Lemma reset_total (c : CPU) :
  wellFormed c -> exists c', reset c = Ok c' /\ wellFormed c'.
Proof.
  intros Hwf. unfold reset.
  change (method (getRegisterByName "EIP")) with (Ok (viewOf EIP_info)).
  change (method (getRegisterByName "ESP")) with (Ok (viewOf ESP_info)).
  change (method (getRegisterByName "EBP")) with (Ok (viewOf EBP_info)).
  cbn [bind].
  destruct (register_write c "EIP" EIP_info 0 Hwf eq_refl) as (b1 & _ & _ & E1 & W1).
  rewrite E1. cbn [bind].
  destruct (register_write _ "ESP" ESP_info (size (memory c) - 1) W1 eq_refl)
    as (b3 & _ & _ & E3 & W3).
  cbn [memory setRegisters]. rewrite E3. cbn [bind].
  destruct (register_write _ "EBP" EBP_info (size (memory c) - 1) W3 eq_refl)
    as (b2 & _ & _ & E2 & W2).
  cbn [memory setRegisters]. rewrite E2. eauto.
Qed.

Lemma wellFormed_construct (p : ProgramImage) (m : list Z) (c : CPU) :
  Forall isByte m -> construct p m = Ok c -> wellFormed c.
Proof.
  intros Hm H. destruct (reset_total (newCPU p m) (wellFormed_newCPU p m Hm)) as (c' & Hr & Hwf).
  unfold construct in H. rewrite Hr in H. injection H as <-. exact Hwf.
Qed.

(** ** push and pop *)

Lemma registerValue_range (c : CPU) (name : string) (info : RegisterInfo) (x : Z) :
  wellFormed c -> lookupKey name REGISTER_INDEX = Some info ->
  registerValue name c = Ok x -> 0 <= x < 256 ^ Z.of_nat (ri_byteSize info).
Proof.
  intros Hwf Hname Hx.
  destruct (registerValue_read c name info Hwf Hname) as (b & _ & _ & Hb & E).
  rewrite E in Hx. injection Hx as <-. apply readBytes_range. assumption.
Qed.

(** [esp.add(d)] on a well-formed CPU whose stack pointer stays in range. *)
Lemma add_ESP (c : CPU) (e d : Z) :
  wellFormed c -> registerValue "ESP" c = Ok e -> 0 <= e + d < 2 ^ 32 ->
  exists c', add (viewOf ESP_info) d c = Ok c' /\ wellFormed c' /\
    memory c' = memory c /\ registerValue "ESP" c' = Ok (e + d).
Proof.
  intros Hwf He Hd. unfold add.
  change (getValue (viewOf ESP_info) c) with (registerValue "ESP" c).
  rewrite He. cbn [bind].
  destruct (register_write c "ESP" ESP_info (e + d) Hwf eq_refl) as (b & _ & _ & E & _).
  destruct (registerValue_written _ _ "ESP" ESP_info _ Hwf eq_refl E) as (Hwf' & Hm & Hr).
  eexists. split; [exact E|]. split; [assumption|]. split; [assumption|].
  rewrite Hr. cbn [ri_byteSize ESP_info registerInfo].
  rewrite Z.mod_small; [reflexivity|]. change (256 ^ Z.of_nat 4) with (2 ^ 32). lia.
Qed.

Lemma inBounds_true (b : list Z) (a : Z) (n : nat) :
  0 <= a -> a + Z.of_nat n <= size b -> inBounds b a n = true.
Proof.
  intros H0 H1. unfold inBounds. apply andb_true_intro. split; apply Z.leb_le; assumption.
Qed.

Lemma push_spec (c : CPU) (v e : Z) :
  wellFormed c -> registerValue "ESP" c = Ok e -> 4 <= e <= size (memory c) ->
  exists c', push v c = Ok c' /\ wellFormed c' /\
    registerValue "ESP" c' = Ok (e - 4) /\
    memory c' = writeBytes (memory c) (Z.to_nat (e - 4)) 4 v /\
    getValue (load (e - 4) 4) c' = Ok (v mod 2 ^ 32).
Proof.
  intros Hwf He Hb.
  pose proof (registerValue_range c "ESP" ESP_info e Hwf eq_refl He) as Hr.
  change (256 ^ Z.of_nat (ri_byteSize ESP_info)) with (2 ^ 32) in Hr.
  destruct (add_ESP c e (-4) Hwf He ltac:(lia)) as (c1 & Hadd & Hwf1 & Hm1 & He1).
  unfold push. change (method (getRegisterByName "ESP")) with (Ok (viewOf ESP_info)). cbn [bind].
  rewrite Hadd. cbn [bind]. unfold deref.
  change (getValue (viewOf ESP_info) c1) with (registerValue "ESP" c1).
  rewrite He1. cbn [bind]. replace (e + -4) with (e - 4) in * by lia.
  change (mv_byteSize (viewOf ESP_info)) with 4%nat.
  unfold setValue, load. cbn [mv_block mv_index mv_byteSize blockOf bind]. unfold blockSet.
  rewrite inBounds_true by (rewrite ?Hm1; lia). cbn [bind putBlock].
  eexists. split; [reflexivity|]. split; [|split; [|split]].
  - destruct Hwf1 as [Hn Hs Hy Hm]. split; cbn [registers memory setMemory]; auto.
    apply writeBytes_bytes. assumption.
  - exact He1.
  - cbn [memory setMemory]. rewrite Hm1. reflexivity.
  - unfold getValue. cbn [mv_block mv_index mv_byteSize blockOf bind memory setMemory].
    unfold blockGet. rewrite inBounds_true.
    + rewrite readBytes_writeBytes; [reflexivity|].
      unfold size in Hb. rewrite Hm1. lia.
    + lia.
    + unfold size. rewrite length_writeBytes. fold (size (memory c1)). rewrite Hm1. lia.
Qed.

Lemma pop_spec (c : CPU) (e : Z) :
  wellFormed c -> registerValue "ESP" c = Ok e ->
  e + 4 <= size (memory c) -> e + 4 < 2 ^ 32 ->
  exists c', pop c = Ok (readBytes (memory c) (Z.to_nat e) 4, c') /\ wellFormed c' /\
    getValue (load e 4) c = Ok (readBytes (memory c) (Z.to_nat e) 4) /\
    registerValue "ESP" c' = Ok (e + 4) /\ memory c' = memory c.
Proof.
  intros Hwf He Hb Hlt.
  pose proof (registerValue_range c "ESP" ESP_info e Hwf eq_refl He) as Hr.
  destruct (add_ESP c e 4 Hwf He ltac:(lia)) as (c1 & Hadd & Hwf1 & Hm1 & He1).
  assert (Hget : getValue (load e 4) c = Ok (readBytes (memory c) (Z.to_nat e) 4)).
  { unfold getValue, load. cbn [mv_block mv_index mv_byteSize blockOf bind]. unfold blockGet.
    rewrite inBounds_true by lia. reflexivity. }
  unfold pop. change (method (getRegisterByName "ESP")) with (Ok (viewOf ESP_info)). cbn [bind].
  unfold deref. change (getValue (viewOf ESP_info) c) with (registerValue "ESP" c).
  rewrite He. cbn [bind]. change (mv_byteSize (viewOf ESP_info)) with 4%nat.
  rewrite Hget. cbn [bind]. rewrite Hadd. cbn [bind].
  exists c1. auto.
Qed.
(** * Dictionaries and [_.has] *)

Lemma lookupKey_dictionary {A B : Type} (reflect : A -> B) (key : string)
    (object : list (string * A)) :
  lookupKey key (map (fun '(k, v) => (k, reflect v)) object)
  = reflect <$> lookupKey key object.
Proof.
  induction object as [|[k v] object IH]; cbn [map lookupKey]; [reflexivity|].
  destruct (String.eqb k key); [reflexivity|exact IH].
Qed.

Lemma hasOwnProperty_dictionary {A : Type} (reflect : A -> Value) (key : string)
    (object : list (string * A)) :
  hasOwnProperty (dictionary reflect object) key = matches (lookupKey key object).
Proof.
  unfold dictionary, hasOwnProperty. rewrite lookupKey_dictionary.
  destruct (lookupKey key object); reflexivity.
Qed.

Lemma getProperty_dictionary {A : Type} (reflect : A -> Value) (key : string)
    (object : list (string * A)) (v : A) :
  lookupKey key object = Some v -> getProperty (dictionary reflect object) key = reflect v.
Proof.
  intros H. unfold dictionary, getProperty. rewrite lookupKey_dictionary, H. reflexivity.
Qed.

(** When the string is taken as a key, [_.has] is the test for an own
    property. *)
Lemma has_isKey {A : Type} (reflect : A -> Value) (key : string)
    (object : list (string * A)) :
  isKey key (dictionary reflect object) = true ->
  has (dictionary reflect object) key = matches (lookupKey key object).
Proof.
  intros H. unfold has, castPath. rewrite H. cbn [dictionary hasPath hasEach].
  fold (dictionary reflect object). rewrite hasOwnProperty_dictionary.
  apply andb_true_r.
Qed.

(** An own property is always found, whatever its name looks like. *)
Lemma has_own {A : Type} (reflect : A -> Value) (key : string)
    (object : list (string * A)) (v : A) :
  lookupKey key object = Some v -> has (dictionary reflect object) key = true.
Proof.
  intros H. rewrite has_isKey; [rewrite H; reflexivity|].
  unfold isKey. rewrite hasOwnProperty_dictionary, H. apply orb_true_r.
Qed.

Lemma has_not_own {A : Type} (reflect : A -> Value) (key : string)
    (object : list (string * A)) :
  has (dictionary reflect object) key = false -> lookupKey key object = None.
Proof.
  intros H. destruct (lookupKey key object) as [v|] eqn:E; [|reflexivity].
  rewrite (has_own reflect key object v E) in H. discriminate.
Qed.

Lemma noPathSyntax_deep (s : string) : noPathSyntax s = true -> reIsDeepProp s = false.
Proof.
  induction s as [|c s IH]; cbn [noPathSyntax reIsDeepProp]; [reflexivity|].
  intros H. apply andb_true_iff in H as [H Hs]. apply andb_true_iff in H as [Hd Hb].
  apply negb_true_iff in Hd, Hb. rewrite Hd, Hb, (IH Hs). reflexivity.
Qed.

(** For a name without path syntax, [_.has] is the test for an own
    property. *)
Lemma has_noPathSyntax {A : Type} (reflect : A -> Value) (key : string)
    (object : list (string * A)) :
  noPathSyntax key = true ->
  has (dictionary reflect object) key = matches (lookupKey key object).
Proof.
  intros H. apply has_isKey. unfold isKey. rewrite (noPathSyntax_deep key H).
  cbn [negb]. rewrite orb_true_r. reflexivity.
Qed.

(** A word is always taken as a key. *)
Lemma has_word {A : Type} (reflect : A -> Value) (key : string)
    (object : list (string * A)) :
  reIsPlainProp key = true ->
  has (dictionary reflect object) key = matches (lookupKey key object).
Proof. intros H. apply has_isKey. unfold isKey. rewrite H. reflexivity. Qed.

(** ** Assignment to a dictionary *)

Lemma lookupKey_app_l {A : Type} (key : string) (l1 l2 : list (string * A)) (v : A) :
  lookupKey key l1 = Some v -> lookupKey key (l1 ++ l2) = Some v.
Proof.
  induction l1 as [|[k x] l1 IH]; cbn [app lookupKey]; [discriminate|].
  destruct (String.eqb k key); auto.
Qed.

Lemma lookupKey_app_r {A : Type} (key : string) (l1 l2 : list (string * A)) :
  lookupKey key l1 = None -> lookupKey key (l1 ++ l2) = lookupKey key l2.
Proof.
  induction l1 as [|[k x] l1 IH]; cbn [app lookupKey]; [reflexivity|].
  destruct (String.eqb k key); [discriminate|auto].
Qed.

Lemma lookupKey_keys {A : Type} (key : string) (object : list (string * A)) :
  lookupKey key object = None <-> key ∉ map fst object.
Proof.
  induction object as [|[k v] object IH]; cbn [lookupKey map fst].
  - split; [|reflexivity]. intros _ H. apply elem_of_nil in H. contradiction.
  - rewrite not_elem_of_cons. destruct (String.eqb k key) eqn:E.
    + apply String.eqb_eq in E. split; [discriminate|]. intros [H _]. congruence.
    + apply String.eqb_neq in E. rewrite IH. split; [auto|]. intros [_ H]. exact H.
Qed.

(** Assigning to a key that is no property yet: [__proto__] leaves the
    properties as they are, any other key becomes the last property. *)
Lemma assign_new {A : Type} (key : string) (value : A) (object : list (string * A)) :
  lookupKey key object = None ->
  assign key value object
  = if String.eqb key "__proto__" then object else object ++ [(key, value)].
Proof. intros H. unfold assign. rewrite H. reflexivity. Qed.

(** ** Growing a dictionary *)

Lemma hasEach_app {A : Type} (reflect : A -> Value) (object extra : list (string * A))
    (key : string) (path : list string) :
  hasEach (dictionary reflect object) (key :: path) = true ->
  hasEach (dictionary reflect (object ++ extra)) (key :: path) = true.
Proof.
  cbn [hasEach]. rewrite !hasOwnProperty_dictionary.
  destruct (lookupKey key object) as [v|] eqn:E; [|discriminate].
  rewrite (lookupKey_app_l key object extra v E). cbn [matches andb].
  rewrite (getProperty_dictionary reflect key object v E).
  rewrite (getProperty_dictionary reflect key (object ++ extra) v (lookupKey_app_l _ _ _ _ E)).
  auto.
Qed.

(** What [_.has] finds in a dictionary, it still finds after properties
    have been added. *)
Lemma has_app {A : Type} (reflect : A -> Value) (object extra : list (string * A))
    (key : string) :
  has (dictionary reflect object) key = true ->
  has (dictionary reflect (object ++ extra)) key = true.
Proof.
  intros H. destruct (lookupKey key (object ++ extra)) as [v|] eqn:E;
    [exact (has_own reflect key _ v E)|].
  assert (E0 : lookupKey key object = None).
  { destruct (lookupKey key object) as [v|] eqn:E0; [|reflexivity].
    rewrite (lookupKey_app_l key object extra v E0) in E. discriminate. }
  destruct (reIsPlainProp key || negb (reIsDeepProp key)) eqn:Ek.
  - rewrite has_isKey in H by (unfold isKey; rewrite Ek; reflexivity).
    rewrite E0 in H. discriminate.
  - revert H. unfold has, castPath, isKey. rewrite Ek, !hasOwnProperty_dictionary, E0, E.
    cbn [matches orb dictionary].
    destruct (stringToPath key) as [|k path]; cbn [hasPath]; [discriminate|].
    apply (hasEach_app reflect object extra k path).
Qed.

(** ** Paths of two names *)

Lemma append_cons (c : ascii) (s t : string) : String c s +:+ t = String c (s +:+ t).
Proof. reflexivity. Qed.

Lemma append_empty (t : string) : EmptyString +:+ t = t.
Proof. reflexivity. Qed.

Lemma append_empty_r (s : string) : s +:+ EmptyString = s.
Proof. induction s as [|c s IH]; rewrite ?append_cons, ?append_empty; congruence. Qed.

Lemma nameRun_name (s : string) : isName s = true -> nameRun s = s.
Proof.
  induction s as [|c s IH]; cbn [isName nameRun]; [reflexivity|].
  intros H. apply andb_true_iff in H as [Hc Hs]. rewrite Hc, (IH Hs). reflexivity.
Qed.

Lemma nameRun_dotted (s rest : string) :
  isName s = true -> nameRun (s +:+ String dot rest) = s.
Proof.
  induction s as [|c s IH]; rewrite ?append_cons, ?append_empty; cbn [isName nameRun];
    [reflexivity|].
  intros H. apply andb_true_iff in H as [Hc Hs]. rewrite Hc, (IH Hs). reflexivity.
Qed.

Lemma propNames_skip (s1 s2 : string) :
  propNames (s1 +:+ s2) (String.length s1) = propNames s2 0.
Proof.
  induction s1 as [|c s1 IH]; rewrite ?append_cons, ?append_empty;
    cbn [String.length propNames]; auto.
Qed.

Lemma propNames_name (s : string) :
  isName s = true -> s <> EmptyString -> propNames s 0 = [s].
Proof.
  destruct s as [|c s]; [congruence|]. intros H _.
  pose proof H as Hc. cbn [isName] in Hc. apply andb_true_iff in Hc as [Hc _].
  cbn [propNames propNameAt]. rewrite Hc, (nameRun_name _ H).
  cbn [String.length Nat.sub]. rewrite Nat.sub_0_r.
  pose proof (propNames_skip s EmptyString) as Hk. rewrite append_empty_r in Hk.
  rewrite Hk. reflexivity.
Qed.

Lemma propNames_dot (field : string) :
  isName field = true -> field <> EmptyString -> propNames (String dot field) 0 = [field].
Proof.
  intros H Hne. cbn [propNames]. change (propNameAt (String dot field)) with (@None (string * nat)).
  destruct field as [|c f]; [congruence|].
  pose proof H as Hc. cbn [isName] in Hc. apply andb_true_iff in Hc as [Hc _].
  assert (emptyNameAt (String dot (String c f)) = false) as ->.
  { unfold emptyNameAt. cbn [separator]. change (Ascii.eqb dot dot) with true. cbv iota.
    unfold isNameChar in Hc. apply negb_true_iff in Hc.
    apply orb_false_iff in Hc as [Hc _]. apply orb_false_iff in Hc as [Hd Hb].
    cbn [separator]. rewrite Hd, Hb. reflexivity. }
  apply propNames_name; [assumption|discriminate].
Qed.

(** The property names of [object.field]. *)
Lemma stringToPath_dotted (object field : string) :
  isName object = true -> isName field = true -> field <> EmptyString ->
  stringToPath (dotted object field) = [object; field].
Proof.
  intros Ho Hf Hne. unfold stringToPath, dotted. destruct object as [|c o].
  - rewrite append_empty. change (Ascii.eqb dot dot) with true. cbv iota.
    rewrite (propNames_dot field Hf Hne). reflexivity.
  - pose proof Ho as Hc. cbn [isName] in Hc. apply andb_true_iff in Hc as [Hc _].
    rewrite append_cons.
    assert (Ascii.eqb c dot = false) as ->.
    { unfold isNameChar in Hc. apply negb_true_iff in Hc.
      apply orb_false_iff in Hc as [Hc _]. apply orb_false_iff in Hc as [Hd _]. exact Hd. }
    cbn [app propNames propNameAt]. rewrite Hc.
    rewrite <- append_cons.
    rewrite (nameRun_dotted (String c o) field Ho).
    cbn [String.length Nat.sub]. rewrite Nat.sub_0_r, propNames_skip.
    rewrite (propNames_dot field Hf Hne). reflexivity.
Qed.

Lemma dotted_deep (object field : string) :
  reIsDeepProp (dotted object field) = true /\ reIsPlainProp (dotted object field) = false.
Proof.
  unfold dotted. induction object as [|c o [IH1 IH2]];
    rewrite ?append_cons, ?append_empty; cbn [reIsDeepProp reIsPlainProp].
  - split; reflexivity.
  - rewrite IH1, IH2. split; [apply orb_true_r|apply andb_false_r].
Qed.

(** [_.has] takes [object.field] for a path when it is no property of the
    dictionary itself: it finds it when [object] is a property of the
    dictionary whose value has the property [field]. *)
Lemma has_dotted {A : Type} (reflect : A -> Value) (table : list (string * A))
    (object field : string) (v : A) :
  isName object = true -> isName field = true -> field <> EmptyString ->
  lookupKey object table = Some v ->
  has (dictionary reflect table) (dotted object field)
  = matches (lookupKey (dotted object field) table) || hasOwnProperty (reflect v) field.
Proof.
  intros Ho Hf Hne Hv.
  destruct (lookupKey (dotted object field) table) as [w|] eqn:E.
  - rewrite (has_own reflect _ table w E). reflexivity.
  - destruct (dotted_deep object field) as [Hd Hp].
    unfold has, castPath, isKey. rewrite Hd, Hp, hasOwnProperty_dictionary, E.
    cbn [negb orb matches dictionary]. rewrite (stringToPath_dotted object field Ho Hf Hne).
    cbn [hasPath hasEach]. fold (dictionary reflect table).
    rewrite hasOwnProperty_dictionary, Hv, (getProperty_dictionary reflect object table v Hv).
    cbn [matches andb]. apply andb_true_r.
Qed.

(** The bytes a write puts in its range are the base-256 digits of the value. *)
Lemma writeBytes_inside (n : nat) : forall (b : MemoryBlock) (i j : nat) (v : Z),
  (i <= j < i + n)%nat -> (i + n <= length b)%nat ->
  writeBytes b i n v !! j = Some ((v / 256 ^ Z.of_nat (j - i)) mod 256).
Proof.
  induction n as [|n IH]; intros b i j v Hj Hlen; [lia|].
  cbn [writeBytes]. destruct (decide (j = i)) as [->|Hne].
  - rewrite writeBytes_outside by lia. rewrite list_lookup_insert_eq by lia.
    rewrite Nat.sub_diag. change (256 ^ Z.of_nat 0) with 1. rewrite Z.div_1_r. reflexivity.
  - rewrite IH by (rewrite ?length_insert; lia).
    replace (j - i)%nat with (S (j - S i)) by lia.
    rewrite Nat2Z.inj_succ, Z.pow_succ_r by lia.
    rewrite Z.div_div by lia. reflexivity.
Qed.

(** A range that holds the base-256 digits of a value reads as that value. *)
Lemma readBytes_digits (m : nat) : forall (b : MemoryBlock) (s : nat) (w : Z),
  (forall t, (t < m)%nat -> b !! (s + t)%nat = Some ((w / 256 ^ Z.of_nat t) mod 256)) ->
  readBytes b s m = w mod 256 ^ Z.of_nat m.
Proof.
  induction m as [|m IH]; intros b s w H.
  - simpl. rewrite Z.mod_1_r. reflexivity.
  - cbn [readBytes]. pose proof (H 0%nat ltac:(lia)) as H0.
    rewrite Nat.add_0_r in H0. rewrite H0. cbn [default].
    change (256 ^ Z.of_nat 0) with 1. rewrite Z.div_1_r.
    rewrite (IH b (S s) (w / 256)).
    + rewrite Nat2Z.inj_succ, Z.pow_succ_r by lia.
      rewrite Z.rem_mul_r by lia. reflexivity.
    + intros t Ht. replace (S s + t)%nat with (s + S t)%nat by lia.
      rewrite H by lia. rewrite Nat2Z.inj_succ, Z.pow_succ_r by lia.
      rewrite Z.div_div by lia. reflexivity.
Qed.

(** Reading a part of a range that was written gives the corresponding
    digits of the value written. *)
Lemma readBytes_part (b : MemoryBlock) (i n k m : nat) (v : Z) :
  (k + m <= n)%nat -> (i + n <= length b)%nat ->
  readBytes (writeBytes b i n v) (i + k) m
  = (v / 256 ^ Z.of_nat k) mod 256 ^ Z.of_nat m.
Proof.
  intros Hk Hlen. apply readBytes_digits. intros t Ht.
  rewrite writeBytes_inside by lia.
  replace (i + k + t - i)%nat with (k + t)%nat by lia.
  rewrite Nat2Z.inj_add, Z.pow_add_r by lia.
  rewrite Z.div_div by lia. reflexivity.
Qed.

(** ** Overlapping register views *)

(** C9.  On a CPU with its ten 4-byte banks, writing a value through the
    view of any register of [REGISTER_INDEX] succeeds and changes only the
    byte range of that view: the main memory, the other banks and the other
    bytes of the shared bank stay as they were.  After the write every
    register view reads the integer held (least significant byte first) by
    its own byte range; the written view reads the value modulo its width, a
    view lying inside the written range reads the corresponding bytes of the
    value (so the 1-byte views of a 2-byte register read its low and high
    byte), and a view disjoint from the written range reads what it read
    before. *)
Theorem register_views_share_bank (c : CPU) (name : string) (info : RegisterInfo) (v : Z) :
  wellFormed c -> lookupKey name REGISTER_INDEX = Some info ->
  exists b c',
    getRegisterByName name = Some (viewOf info) /\
    registers c !! ri_bank info = Some b /\
    setValue (viewOf info) v c = Ok c' /\
    wellFormed c' /\
    memory c' = memory c /\
    (forall k, k <> ri_bank info -> registers c' !! k = registers c !! k) /\
    (exists b', registers c' !! ri_bank info = Some b' /\ length b' = length b /\
       forall j, ~ inRange (viewOf info) j -> b' !! j = b !! j) /\
    registerValue name c' = Ok (v mod 256 ^ Z.of_nat (ri_byteSize info)) /\
    (forall name' info', lookupKey name' REGISTER_INDEX = Some info' ->
       exists b', registers c' !! ri_bank info' = Some b' /\
         registerValue name' c'
         = Ok (readBytes b' (Z.to_nat (ri_index info')) (ri_byteSize info'))) /\
    (forall name' info', lookupKey name' REGISTER_INDEX = Some info' ->
       ri_bank info' = ri_bank info -> ri_index info <= ri_index info' ->
       ri_index info' + Z.of_nat (ri_byteSize info')
       <= ri_index info + Z.of_nat (ri_byteSize info) ->
       registerValue name' c'
       = Ok ((v / 256 ^ (ri_index info' - ri_index info))
               mod 256 ^ Z.of_nat (ri_byteSize info'))) /\
    (forall name' info', lookupKey name' REGISTER_INDEX = Some info' ->
       ri_bank info' <> ri_bank info \/
       ri_index info' + Z.of_nat (ri_byteSize info') <= ri_index info \/
       ri_index info + Z.of_nat (ri_byteSize info) <= ri_index info' ->
       registerValue name' c' = registerValue name' c).
Proof.
  intros Hwf Hname.
  destruct (register_table _ _ Hname) as (Hk & H0 & H4 & Hview).
  destruct (register_write c name info v Hwf Hname) as (b & E & Hl & Hset & Hwf').
  destruct (registerValue_written _ _ name info v Hwf Hname Hset) as (_ & Hm & Hr).
  pose proof (lookup_lt_Some _ _ _ E) as Hlt.
  set (b1 := writeBytes b (Z.to_nat (ri_index info)) (ri_byteSize info) v) in *.
  set (c' := setRegisters (<[ri_bank info := b1]> (registers c)) c) in *.
  assert (E1 : registers c' !! ri_bank info = Some b1).
  { cbn [c' registers setRegisters]. apply list_lookup_insert_eq. assumption. }
  assert (Hread : forall name' info', lookupKey name' REGISTER_INDEX = Some info' ->
            exists b', registers c' !! ri_bank info' = Some b' /\ length b' = 4%nat /\
              registerValue name' c'
              = Ok (readBytes b' (Z.to_nat (ri_index info')) (ri_byteSize info'))).
  { intros name' info' Hname'.
    destruct (registerValue_read c' name' info' Hwf' Hname') as (b' & E' & Hl' & _ & R).
    exists b'. auto. }
  exists b, c'. repeat (split; [first [assumption | reflexivity]|]).
  split; [|split; [|split; [|split; [|split]]]].
  - intros k Hne. cbn [c' registers setRegisters]. apply list_lookup_insert_ne. auto.
  - exists b1. split; [assumption|]. split; [apply length_writeBytes|].
    intros j Hj. apply writeBytes_outside.
    unfold inRange in Hj. cbn [viewOf mv_index mv_byteSize] in Hj. lia.
  - exact Hr.
  - intros name' info' Hname'.
    destruct (Hread name' info' Hname') as (b' & E' & _ & R). exists b'. auto.
  - intros name' info' Hname' Hbank Hlo Hhi.
    destruct (register_table _ _ Hname') as (_ & H0' & _ & _).
    destruct (Hread name' info' Hname') as (b' & E' & _ & R).
    rewrite Hbank, E1 in E'. injection E' as <-. rewrite R. f_equal.
    replace (Z.to_nat (ri_index info'))
      with (Z.to_nat (ri_index info) + Z.to_nat (ri_index info' - ri_index info))%nat by lia.
    unfold b1. rewrite readBytes_part by lia.
    rewrite Z2Nat.id by lia. reflexivity.
  - intros name' info' Hname' Hdisj.
    destruct (Z.eq_dec (Z.of_nat (ri_bank info')) (Z.of_nat (ri_bank info))) as [Heq|Hne].
    + apply Nat2Z.inj in Heq.
      destruct (register_table _ _ Hname') as (_ & H0' & _ & _).
      destruct (Hread name' info' Hname') as (b' & E' & _ & R).
      destruct (registerValue_read c name' info' Hwf Hname') as (b0 & E0 & _ & _ & R0).
      rewrite Heq, E1 in E'. injection E' as <-.
      rewrite Heq, E in E0. injection E0 as <-.
      rewrite R, R0. f_equal. apply readBytes_ext. intros j Hj.
      apply writeBytes_outside. lia.
    + eapply registerValue_other; [exact Hwf|exact Hname|exact Hname'| |exact Hset].
      intros Heq. apply Hne. rewrite Heq. reflexivity.
Qed.

Lemma wellFormed_smallCPU : wellFormed smallCPU.
Proof.
  apply wellFormed_newCPU. unfold newMemoryBlock. apply Forall_replicate.
  unfold isByte. lia.
Defined.

(** Writing 0x1234 to AX and reading AL and AH. *)
Lemma register_views_share_bank_witness :
  exists c', setValue (viewOf AX_info) 4660 smallCPU = Ok c' /\
    registerValue "AL" c' = Ok 52 /\ registerValue "AH" c' = Ok 18 /\
    registerValue "EBX" c' = registerValue "EBX" smallCPU.
Proof.
  destruct (register_views_share_bank smallCPU "AX" AX_info 4660
              wellFormed_smallCPU eq_refl)
    as (b & c' & _ & _ & Hset & _ & _ & _ & _ & _ & _ & Hin & Hout).
  exists c'. split; [exact Hset|]. split; [|split].
  - rewrite (Hin "AL" AL_info eq_refl eq_refl); [reflexivity| |]; vm_compute; discriminate.
  - rewrite (Hin "AH" AH_info eq_refl eq_refl); [reflexivity| |]; vm_compute; discriminate.
  - apply (Hout "EBX" (registerInfo 24 5 4 0) eq_refl). left. discriminate.
Defined.

(** ** reset and construction *)



(** ** The stack *)

(** C5, amended.  For every CPU state, with [e] the value of the stack
    pointer ESP:
    - when 4 <= e <= memory size and 0 <= v < 2^32, [push v] succeeds, leaves
      ESP equal to e - 4, stores [v] in the four bytes at the new stack
      pointer and changes no other byte of the memory; [pop] on the resulting
      state returns the value at the stack pointer, which is [v], and leaves
      ESP equal to [e] and the memory as it was;
    - when e + 4 <= memory size (and e + 4 < 2^32), [pop] succeeds, returns
      the value of the four bytes at address [e] and leaves ESP equal to
      e + 4 and the memory as it was. *)
Theorem push_then_pop (c : CPU) (v e : Z) :
  wellFormed c -> registerValue "ESP" c = Ok e ->
  (4 <= e <= size (memory c) -> 0 <= v < 2 ^ 32 ->
   exists c1 c2,
     push v c = Ok c1 /\
     registerValue "ESP" c1 = Ok (e - 4) /\
     getValue (load (e - 4) 4) c1 = Ok v /\
     (forall j : nat, ~ (e - 4 <= Z.of_nat j < e) -> memory c1 !! j = memory c !! j) /\
     pop c1 = Ok (v, c2) /\
     registerValue "ESP" c2 = Ok e /\
     memory c2 = memory c1) /\
  (e + 4 <= size (memory c) -> e + 4 < 2 ^ 32 ->
   exists x c',
     pop c = Ok (x, c') /\
     getValue (load e 4) c = Ok x /\
     registerValue "ESP" c' = Ok (e + 4) /\
     memory c' = memory c).
Proof.
  intros Hwf He.
  pose proof (registerValue_range c "ESP" ESP_info e Hwf eq_refl He) as Hr.
  change (256 ^ Z.of_nat (ri_byteSize ESP_info)) with (2 ^ 32) in Hr.
  split.
  - intros Hb Hv.
    destruct (push_spec c v e Hwf He Hb) as (c1 & Hpush & Hwf1 & He1 & Hm1 & Hg1).
    rewrite Z.mod_small in Hg1 by assumption.
    assert (Hsize : size (memory c1) = size (memory c)).
    { unfold size. rewrite Hm1, length_writeBytes. reflexivity. }
    destruct (pop_spec c1 (e - 4) Hwf1 He1 ltac:(lia) ltac:(lia))
      as (c2 & Hpop & _ & Hg & He2 & Hm2).
    rewrite Hg1 in Hg.
    assert (Hv' : readBytes (memory c1) (Z.to_nat (e - 4)) 4 = v) by congruence.
    rewrite Hv' in Hpop. clear Hg Hv'.
    exists c1, c2. repeat (split; [assumption|]).
    split; [|split; [assumption|split; [|assumption]]].
    + intros j Hj. rewrite Hm1. apply writeBytes_outside. lia.
    + rewrite He2. f_equal. lia.
  - intros Hb Hlt.
    destruct (pop_spec c e Hwf He Hb Hlt) as (c' & Hpop & _ & Hg & He' & Hm).
    exists (readBytes (memory c) (Z.to_nat e) 4), c'. auto.
Qed.

Lemma push_then_pop_witness :
  exists c c1 c2, construct emptyProgram (newMemoryBlock 16) = Ok c /\
    push 10 c = Ok c1 /\ registerValue "ESP" c1 = Ok 11 /\
    pop c1 = Ok (10, c2) /\ registerValue "ESP" c2 = Ok 15.
Proof.
  assert (Hb : 0 < size (memory smallCPU) <= 2 ^ 32).
  { vm_compute. split; [reflexivity|discriminate]. }
  destruct (reset_ok smallCPU wellFormed_smallCPU Hb) as (c & Hc & Hwf & Hm & _ & Hesp & _).
  assert (Hsz : size (memory c) = 16) by (rewrite Hm; reflexivity).
  change (size (memory smallCPU) - 1) with 15 in Hesp.
  assert (Hs : 4 <= 15 <= size (memory c)) by (rewrite Hsz; lia).
  assert (Hv : 0 <= 10 < 2 ^ 32) by lia.
  destruct (push_then_pop c 10 15 Hwf Hesp) as [Hround _].
  destruct (Hround Hs Hv) as (c1 & c2 & H1 & H2 & _ & _ & H3 & H4 & _).
  exists c, c1, c2. auto.
Defined.

(** C5 as stated fails: a value that does not fit the 4-byte stack slot is
    not returned by [pop], and [pop] on a CPU that was just reset reads
    beyond the end of the memory. *)
Lemma push_pop_counterexample :
  (let! c := construct emptyProgram (newMemoryBlock 16) in
   let! c := push (2 ^ 32 + 10) c in
   let! '(v, _) := pop c in
   Ok v) = Ok 10
  /\ 10 <> 2 ^ 32 + 10
  /\ (let! c := construct emptyProgram (newMemoryBlock 16) in
      let! '(v, _) := pop c in
      Ok v)
     = Throw (RangeError "Offset is outside the bounds of the DataView").
Proof.
  split; [vm_compute; reflexivity|]. split; [discriminate|vm_compute; reflexivity].
Qed.

(** ** step *)

Lemma isFinished_same (c c' : CPU) :
  registers c' = registers c -> program c' = program c ->
  isFinished c' = isFinished c.
Proof.
  intros Hr Hp. unfold isFinished, eip, getValue, blockOf. rewrite Hr, Hp. reflexivity.
Qed.

Lemma events_pause (c : CPU) : events (pause c) = events c ++ cancellation c.
Proof.
  unfold pause, clearScheduledRun, cancellation. cbn [scheduleTimeout setRunning].
  destruct (scheduleTimeout c); cbn; [reflexivity|]. rewrite app_nil_r. reflexivity.
Qed.

Lemma pause_frame (c : CPU) :
  registers (pause c) = registers c /\ memory (pause c) = memory c /\
  status (pause c) = status c /\ breakpoints (pause c) = breakpoints c /\
  stoppedOnBreakpoint (pause c) = stoppedOnBreakpoint c /\
  program (pause c) = program c /\ scheduleTimeout (pause c) = scheduleTimeout c /\
  running (pause c) = false.
Proof.
  unfold pause, clearScheduledRun. cbn [scheduleTimeout setRunning].
  destruct (scheduleTimeout c) eqn:E; cbn; rewrite ?E; auto 10.
Qed.

(** C10.  While the program is finished, a call of [step] succeeds and
    modifies no register bank, no memory byte, no flag and no breakpoint (nor
    the program, the stopped-on-breakpoint mark or the timer handle): it sets
    the running flag to false, clears the scheduled timer if there is one,
    and notifies the exit observers.  The program is still finished
    afterwards, so [n] such calls notify the exit observers [n] times. *)
Theorem step_when_finished (execute : EncodedInstruction -> CPU -> Result (Z * CPU))
    (c : CPU) (n : nat) :
  isFinished c = Ok true ->
  exists c',
    steps execute (S n) c = Ok c' /\
    registers c' = registers c /\ memory c' = memory c /\ status c' = status c /\
    breakpoints c' = breakpoints c /\ stoppedOnBreakpoint c' = stoppedOnBreakpoint c /\
    program c' = program c /\ scheduleTimeout c' = scheduleTimeout c /\
    running c' = false /\
    events c' = events c ++ concat (replicate (S n) (cancellation c ++ [ExitNotified])) /\
    isFinished c' = Ok true.
Proof.
  revert c. induction n as [|n IH]; intros c Hfin.
  - cbn [steps]. unfold step. rewrite Hfin. cbn [bind].
    destruct (pause_frame c) as (H1 & H2 & H3 & H4 & H5 & H6 & H7 & H8).
    eexists. split; [reflexivity|]. cbn [registers memory status breakpoints
      stoppedOnBreakpoint program scheduleTimeout running events emit].
    repeat (split; [assumption|]). split.
    + rewrite events_pause. cbn. rewrite app_nil_r, app_assoc. reflexivity.
    + rewrite <- Hfin. apply isFinished_same; assumption.
  - change (steps execute (S (S n)) c)
      with (let! c1 := step execute c in steps execute (S n) c1).
    unfold step at 1. rewrite Hfin. cbn [bind].
    destruct (pause_frame c) as (H1 & H2 & H3 & H4 & H5 & H6 & H7 & H8).
    set (c1 := emit ExitNotified (pause c)).
    assert (Hfin1 : isFinished c1 = Ok true).
    { rewrite <- Hfin. apply isFinished_same; assumption. }
    destruct (IH c1 Hfin1) as (c' & Hs & G1 & G2 & G3 & G4 & G5 & G6 & G7 & G8 & G9 & G10).
    exists c'. split; [exact Hs|].
    assert (Hc : cancellation c1 = cancellation c).
    { unfold cancellation. cbn [c1 scheduleTimeout emit]. rewrite H7. reflexivity. }
    repeat (split; [first [assumption | etransitivity; [eassumption|assumption]]|]).
    split; [|assumption].
    rewrite G9, Hc. cbn [c1 events emit]. rewrite events_pause.
    change (replicate (S (S n)) ?x) with (x :: replicate (S n) x).
    cbn [concat].
    rewrite !app_assoc. reflexivity.
Qed.

Lemma step_when_finished_witness :
  exists c', steps fallThrough 2 finishedCPU = Ok c' /\
    registers c' = registers finishedCPU /\ memory c' = memory finishedCPU /\
    running c' = false /\
    events c' = [TimeoutSet 7; TimeoutCleared 7; ExitNotified;
                 TimeoutCleared 7; ExitNotified].
Proof.
  destruct (step_when_finished fallThrough finishedCPU 1 eq_refl)
    as (c' & Hs & H1 & H2 & _ & _ & _ & _ & _ & H3 & H4 & _).
  exists c'. repeat (split; [assumption|]). exact H4.
Defined.

Lemma filterTruthy_nonzero (l : list (option Z)) : existsb (Z.eqb 0) (filterTruthy l) = false.
Proof.
  induction l as [|[n|] l IH]; cbn [filterTruthy truthy]; try assumption; [reflexivity|].
  destruct (n =? 0) eqn:E; cbn [negb]; [assumption|].
  cbn [existsb]. rewrite IH. rewrite Z.eqb_sym, E. reflexivity.
Qed.

(** C2, what the code does.  The setter of [breakpoints] drops address 0
    from the set it stores, whatever the lines it is given: for a CPU at the
    first instruction of its program (EIP is 0, the program is not
    finished), the first call of [step] after configuring any breakpoint
    lines finds no breakpoint and executes the instruction instead of
    pausing; a breakpoint line that maps to address 0 leaves the stored set
    empty. *)
Theorem breakpoint_on_first_instruction_dropped
    (execute : EncodedInstruction -> CPU -> Result (Z * CPU)) (c : CPU) (rows : list Z) :
  eip c = Ok 0 -> isFinished c = Ok false ->
  hasBreakpoint (set_breakpoints rows c) = Ok false /\
  step execute (set_breakpoints rows c)
  = executeOneInstruction execute (set_breakpoints rows c) /\
  (forall row, getAddressByLine (prog_lineMap (program c)) row = Some 0 ->
     breakpoints (set_breakpoints [row] c) = Some []).
Proof.
  intros Heip Hfin.
  assert (Hhas : hasBreakpoint (set_breakpoints rows c) = Ok false).
  { unfold hasBreakpoint.
    change (eip (set_breakpoints rows c)) with (eip c). rewrite Heip. cbn [bind].
    cbn [set_breakpoints breakpoints setBreakpoints].
    rewrite filterTruthy_nonzero. reflexivity. }
  split; [exact Hhas|]. split.
  - unfold step.
    change (isFinished (set_breakpoints rows c)) with (isFinished c).
    rewrite Hfin. cbn [bind]. rewrite Hhas. reflexivity.
  - intros row Hrow. cbn [set_breakpoints breakpoints setBreakpoints map].
    rewrite Hrow. reflexivity.
Qed.

(** The one-line program with a breakpoint on its line: the first call of
    [step] executes the instruction and moves EIP to 1. *)
Lemma breakpoint_on_first_instruction_dropped_witness :
  getAddressByLine (prog_lineMap oneInstruction) 0 = Some 0 /\
  breakpoints (set_breakpoints [0] oneInstructionCPU) = Some [] /\
  exists c', step fallThrough (set_breakpoints [0] oneInstructionCPU) = Ok c' /\
    eip c' = Ok 1 /\ stoppedOnBreakpoint c' = false.
Proof.
  destruct (breakpoint_on_first_instruction_dropped fallThrough oneInstructionCPU [0]
              eq_refl eq_refl) as (_ & Hstep & Hset).
  split; [reflexivity|]. split; [apply Hset; reflexivity|].
  rewrite Hstep. vm_compute. eexists. split; [reflexivity|]. split; reflexivity.
Defined.
(** ** Memory operands *)

(** The name a register operand carries is looked up twice: by [_.has] in
    [parseRegisterName] and as a key in [REGISTER_INDEX[name].id]. *)
Lemma register_operand_key (name : string) (info : RegisterInfo) :
  lookupKey name REGISTER_INDEX = Some info ->
  (let! registerName := parseRegisterName (Some name) in registerId registerName)
  = Ok (ri_id info).
Proof.
  intros H. unfold parseRegisterName.
  rewrite (has_own registerInfoValue name REGISTER_INDEX info H). cbn [bind].
  unfold registerId. rewrite H. reflexivity.
Qed.

Lemma register_operand_unknown (name : string) :
  lookupKey name REGISTER_INDEX = None ->
  (let! registerName := parseRegisterName (Some name) in registerId registerName)
  = Throw (if has registerTable name
           then TypeError "Cannot read property 'id' of undefined"
           else assemblyException ("Unknown register " +:+ name)).
Proof.
  intros H. unfold parseRegisterName, registerTable.
  destruct (has (dictionary registerInfoValue REGISTER_INDEX) name); cbn [bind];
    [|reflexivity].
  unfold registerId. rewrite H. reflexivity.
Qed.

Lemma register_operand_ok (name : option string) (id : Z) :
  (let! registerName := parseRegisterName name in registerId registerName) = Ok id ->
  exists registerName info, name = Some registerName /\
    lookupKey registerName REGISTER_INDEX = Some info /\ id = ri_id info.
Proof.
  unfold parseRegisterName. destruct name as [n|]; [|discriminate].
  destruct (has (dictionary registerInfoValue REGISTER_INDEX) n); cbn [bind]; [|discriminate].
  unfold registerId. destruct (lookupKey n REGISTER_INDEX) as [info|] eqn:E; [|discriminate].
  intros [= <-]. eauto.
Qed.

(** ** The register NULL *)

(** A write through a view that is not on bank 0 leaves bank 0 as it is. *)
Lemma setValue_bank0 (view : MemoryView) (v : Z) (c c' : CPU) :
  setValue view v c = Ok c' -> mv_block view <> RegisterBank 0 ->
  registers c' !! 0%nat = registers c !! 0%nat.
Proof.
  unfold setValue. destruct (blockOf (mv_block view) c) as [b|e]; cbn [bind]; [|discriminate].
  destruct (blockSet b (mv_index view) (mv_byteSize view) v) as [b'|e]; cbn [bind];
    [|discriminate].
  intros [= <-] Hne. destruct (mv_block view) as [k|]; cbn [putBlock registers setRegisters setMemory];
    [|reflexivity].
  apply list_lookup_insert_ne. intros ->. apply Hne. reflexivity.
Qed.

Lemma add_bank0 (view : MemoryView) (v : Z) (c c' : CPU) :
  add view v c = Ok c' -> mv_block view <> RegisterBank 0 ->
  registers c' !! 0%nat = registers c !! 0%nat.
Proof.
  unfold add. destruct (getValue view c); cbn [bind]; [|discriminate].
  apply setValue_bank0.
Qed.

Lemma registerValue_NULL (c c' : CPU) :
  registers c' !! 0%nat = registers c !! 0%nat ->
  registerValue "NULL" c' = registerValue "NULL" c.
Proof.
  intros H. unfold registerValue.
  change (method (getRegisterByName "NULL")) with (Ok (viewOf NULL_info)). cbn [bind].
  unfold getValue. cbn [viewOf NULL_info registerInfo ri_bank mv_block blockOf].
  rewrite H. reflexivity.
Qed.

Lemma reset_bank0 (c c' : CPU) :
  reset c = Ok c' -> registers c' !! 0%nat = registers c !! 0%nat.
Proof.
  unfold reset.
  change (method (getRegisterByName "EIP")) with (Ok (viewOf EIP_info)).
  change (method (getRegisterByName "ESP")) with (Ok (viewOf ESP_info)).
  change (method (getRegisterByName "EBP")) with (Ok (viewOf EBP_info)).
  cbn [bind].
  destruct (setValue (viewOf EIP_info) 0 c) as [c1|e] eqn:E1; cbn [bind]; [|discriminate].
  destruct (setValue (viewOf ESP_info) (size (memory c1) - 1) c1) as [c2|e] eqn:E2;
    cbn [bind]; [|discriminate].
  intros E3.
  rewrite (setValue_bank0 _ _ _ _ E3), (setValue_bank0 _ _ _ _ E2),
    (setValue_bank0 _ _ _ _ E1); [reflexivity|discriminate..].
Qed.

Lemma push_bank0 (v : Z) (c c' : CPU) :
  push v c = Ok c' -> registers c' !! 0%nat = registers c !! 0%nat.
Proof.
  unfold push. change (method (getRegisterByName "ESP")) with (Ok (viewOf ESP_info)).
  cbn [bind].
  destruct (add (viewOf ESP_info) (-4) c) as [c1|e] eqn:E1; cbn [bind]; [|discriminate].
  destruct (deref (viewOf ESP_info) c1) as [target|e] eqn:E2; cbn [bind]; [|discriminate].
  intros E3. unfold deref in E2.
  destruct (getValue (viewOf ESP_info) c1); cbn [bind] in E2; [|discriminate].
  injection E2 as <-.
  rewrite (setValue_bank0 _ _ _ _ E3), (add_bank0 _ _ _ _ E1); [reflexivity|discriminate..].
Qed.

Lemma pop_bank0 (v : Z) (c c' : CPU) :
  pop c = Ok (v, c') -> registers c' !! 0%nat = registers c !! 0%nat.
Proof.
  unfold pop. change (method (getRegisterByName "ESP")) with (Ok (viewOf ESP_info)).
  cbn [bind].
  destruct (deref (viewOf ESP_info) c) as [source|e]; cbn [bind]; [|discriminate].
  destruct (getValue source c); cbn [bind]; [|discriminate].
  destruct (add (viewOf ESP_info) 4 c) as [c1|e] eqn:E1; cbn [bind]; [|discriminate].
  intros [= _ <-]. apply (add_bank0 _ _ _ _ E1). discriminate.
Qed.

(** C4, amended.  Encoding a memory operand.
    - The base register is required: without a base register object the
      encoding fails, and so it does when the base register name is no key
      of the register table: with "Unknown register" when [_.has] does not
      find the name (always so for a name without path syntax), with a
      [TypeError] when [_.has] takes the name for a path into the table.
    - With a base register of the table and no index register the encoded
      index register id is 0; an absent multiplier is encoded as 0 and an
      absent displacement as 0, present ones as their values.  Memory
      operands are dispatched to this builder with the default size 4.
    - Id 0 is the id of NULL, the only register on bank 0.  It reads 0 on a
      newly constructed CPU, and [reset], [push] and [pop] leave it as it
      is; but it is a register like the others: after a write it reads the
      value written.  [calculateEffectiveAddress] without index register
      reads NULL, and its multiplier defaults to 1. *)
Theorem memory_operand_encoding (size : Z) (base : string) (index : option string)
    (multiplier constant : option Z) :
  parseMemoryParameter size (MemoryOperand None index multiplier constant)
  = Throw (TypeError "Cannot read property 'name' of null") /\
  (lookupKey base REGISTER_INDEX = None ->
   parseMemoryParameter size (MemoryOperand (Some base) index multiplier constant)
   = Throw (if has registerTable base
            then TypeError "Cannot read property 'id' of undefined"
            else assemblyException ("Unknown register " +:+ base)) /\
   (noPathSyntax base = true ->
    parseMemoryParameter size (MemoryOperand (Some base) index multiplier constant)
    = Throw (assemblyException ("Unknown register " +:+ base)))) /\
  (forall info, lookupKey base REGISTER_INDEX = Some info ->
     parseMemoryParameter size (MemoryOperand (Some base) None None None)
     = Ok (MemoryParameter size (ri_id info) 0 0 0) /\
     parseMemoryParameter size (MemoryOperand (Some base) None multiplier constant)
     = Ok (MemoryParameter size (ri_id info) 0 (default 0 multiplier) (default 0 constant)) /\
     forall indexName indexInfo, lookupKey indexName REGISTER_INDEX = Some indexInfo ->
       parseMemoryParameter size
         (MemoryOperand (Some base) (Some indexName) multiplier constant)
       = Ok (MemoryParameter size (ri_id info) (ri_id indexInfo)
               (default 0 multiplier) (default 0 constant))) /\
  loadParameter (MemoryOperand (Some base) index multiplier constant)
  = parseMemoryParameter 4 (MemoryOperand (Some base) index multiplier constant) /\
  lookupKey "NULL" REGISTER_INDEX = Some NULL_info /\
  ri_id NULL_info = 0 /\
  getRegisterByIndex 0 = Some (viewOf NULL_info) /\
  getRegisterByName "NULL" = Some (viewOf NULL_info) /\
  (forall name info, lookupKey name REGISTER_INDEX = Some info ->
     ri_bank info = ri_bank NULL_info -> info = NULL_info) /\
  (forall program memory c, construct program memory = Ok c ->
     registerValue "NULL" c = Ok 0) /\
  (forall c c', reset c = Ok c' -> registerValue "NULL" c' = registerValue "NULL" c) /\
  (forall c v c', push v c = Ok c' -> registerValue "NULL" c' = registerValue "NULL" c) /\
  (forall c v c', pop c = Ok (v, c') -> registerValue "NULL" c' = registerValue "NULL" c) /\
  (forall c v, wellFormed c ->
     exists c', setValue (viewOf NULL_info) v c = Ok c' /\
       registerValue "NULL" c' = Ok (v mod 2 ^ 32)) /\
  (forall c baseReg b n, getValue baseReg c = Ok b -> registerValue "NULL" c = Ok n ->
     calculateEffectiveAddress baseReg None multiplier constant c
     = Ok (b + n * default 1 multiplier + default 0 constant)).
Proof.
  split; [reflexivity|]. split.
  { intros Hno.
    assert (H : parseMemoryParameter size (MemoryOperand (Some base) index multiplier constant)
                = Throw (if has registerTable base
                         then TypeError "Cannot read property 'id' of undefined"
                         else assemblyException ("Unknown register " +:+ base))).
    { unfold parseMemoryParameter, parseRegisterName, registerTable.
      destruct (has (dictionary registerInfoValue REGISTER_INDEX) base); cbn [bind];
        [|reflexivity].
      unfold registerId. rewrite Hno. reflexivity. }
    split; [exact H|]. intros Hs. rewrite H. unfold registerTable.
    rewrite (has_noPathSyntax registerInfoValue base REGISTER_INDEX Hs), Hno. reflexivity. }
  split.
  { intros info Hinfo.
    pose proof (has_own registerInfoValue base REGISTER_INDEX info Hinfo) as Hhas.
    assert (Hbase : forall (k : Z -> Result EncodedParameter),
              (let! baseName := parseRegisterName (Some base) in
               let! baseRegId := registerId baseName in k baseRegId) = k (ri_id info)).
    { intros k. unfold parseRegisterName. rewrite Hhas. cbn [bind].
      unfold registerId. rewrite Hinfo. reflexivity. }
    split; [|split].
    - unfold parseMemoryParameter. rewrite Hbase. reflexivity.
    - unfold parseMemoryParameter. rewrite Hbase.
      destruct multiplier, constant; reflexivity.
    - intros indexName indexInfo Hindex.
      pose proof (has_own registerInfoValue indexName REGISTER_INDEX indexInfo Hindex)
        as Hhas'.
      unfold parseMemoryParameter. rewrite Hbase.
      unfold parseRegisterName. rewrite Hhas'. cbn [bind].
      unfold registerId. rewrite Hindex. cbn [bind].
      destruct multiplier, constant; reflexivity. }
  split; [reflexivity|]. split; [reflexivity|]. split; [reflexivity|].
  split; [reflexivity|]. split; [reflexivity|]. split.
  { intros name info. unfold REGISTER_INDEX. cbn [lookupKey].
    repeat (destruct (String.eqb _ name);
            [intros [= <-]; first [reflexivity | discriminate]|]).
    discriminate. }
  split.
  { intros program memory c Hc. unfold construct, reset in Hc.
    change (method (getRegisterByName "EIP")) with (Ok (viewOf EIP_info)) in Hc.
    change (method (getRegisterByName "ESP")) with (Ok (viewOf ESP_info)) in Hc.
    change (method (getRegisterByName "EBP")) with (Ok (viewOf EBP_info)) in Hc.
    cbn in Hc. injection Hc as <-. reflexivity. }
  split; [intros c c' H; apply registerValue_NULL, (reset_bank0 _ _ H)|].
  split; [intros c v c' H; apply registerValue_NULL, (push_bank0 _ _ _ H)|].
  split; [intros c v c' H; apply registerValue_NULL, (pop_bank0 _ _ _ H)|].
  split.
  { intros c v Hwf.
    destruct (register_write c "NULL" NULL_info v Hwf eq_refl) as (b & _ & _ & E & _).
    eexists. split; [exact E|].
    destruct (registerValue_written _ _ "NULL" NULL_info v Hwf eq_refl E) as (_ & _ & Hr).
    exact Hr. }
  intros c baseReg b n Hb Hn. unfold calculateEffectiveAddress.
  change (method (getRegisterByName "NULL")) with (Ok (viewOf NULL_info)). cbn [bind].
  rewrite Hb. cbn [bind].
  change (getValue (viewOf NULL_info) c) with (registerValue "NULL" c). rewrite Hn.
  reflexivity.
Qed.

(** [[EAX]] and [[EAX + EBX + 8]] are encoded, [[XYZ]] and [[EAX._id]] are
    refused; NULL reads 0 on a new CPU, where an effective address without
    index register is base plus displacement; after a write of 5 it reads 5,
    also after [reset]. *)
Lemma memory_operand_encoding_witness :
  parseMemoryParameter 4 (MemoryOperand (Some "EAX"%string) None None None)
  = Ok (MemoryParameter 4 20 0 0 0) /\
  parseMemoryParameter 4 (MemoryOperand (Some "EAX"%string) (Some "EBX"%string) None (Some 8))
  = Ok (MemoryParameter 4 20 24 0 8) /\
  parseMemoryParameter 4 (MemoryOperand (Some "XYZ"%string) None None None)
  = Throw (assemblyException "Unknown register XYZ") /\
  parseMemoryParameter 4 (MemoryOperand (Some "EAX._id"%string) None None None)
  = Throw (TypeError "Cannot read property 'id' of undefined") /\
  (exists c, construct emptyProgram (newMemoryBlock 16) = Ok c /\
     registerValue "NULL" c = Ok 0 /\
     calculateEffectiveAddress (viewOf ESP_info) None None (Some 8) c = Ok (15 + 0 * 1 + 8) /\
     exists c' c'', setValue (viewOf NULL_info) 5 c = Ok c' /\
       registerValue "NULL" c' = Ok (5 mod 2 ^ 32) /\
       reset c' = Ok c'' /\ registerValue "NULL" c'' = Ok (5 mod 2 ^ 32)).
Proof.
  destruct (memory_operand_encoding 4 "EAX" None None (Some 8))
    as (_ & _ & Hok & _ & _ & _ & _ & _ & _ & Hnew & Hreset & _ & _ & Hwrite & Hea).
  destruct (Hok EAX_info eq_refl) as (H1 & _ & H3).
  destruct (memory_operand_encoding 4 "XYZ" None None None) as (_ & Hbad & _).
  destruct (memory_operand_encoding 4 "EAX._id" None None None) as (_ & Hpath & _).
  split; [exact H1|]. split; [exact (H3 "EBX"%string (registerInfo 24 5 4 0) eq_refl)|].
  split; [exact (proj2 (Hbad eq_refl) eq_refl)|].
  split; [exact (proj1 (Hpath eq_refl))|].
  destruct (construct emptyProgram (newMemoryBlock 16)) as [c|e] eqn:E;
    [|vm_compute in E; discriminate].
  exists c. split; [reflexivity|].
  pose proof (Hnew _ _ _ E) as Hnull. split; [exact Hnull|].
  split; [apply Hea; [|exact Hnull]; vm_compute in E; injection E as <-; reflexivity|].
  assert (Hwf : wellFormed c).
  { apply (wellFormed_construct emptyProgram (newMemoryBlock 16) c); [|exact E].
    apply Forall_replicate. unfold isByte. lia. }
  destruct (Hwrite c 5 Hwf) as (c' & Hset & Hread).
  destruct (reset c') as [c''|e] eqn:Er.
  - exists c', c''. split; [exact Hset|]. split; [exact Hread|]. split; [exact Er|].
    rewrite (Hreset c' c'' Er). exact Hread.
  - exfalso. vm_compute in E. injection E as <-. vm_compute in Hset. injection Hset as <-.
    vm_compute in Er. discriminate.
Defined.

(** C4 as stated fails: the register that an absent index register is
    encoded as is not always zero.  The memory operand [[EAX]] is encoded
    with index register id 0; on the CPU on which 5 has been written through
    the register with id 0 (which the operand [NULL] of an instruction names),
    that register reads 5, and an effective address computed without index
    register is off by 5. *)
Lemma null_register_counterexample :
  parseMemoryParameter 4 (MemoryOperand (Some "EAX"%string) None None None)
  = Ok (MemoryParameter 4 20 0 0 0) /\
  parseRegisterParameter 4 (RegOperand "NULL") = Ok (RegisterParameter 4 0) /\
  exists c, nullWritten = Ok c /\
    (let! null := method (getRegisterByIndex 0) in getValue null c) = Ok 5 /\
    registerValue "EAX" c = Ok 0 /\
    calculateEffectiveAddress (viewOf EAX_info) None None None c = Ok 5.
Proof.
  split; [reflexivity|]. split; [reflexivity|].
  destruct nullWritten as [c|e] eqn:E; [|vm_compute in E; discriminate].
  exists c. split; [reflexivity|]. vm_compute in E. injection E as <-.
  split; [reflexivity|]. split; reflexivity.
Qed.

(** ** The two passes *)

Lemma assembleDataLines_app (pre post : list (Located DataLine)) :
  forall (acc : list MemoryDefinition) (d : AssemblyData),
  assembleDataLines (pre ++ post) acc d
  = (let! '(acc', d') := assembleDataLines pre acc d in assembleDataLines post acc' d').
Proof.
  induction pre as [|l pre IH]; intros acc d; [reflexivity|].
  cbn [app assembleDataLines].
  destruct (assembleMemoryDefinitions (line l) d) as [[defs d']|e]; [apply IH|reflexivity].
Qed.

Section Passes.

Variable valid : Instruction -> list (list ParameterTag).
Variable display : Instruction -> string.
Variable members : Instruction -> list (string * Value).

Lemma assembleTextLines_app (pre post : list (Located TextLine)) :
  forall (acc : list EncodedInstruction) (d : AssemblyData),
  assembleTextLines valid display members (pre ++ post) acc d
  = (let! '(acc', d') := assembleTextLines valid display members pre acc d in
     assembleTextLines valid display members post acc' d').
Proof.
  induction pre as [|l pre IH]; intros acc d; [reflexivity|].
  cbn [app assembleTextLines].
  destruct (assembleInstruction valid display members (line l) d) as [[[i|] d']|e];
    [apply IH|apply IH|reflexivity].
Qed.

(** The first line that fails ends the data pass, and the assembly, with
    the exception that the [catch] clause throws. *)
Lemma data_line_failure (p : ParsedProgram) (pre post : list (Located DataLine))
    (l : Located DataLine) (mds : list MemoryDefinition) (d : AssemblyData) (e : Exception) :
  pp_data p = pre ++ l :: post ->
  assembleDataSegment pre newAssemblyData = Ok (mds, d) ->
  assembleMemoryDefinitions (line l) d = Throw e ->
  assemble valid display members (Parsed p) = Throw (rethrow e (startLine l) (DataLineData (line l))).
Proof.
  intros Hp Hpre Hl. unfold assemble, assembleDataSegment in *.
  rewrite Hp, assembleDataLines_app, Hpre. cbn [bind assembleDataLines].
  rewrite Hl. cbn [bind]. rewrite Z.sub_add. reflexivity.
Qed.

(** The same for the text pass, which runs on the assembly data that the
    data pass leaves. *)
Lemma text_line_failure (p : ParsedProgram) (pre post : list (Located TextLine))
    (l : Located TextLine) (mds : list MemoryDefinition) (d0 d : AssemblyData)
    (ins : list EncodedInstruction) (e : Exception) :
  assembleDataSegment (pp_data p) newAssemblyData = Ok (mds, d0) ->
  pp_text p = pre ++ l :: post ->
  assembleTextSegment valid display members pre d0 = Ok (ins, d) ->
  assembleInstruction valid display members (line l) d = Throw e ->
  assemble valid display members (Parsed p) = Throw (rethrow e (startLine l) (TextLineData (line l))).
Proof.
  intros Hdata Hp Hpre Hl.
  unfold assemble, assembleTextSegment in *.
  rewrite Hdata. cbn [bind]. rewrite Hp, assembleTextLines_app, Hpre.
  cbn [bind assembleTextLines].
  rewrite Hl. cbn [bind]. rewrite Z.sub_add. reflexivity.
Qed.

End Passes.

(** ** Failures of a line *)

(** C8, amended.  When the lines before a line assemble and the line
    itself raises an exception, the assembly ends there, whatever the lines
    after it: with the [AssemblyException] of the same message carrying the
    line number of that line (as the grammar counts it, from 1) and the parsed
    line when the exception raised is an [AssemblyException], and with the
    exception raised, unchanged, when it is of another kind.  This holds in
    the data pass and in the text pass. *)
Theorem line_failure_aborts_assembly (valid : Instruction -> list (list ParameterTag))
    (display : Instruction -> string)
    (members : Instruction -> list (string * Value)) (p : ParsedProgram) :
  (forall pre l post mds d e,
     pp_data p = pre ++ l :: post ->
     assembleDataSegment pre newAssemblyData = Ok (mds, d) ->
     assembleMemoryDefinitions (line l) d = Throw e ->
     assemble valid display members (Parsed p)
     = Throw (match e with
              | AssemblyException message _ _ =>
                  AssemblyException message (startLine l) (DataLineData (line l))
              | _ => e
              end)) /\
  (forall mds d0 pre l post ins d e,
     assembleDataSegment (pp_data p) newAssemblyData = Ok (mds, d0) ->
     pp_text p = pre ++ l :: post ->
     assembleTextSegment valid display members pre d0 = Ok (ins, d) ->
     assembleInstruction valid display members (line l) d = Throw e ->
     assemble valid display members (Parsed p)
     = Throw (match e with
              | AssemblyException message _ _ =>
                  AssemblyException message (startLine l) (TextLineData (line l))
              | _ => e
              end)).
Proof.
  split.
  - intros pre l post mds d e Hp Hpre Hl.
    apply (data_line_failure valid display members p pre post l mds d e Hp Hpre Hl).
  - intros mds d0 pre l post ins d e Hdata Hp Hpre Hl.
    apply (text_line_failure valid display members p pre post l mds d0 d ins e Hdata Hp Hpre Hl).
Qed.

Lemma line_failure_aborts_assembly_witness :
  assemble specValidParameters specToString plainClass (Parsed twiceInData)
  = Throw (AssemblyException "Duplicate label found: x" 2
             (DataLineData (line (dataByte 2 "x" 2)))) /\
  assemble specValidParameters specToString plainClass (Parsed twiceInText)
  = Throw (AssemblyException "Duplicate label found: x" 2
             (TextLineData (line (labelOnly 2 "x" false)))).
Proof.
  destruct (line_failure_aborts_assembly specValidParameters specToString plainClass twiceInData)
    as [Hdata _].
  destruct (line_failure_aborts_assembly specValidParameters specToString plainClass twiceInText)
    as [_ Htext].
  split.
  - apply (Hdata [dataByte 1 "x" 1] (dataByte 2 "x" 2) [] _ _ _ eq_refl eq_refl eq_refl).
  - apply (Htext _ _ [labelOnly 1 "x" false] (labelOnly 2 "x" false) [] _ _ _
             eq_refl eq_refl eq_refl eq_refl).
Defined.

(** C8 as stated fails: the exception raised while assembling line 1 of
    [JMP end / end: / INT 0] leaves the assembler as it was raised, without
    line number and without the parsed line. *)
Lemma line_failure_counterexample :
  assembleInstruction specValidParameters specToString plainClass
    (line (hd (labelOnly 0 "" false) (pp_text forwardJump))) newAssemblyData
  = Throw (TypeError "Cannot read property 'labelResolver' of undefined") /\
  assemble specValidParameters specToString plainClass (Parsed forwardJump)
  = Throw (TypeError "Cannot read property 'labelResolver' of undefined").
Proof. split; reflexivity. Qed.

(** ** Label operands *)

Lemma loadParameter_label (o : Operand) :
  tag (getInnerParameter o) = TLabel ->
  loadParameter o = Throw (TypeError "Cannot read property 'labelResolver' of undefined").
Proof.
  intros Htag. unfold loadParameter. rewrite Htag.
  destruct (getInnerParameter o); try discriminate. reflexivity.
Qed.

Lemma mapResult_ok {A B : Type} (f : A -> Result B) (l : list A) (ys : list B) :
  mapResult f l = Ok ys -> forall x, x ∈ l -> exists y, f x = Ok y.
Proof.
  revert ys. induction l as [|a l IH]; intros ys H x Hx.
  - apply elem_of_nil in Hx. contradiction.
  - cbn [mapResult] in H. destruct (f a) as [y|e] eqn:Ea; [|discriminate].
    cbn [bind] in H. destruct (mapResult f l) as [ys'|e] eqn:El; [|discriminate].
    apply elem_of_cons in Hx as [->|Hx]; [eauto|]. eapply IH; [reflexivity|assumption].
Qed.

Section LabelOperands.

Variable valid : Instruction -> list (list ParameterTag).
Variable display : Instruction -> string.
Variable members : Instruction -> list (string * Value).

Lemma parseInstruction_label (i : ParsedInstruction) (o : Operand) :
  o ∈ pi_operands i -> tag (getInnerParameter o) = TLabel ->
  exists e, parseInstruction valid display members i = Throw e.
Proof.
  intros Ho Htag. unfold parseInstruction.
  destruct (has _ (pi_name i)); [|eauto].
  destruct (lookupKey (pi_name i) InstructionMapping) as [instance|]; [|eauto].
  unfold loadParameters.
  destruct (checkParameterCompatibility valid display instance (pi_operands i));
    cbn [bind]; [|eauto].
  destruct (mapResult loadParameter (pi_operands i)) as [ps|e] eqn:E; cbn [bind]; [|eauto].
  destruct (mapResult_ok _ _ _ E o Ho) as [y Hy].
  rewrite loadParameter_label in Hy by assumption. discriminate.
Qed.

Lemma assembleInstruction_label (l : TextLine) (i : ParsedInstruction) (o : Operand)
    (d : AssemblyData) :
  tl_instruction l = Some i -> o ∈ pi_operands i -> tag (getInnerParameter o) = TLabel ->
  exists e, assembleInstruction valid display members l d = Throw e.
Proof.
  intros Hi Ho Htag. unfold assembleInstruction. rewrite Hi.
  destruct (match tl_label l with
            | Some label => assembleLabel label d Text
            | None => Ok d
            end); cbn [bind]; [|eauto].
  destruct (parseInstruction_label i o Ho Htag) as [e ->]. eauto.
Qed.

Lemma assembleTextLines_label (lines : list (Located TextLine)) (l : Located TextLine)
    (i : ParsedInstruction) (o : Operand) :
  l ∈ lines -> tl_instruction (line l) = Some i -> o ∈ pi_operands i ->
  tag (getInnerParameter o) = TLabel ->
  forall acc d, exists e, assembleTextLines valid display members lines acc d = Throw e.
Proof.
  intros Hl Hi Ho Htag. induction lines as [|x lines IH]; intros acc d.
  - apply elem_of_nil in Hl. contradiction.
  - cbn [assembleTextLines]. apply elem_of_cons in Hl as [<-|Hl].
    + destruct (assembleInstruction_label (line l) i o d Hi Ho Htag) as [e ->]. eauto.
    + destruct (assembleInstruction valid display members (line x) d) as [[[enc|] d']|e];
        [apply IH; assumption|apply IH; assumption|eauto].
Qed.

(** C1, what the code does.  A program with a label operand (under any
    cast) in one of its instructions never assembles: the builder of label
    operands is called without the assembly data it records the operand in,
    so that the line raises an exception unless an earlier failure ended
    the assembly before. *)
Theorem label_operand_never_assembles (p : ParsedProgram) (l : Located TextLine)
    (i : ParsedInstruction) (o : Operand) :
  l ∈ pp_text p -> tl_instruction (line l) = Some i -> o ∈ pi_operands i ->
  tag (getInnerParameter o) = TLabel ->
  loadParameter o = Throw (TypeError "Cannot read property 'labelResolver' of undefined") /\
  exists e, assemble valid display members (Parsed p) = Throw e.
Proof.
  intros Hl Hi Ho Htag. split; [apply loadParameter_label; assumption|].
  unfold assemble.
  destruct (assembleDataSegment (pp_data p) newAssemblyData) as [[mds d]|e];
    cbn [bind]; [|eauto].
  unfold assembleTextSegment.
  destruct (assembleTextLines_label (pp_text p) l i o Hl Hi Ho Htag [] d) as [e ->].
  eauto.
Qed.

End LabelOperands.

(** The forward reference of the specification, [JMP end / end: / INT 0]. *)
Lemma label_operand_never_assembles_witness :
  assemble specValidParameters specToString plainClass (Parsed forwardJump)
  = Throw (TypeError "Cannot read property 'labelResolver' of undefined") /\
  exists e, assemble specValidParameters specToString plainClass (Parsed forwardJump) = Throw e.
Proof.
  split; [reflexivity|].
  refine (proj2 (label_operand_never_assembles specValidParameters specToString plainClass forwardJump
            (hd (labelOnly 0 "" false) (pp_text forwardJump)) _ (LabelOperand "end" false)
            _ eq_refl _ eq_refl)).
  - cbn. left.
  - cbn. left.
Defined.
(** * The label table *)

Lemma normalize_global (r : LabelResolver) (name : string) (address : Z) :
  normalizeLabelName r name false address = Ok name.
Proof. reflexivity. Qed.

(** A successful [addLabel]: the qualified name was not found by [_.has],
    so it was no property of the table, and it becomes the last one, unless
    it is [__proto__], which the assignment does not store. *)
Lemma addLabel_ok (address : Z) (label : string) (local : bool) (r r' : LabelResolver) :
  addLabel address label local r = Ok r' ->
  exists q, normalizeLabelName r label local address = Ok q /\
    hasLabel r q = false /\
    lookupKey q (labels r) = None /\
    labels r' = labels r ++ (if String.eqb q "__proto__" then []
                             else [(q, {| label_name := q; label_local := local;
                                          label_address := address |})]) /\
    unresolvedParameters r' = unresolvedParameters r.
Proof.
  unfold addLabel. destruct (normalizeLabelName r label local address) as [q|e];
    cbn [bind]; [|discriminate].
  destruct (hasLabel r q) eqn:E; [discriminate|].
  intros [= <-]. exists q. cbn [labels unresolvedParameters].
  pose proof (has_not_own labelValue q (labels r) E) as Hno.
  rewrite (assign_new q _ (labels r) Hno).
  destruct (String.eqb q "__proto__"); rewrite ?app_nil_r; auto.
Qed.

Lemma addLabel_duplicate (address : Z) (label : string) (local : bool) (r : LabelResolver)
    (q : string) :
  normalizeLabelName r label local address = Ok q -> hasLabel r q = true ->
  addLabel address label local r
  = Throw (assemblyException ("Duplicate label found: " +:+ q)).
Proof. intros Hq Hhas. unfold addLabel. rewrite Hq. cbn [bind]. rewrite Hhas. reflexivity. Qed.

(** What a successful line does to the assembly data: only the label table
    changes, by the entry of the label of the line. *)
Lemma assembleLabel_state (label : ParsedLabel) (d d' : AssemblyData) (mt : MemoryType) :
  assembleLabel label d mt = Ok d' ->
  textAddress d' = textAddress d /\ dataAddress d' = dataAddress d /\
  lineMap d' = lineMap d /\
  unresolvedParameters (labelResolver d') = unresolvedParameters (labelResolver d) /\
  exists q, normalizeLabelName (labelResolver d) (pl_name label) (pl_local label)
              (getAddress mt d) = Ok q /\
    hasLabel (labelResolver d) q = false /\
    lookupKey q (labels (labelResolver d)) = None /\
    labels (labelResolver d')
    = labels (labelResolver d)
      ++ (if String.eqb q "__proto__" then []
          else [(q, {| label_name := q; label_local := pl_local label;
                       label_address := getAddress mt d |})]).
Proof.
  unfold assembleLabel.
  destruct (addLabel _ _ _ (labelResolver d)) as [r'|e] eqn:E; cbn [bind]; [|discriminate].
  intros [= <-]. destruct (addLabel_ok _ _ _ _ _ E) as (q & Hq & Hhas & Hno & Hl & Hu).
  cbn [labelResolver setLabelResolver textAddress dataAddress lineMap].
  repeat (split; [first [reflexivity | assumption]|]).
  exists q. auto.
Qed.

Lemma optional_label_state (label : option ParsedLabel) (d d' : AssemblyData)
    (mt : MemoryType) :
  (match label with
   | Some l => assembleLabel l d mt
   | None => Ok d
   end) = Ok d' ->
  textAddress d' = textAddress d /\ dataAddress d' = dataAddress d /\
  lineMap d' = lineMap d /\
  unresolvedParameters (labelResolver d') = unresolvedParameters (labelResolver d) /\
  exists added, labels (labelResolver d') = labels (labelResolver d) ++ added.
Proof.
  destruct label as [l|].
  - intros H.
    destruct (assembleLabel_state l d d' mt H) as (H1 & H2 & H3 & H4 & q & _ & _ & _ & H5).
    repeat (split; [assumption|]). eauto.
  - intros [= <-]. repeat (split; [reflexivity|]). exists []. rewrite app_nil_r. reflexivity.
Qed.


(** ** Local labels *)








Section LocalLabels.

Variable valid : Instruction -> list (list ParameterTag).
Variable display : Instruction -> string.
Variable members : Instruction -> list (string * Value).


End LocalLabels.




(** ** Duplicate labels *)

(** The keys after a line: those before, then the qualified name of the
    label of the line if it has one and the table stores it; a global label
    has its own name. *)
Lemma optional_label_keys (label : option ParsedLabel) (d d' : AssemblyData)
    (mt : MemoryType) :
  (match label with
   | Some l => assembleLabel l d mt
   | None => Ok d
   end) = Ok d' ->
  exists added, labelKeys d' = labelKeys d ++ added /\
    (forall q, q ∈ added -> q ∉ labelKeys d) /\ NoDup added /\
    sublist (stored (globalLabelOf label)) added.
Proof.
  destruct label as [l|].
  - intros H.
    destruct (assembleLabel_state l d d' mt H) as (_ & _ & _ & _ & q & Hq & _ & Hno & Hl).
    apply lookupKey_keys in Hno. fold (labelKeys d) in Hno.
    unfold labelKeys. rewrite Hl, map_app. eexists. split; [reflexivity|].
    unfold globalLabelOf, stored. destruct (pl_local l) eqn:El.
    + split; [|split; [|apply sublist_nil_l]].
      * intros x Hx. destruct (String.eqb q "__proto__"); cbn [map fst] in Hx.
        -- apply elem_of_nil in Hx. contradiction.
        -- apply list_elem_of_singleton in Hx as ->. assumption.
      * destruct (String.eqb q "__proto__"); [apply NoDup_nil_2|apply NoDup_singleton].
    + rewrite normalize_global in Hq. injection Hq as <-. cbn [List.filter].
      destruct (String.eqb (pl_name l) "__proto__"); cbn [negb map fst].
      * split; [|split; [apply NoDup_nil_2|reflexivity]].
        intros x Hx. apply elem_of_nil in Hx. contradiction.
      * split; [|split; [apply NoDup_singleton|reflexivity]].
        intros x Hx. apply list_elem_of_singleton in Hx as ->. assumption.
  - intros [= <-]. exists []. rewrite app_nil_r. split; [reflexivity|].
    split; [intros q Hq; apply elem_of_nil in Hq; contradiction|].
    split; [apply NoDup_nil_2|reflexivity].
Qed.

Lemma extends_refl (d : AssemblyData) : extends [] d d.
Proof.
  exists []. rewrite app_nil_r. split; [reflexivity|]. split; [auto|reflexivity].
Qed.

Lemma extends_trans (g1 g2 : list string) (d1 d2 d3 : AssemblyData) :
  extends g1 d1 d2 -> extends g2 d2 d3 -> extends (g1 ++ g2) d1 d3.
Proof.
  intros (a1 & H1 & N1 & S1) (a2 & H2 & N2 & S2). exists (a1 ++ a2).
  split; [rewrite H2, H1, app_assoc; reflexivity|]. split; [auto|].
  unfold stored. rewrite List.filter_app. apply sublist_app; assumption.
Qed.

Lemma optional_label_extends (label : option ParsedLabel) (d d' : AssemblyData)
    (mt : MemoryType) :
  (match label with
   | Some l => assembleLabel l d mt
   | None => Ok d
   end) = Ok d' ->
  extends (globalLabelOf label) d d'.
Proof.
  intros H. destruct (optional_label_keys label d d' mt H) as (a & Hk & Hno & Hnd & Hs).
  exists a. split; [assumption|]. split; [|assumption].
  intros Hd. rewrite Hk. apply NoDup_app. split; [assumption|]. split; [|assumption].
  intros x Hx Ha. exact (Hno x Ha Hx).
Qed.

(** The table only grows, so what [_.has] finds it finds later on, and a
    key keeps its label. *)
Lemma grown_has (d d' : AssemblyData) (added : list (string * Label)) (q : string) :
  labels (labelResolver d') = labels (labelResolver d) ++ added ->
  hasLabel (labelResolver d) q = true -> hasLabel (labelResolver d') q = true.
Proof. intros Hl. unfold hasLabel. rewrite Hl. apply has_app. Qed.

Lemma grown_key (d d' : AssemblyData) (added : list (string * Label)) (q : string)
    (l : Label) :
  labels (labelResolver d') = labels (labelResolver d) ++ added ->
  lookupKey q (labels (labelResolver d)) = Some l ->
  lookupKey q (labels (labelResolver d')) = Some l.
Proof. intros Hl. rewrite Hl. apply lookupKey_app_l. Qed.

Lemma assembleMemoryDefinitions_extends (l : DataLine) (d d' : AssemblyData)
    (defs : list MemoryDefinition) :
  assembleMemoryDefinitions l d = Ok (defs, d') ->
  extends (globalLabelOf (dl_label l)) d d'.
Proof.
  unfold assembleMemoryDefinitions.
  destruct (match dl_label l with
            | Some label => assembleLabel label d Data
            | None => Ok d
            end) as [d1|e] eqn:E; cbn [bind]; [|discriminate].
  apply optional_label_extends in E.
  destruct (dl_size l) as [sz|].
  - destruct (defineConstants sz (dl_constants l) (dataAddress d1)) as [definitions final].
    intros [= _ <-]. destruct E as (a & Hk & N & S). exists a. auto.
  - intros [= _ <-]. assumption.
Qed.

Lemma assembleDataLines_extends (lines : list (Located DataLine)) :
  forall acc d acc' d',
  assembleDataLines lines acc d = Ok (acc', d') ->
  extends (flat_map (fun l => globalLabelOf (dl_label (line l))) lines) d d'.
Proof.
  induction lines as [|l lines IH]; intros acc d acc' d'; cbn [assembleDataLines flat_map].
  - intros [= _ <-]. apply extends_refl.
  - destruct (assembleMemoryDefinitions (line l) d) as [[defs d1]|e] eqn:E; [|discriminate].
    intros H. eapply extends_trans.
    + eapply assembleMemoryDefinitions_extends. exact E.
    + eapply IH. exact H.
Qed.

(** Every line with the global label [__proto__] assembles as if it had no
    label, as long as [__proto__] is no property of the table, which no line
    changes. *)
Lemma assembleLabel_proto (label : ParsedLabel) (d : AssemblyData) (mt : MemoryType) :
  pl_name label = "__proto__"%string -> pl_local label = false ->
  lookupKey "__proto__" (labels (labelResolver d)) = None ->
  assembleLabel label d mt = Ok d.
Proof.
  intros Hn Hg Hno. unfold assembleLabel, addLabel. rewrite Hn, Hg, normalize_global.
  cbn [bind]. unfold hasLabel.
  rewrite (has_word labelValue "__proto__" (labels (labelResolver d)) eq_refl), Hno.
  cbn [matches]. unfold assign. cbn [String.eqb Ascii.eqb Bool.eqb]. cbn [bind].
  destruct d as [t a m [ls us]]. reflexivity.
Qed.

Lemma assembleLabel_no_proto (label : ParsedLabel) (d d' : AssemblyData) (mt : MemoryType) :
  assembleLabel label d mt = Ok d' ->
  lookupKey "__proto__" (labels (labelResolver d)) = None ->
  lookupKey "__proto__" (labels (labelResolver d')) = None.
Proof.
  intros H Hno.
  destruct (assembleLabel_state label d d' mt H) as (_ & _ & _ & _ & q & _ & _ & _ & Hl).
  rewrite Hl, lookupKey_app_r by assumption.
  destruct (String.eqb q "__proto__") eqn:E; [reflexivity|].
  cbn [lookupKey]. rewrite E. reflexivity.
Qed.

Section DuplicateLabels.

Variable valid : Instruction -> list (list ParameterTag).
Variable display : Instruction -> string.
Variable members : Instruction -> list (string * Value).

Lemma assembleInstruction_extends (l : TextLine) (d d' : AssemblyData)
    (i : option EncodedInstruction) :
  assembleInstruction valid display members l d = Ok (i, d') ->
  extends (globalLabelOf (tl_label l)) d d'.
Proof.
  unfold assembleInstruction.
  destruct (match tl_label l with
            | Some label => assembleLabel label d Text
            | None => Ok d
            end) as [d1|e] eqn:E; cbn [bind]; [|discriminate].
  apply optional_label_extends in E.
  destruct (tl_instruction l) as [ins|].
  - destruct (parseInstruction valid display members ins); cbn [bind]; [|discriminate].
    intros [= _ <-]. assumption.
  - intros [= _ <-]. assumption.
Qed.

Lemma assembleTextLines_extends (lines : list (Located TextLine)) :
  forall acc d acc' d',
  assembleTextLines valid display members lines acc d = Ok (acc', d') ->
  extends (flat_map (fun l => globalLabelOf (tl_label (line l))) lines) d d'.
Proof.
  induction lines as [|l lines IH]; intros acc d acc' d'; cbn [assembleTextLines flat_map].
  - intros [= _ <-]. apply extends_refl.
  - destruct (assembleInstruction valid display members (line l) d) as [[[i|] d1]|e] eqn:E;
      [| |discriminate]; intros H; eapply extends_trans;
      try (eapply assembleInstruction_extends; exact E).
    + apply IH in H. destruct H as (a & Hk & N & S). exists a. auto.
    + eapply IH. exact H.
Qed.

(** A program that assembles carries no global label name twice, except
    [__proto__]. *)
Lemma assemble_no_duplicates (p : ParsedProgram) (image : ProgramImage) :
  assemble valid display members (Parsed p) = Ok image -> NoDup (stored (globalLabels p)).
Proof.
  unfold assemble, assembleDataSegment, assembleTextSegment.
  destruct (assembleDataLines (pp_data p) [] newAssemblyData) as [[mds d0]|e] eqn:Ed;
    cbn [bind]; [|discriminate].
  destruct (assembleTextLines valid display members (pp_text p) [] d0) as [[ins d]|e] eqn:Et;
    cbn [bind]; [|discriminate].
  intros _. apply assembleDataLines_extends in Ed. apply assembleTextLines_extends in Et.
  destruct (extends_trans _ _ _ _ _ Ed Et) as (a & Hk & N & S).
  change (labelKeys newAssemblyData) with (@nil string) in *.
  cbn [app] in Hk. rewrite Hk in N.
  eapply sublist_NoDup; [|exact S]. apply N. apply NoDup_nil_2.
Qed.

Lemma duplicate_in_data_line (l : DataLine) (d : AssemblyData) (label : ParsedLabel)
    (q : string) :
  dl_label l = Some label ->
  normalizeLabelName (labelResolver d) (pl_name label) (pl_local label) (dataAddress d)
  = Ok q ->
  hasLabel (labelResolver d) q = true ->
  assembleMemoryDefinitions l d
  = Throw (assemblyException ("Duplicate label found: " +:+ q)).
Proof.
  intros Hl Hq Hhas. unfold assembleMemoryDefinitions, assembleLabel. rewrite Hl.
  cbn [getAddress]. rewrite (addLabel_duplicate _ _ _ _ q Hq Hhas). reflexivity.
Qed.

Lemma duplicate_in_text_line (l : TextLine) (d : AssemblyData) (label : ParsedLabel)
    (q : string) :
  tl_label l = Some label ->
  normalizeLabelName (labelResolver d) (pl_name label) (pl_local label) (textAddress d)
  = Ok q ->
  hasLabel (labelResolver d) q = true ->
  assembleInstruction valid display members l d
  = Throw (assemblyException ("Duplicate label found: " +:+ q)).
Proof.
  intros Hl Hq Hhas. unfold assembleInstruction, assembleLabel. rewrite Hl.
  cbn [getAddress]. rewrite (addLabel_duplicate _ _ _ _ q Hq Hhas). reflexivity.
Qed.

End DuplicateLabels.

Lemma assembleDataLines_grows (lines : list (Located DataLine)) :
  forall acc d acc' d',
  assembleDataLines lines acc d = Ok (acc', d') ->
  exists added, labels (labelResolver d') = labels (labelResolver d) ++ added.
Proof.
  induction lines as [|l lines IH]; intros acc d acc' d'; cbn [assembleDataLines].
  - intros [= _ <-]. exists []. rewrite app_nil_r. reflexivity.
  - unfold assembleMemoryDefinitions.
    destruct (match dl_label (line l) with
              | Some label => assembleLabel label d Data
              | None => Ok d
              end) as [d1|e] eqn:E; cbn [bind]; [|discriminate].
    destruct (optional_label_state _ _ _ _ E) as (_ & _ & _ & _ & a1 & L1).
    assert (Hstep : forall d2 defs,
              labels (labelResolver d2) = labels (labelResolver d1) ->
              assembleDataLines lines (acc ++ defs) d2 = Ok (acc', d') ->
              exists added, labels (labelResolver d') = labels (labelResolver d) ++ added).
    { intros d2 defs H2 H. destruct (IH _ _ _ _ H) as (a2 & L2).
      exists (a1 ++ a2). rewrite L2, H2, L1, app_assoc. reflexivity. }
    destruct (dl_size (line l)) as [sz|].
    + destruct (defineConstants sz (dl_constants (line l)) (dataAddress d1))
        as [definitions final].
      apply Hstep. reflexivity.
    + apply Hstep. reflexivity.
Qed.

Section DuplicateLabelsText.

Variable valid : Instruction -> list (list ParameterTag).
Variable display : Instruction -> string.
Variable members : Instruction -> list (string * Value).

Lemma assembleTextLines_grows (lines : list (Located TextLine)) :
  forall acc d acc' d',
  assembleTextLines valid display members lines acc d = Ok (acc', d') ->
  exists added, labels (labelResolver d') = labels (labelResolver d) ++ added.
Proof.
  induction lines as [|l lines IH]; intros acc d acc' d'; cbn [assembleTextLines].
  - intros [= _ <-]. exists []. rewrite app_nil_r. reflexivity.
  - unfold assembleInstruction.
    destruct (match tl_label (line l) with
              | Some label => assembleLabel label d Text
              | None => Ok d
              end) as [d1|e] eqn:E; cbn [bind]; [|discriminate].
    destruct (optional_label_state _ _ _ _ E) as (_ & _ & _ & _ & a1 & L1).
    assert (Hstep : forall d2 acc2,
              labels (labelResolver d2) = labels (labelResolver d1) ->
              assembleTextLines valid display members lines acc2 d2 = Ok (acc', d') ->
              exists added, labels (labelResolver d') = labels (labelResolver d) ++ added).
    { intros d2 acc2 H2 H. destruct (IH _ _ _ _ H) as (a2 & L2).
      exists (a1 ++ a2). rewrite L2, H2, L1, app_assoc. reflexivity. }
    destruct (tl_instruction (line l)) as [i|].
    + destruct (parseInstruction valid display members i) as [enc|e]; cbn [bind];
        [|discriminate].
      apply Hstep. reflexivity.
    + apply Hstep. reflexivity.
Qed.

End DuplicateLabelsText.

(** C7, what the code does.  The label table is shared by the two passes
    and only grows: what [_.has] finds in it, it finds when any later line is
    assembled.  When a line carries a label whose qualified name [_.has]
    finds in the table, in the data pass or in the text pass, the assembly
    ends with the exception "Duplicate label found" for that name, carrying
    the number and the parsed data of that line.  A definition that succeeds
    leaves its qualified name as a key of the table, so that a second
    definition fails, unless the name is [__proto__]: the assignment to that
    key stores nothing, the definition leaves the table as it was, and every
    further definition of [__proto__] succeeds as well.  Hence a program in
    which two lines, of whichever segments, carry the same global label name
    other than [__proto__] never assembles. *)
Theorem duplicate_label_fails (valid : Instruction -> list (list ParameterTag))
    (display : Instruction -> string)
    (members : Instruction -> list (string * Value)) (p : ParsedProgram) :
  (forall pre l post mds d label q,
     pp_data p = pre ++ l :: post ->
     assembleDataSegment pre newAssemblyData = Ok (mds, d) ->
     dl_label (line l) = Some label ->
     normalizeLabelName (labelResolver d) (pl_name label) (pl_local label) (dataAddress d)
     = Ok q ->
     hasLabel (labelResolver d) q = true ->
     assemble valid display members (Parsed p)
     = Throw (AssemblyException ("Duplicate label found: " +:+ q) (startLine l)
                (DataLineData (line l)))) /\
  (forall mds d0 pre l post ins d label q,
     assembleDataSegment (pp_data p) newAssemblyData = Ok (mds, d0) ->
     pp_text p = pre ++ l :: post ->
     assembleTextSegment valid display members pre d0 = Ok (ins, d) ->
     tl_label (line l) = Some label ->
     normalizeLabelName (labelResolver d) (pl_name label) (pl_local label) (textAddress d)
     = Ok q ->
     hasLabel (labelResolver d) q = true ->
     assemble valid display members (Parsed p)
     = Throw (AssemblyException ("Duplicate label found: " +:+ q) (startLine l)
                (TextLineData (line l)))) /\
  (forall label d mt d',
     assembleLabel label d mt = Ok d' ->
     exists q, normalizeLabelName (labelResolver d) (pl_name label) (pl_local label)
                 (getAddress mt d) = Ok q /\
       (q <> "__proto__"%string ->
        lookupKey q (labels (labelResolver d'))
        = Some {| label_name := q; label_local := pl_local label;
                  label_address := getAddress mt d |} /\
        hasLabel (labelResolver d') q = true) /\
       (q = "__proto__"%string -> labels (labelResolver d') = labels (labelResolver d))) /\
  (forall lines acc d acc' d' q,
     assembleDataLines lines acc d = Ok (acc', d') ->
     (hasLabel (labelResolver d) q = true -> hasLabel (labelResolver d') q = true) /\
     (forall l, lookupKey q (labels (labelResolver d)) = Some l ->
        lookupKey q (labels (labelResolver d')) = Some l)) /\
  (forall lines acc d acc' d' q,
     assembleTextLines valid display members lines acc d = Ok (acc', d') ->
     (hasLabel (labelResolver d) q = true -> hasLabel (labelResolver d') q = true) /\
     (forall l, lookupKey q (labels (labelResolver d)) = Some l ->
        lookupKey q (labels (labelResolver d')) = Some l)) /\
  (forall image, assemble valid display members (Parsed p) = Ok image ->
     NoDup (stored (globalLabels p))) /\
  (forall label d mt,
     pl_name label = "__proto__"%string -> pl_local label = false ->
     lookupKey "__proto__" (labels (labelResolver d)) = None ->
     assembleLabel label d mt = Ok d) /\
  (forall label d mt d',
     assembleLabel label d mt = Ok d' ->
     lookupKey "__proto__" (labels (labelResolver d)) = None ->
     lookupKey "__proto__" (labels (labelResolver d')) = None).
Proof.
  split; [|split; [|split; [|split; [|split; [|split; [|split]]]]]].
  - intros pre l post mds d label q Hp Hpre Hl Hq Hhas.
    apply (data_line_failure valid display members p pre post l mds d
             (assemblyException ("Duplicate label found: " +:+ q)) Hp Hpre).
    apply (duplicate_in_data_line _ _ label q); assumption.
  - intros mds d0 pre l post ins d label q Hdata Hp Hpre Hl Hq Hhas.
    apply (text_line_failure valid display members p pre post l mds d0 d ins
             (assemblyException ("Duplicate label found: " +:+ q)) Hdata Hp Hpre).
    apply (duplicate_in_text_line _ _ _ _ _ label q); assumption.
  - intros label d mt d' H.
    destruct (assembleLabel_state label d d' mt H) as (_ & _ & _ & _ & q & Hq & _ & Hno & Hl).
    exists q. split; [assumption|]. split.
    + intros Hne. apply String.eqb_neq in Hne. rewrite Hne in Hl.
      assert (Hkey : lookupKey q (labels (labelResolver d'))
                     = Some {| label_name := q; label_local := pl_local label;
                               label_address := getAddress mt d |}).
      { rewrite Hl, lookupKey_app_r by assumption. cbn [lookupKey].
        rewrite String.eqb_refl. reflexivity. }
      split; [exact Hkey|]. exact (has_own labelValue q _ _ Hkey).
    + intros ->. rewrite Hl. cbn [String.eqb Ascii.eqb Bool.eqb]. apply app_nil_r.
  - intros lines acc d acc' d' q H.
    destruct (assembleDataLines_grows _ _ _ _ _ H) as (added & Hl).
    split; [apply (grown_has d d' added q Hl)|intros l; apply (grown_key d d' added q l Hl)].
  - intros lines acc d acc' d' q H.
    destruct (assembleTextLines_grows valid display members _ _ _ _ _ H) as (added & Hl).
    split; [apply (grown_has d d' added q Hl)|intros l; apply (grown_key d d' added q l Hl)].
  - apply assemble_no_duplicates.
  - apply assembleLabel_proto.
  - intros label d mt d'. apply assembleLabel_no_proto.
Qed.

(** The label [x] defined twice in the data segment, twice in the text
    segment, and once in each: the second definition fails.  The label
    [__proto__] defined twice, or once in each segment: the program
    assembles. *)
Lemma duplicate_label_fails_witness :
  assemble specValidParameters specToString plainClass (Parsed twiceInData)
  = Throw (AssemblyException "Duplicate label found: x" 2
             (DataLineData (line (dataByte 2 "x" 2)))) /\
  assemble specValidParameters specToString plainClass (Parsed twiceInText)
  = Throw (AssemblyException "Duplicate label found: x" 2
             (TextLineData (line (labelOnly 2 "x" false)))) /\
  assemble specValidParameters specToString plainClass (Parsed onceInEach)
  = Throw (AssemblyException "Duplicate label found: x" 2
             (TextLineData (line (labelOnly 2 "x" false)))) /\
  assembleLabel {| pl_name := "__proto__"; pl_local := false |} newAssemblyData Data
  = Ok newAssemblyData /\
  assemble specValidParameters specToString plainClass (Parsed protoTwice)
  = Ok {| instructions := [];
          memoryDefinitions := [ {| md_address := 0; md_size := 1; md_value := 1 |};
                                 {| md_address := 1; md_size := 1; md_value := 2 |} ];
          prog_lineMap := []; labelParameters := [] |} /\
  assemble specValidParameters specToString plainClass (Parsed protoInEach)
  = Ok {| instructions := [];
          memoryDefinitions := [ {| md_address := 0; md_size := 1; md_value := 1 |} ];
          prog_lineMap := []; labelParameters := [] |}.
Proof.
  destruct (duplicate_label_fails specValidParameters specToString plainClass twiceInData)
    as (Hdata & _ & _ & _ & _ & _ & Hproto & _).
  destruct (duplicate_label_fails specValidParameters specToString plainClass twiceInText)
    as (_ & Htext & _).
  destruct (duplicate_label_fails specValidParameters specToString plainClass onceInEach)
    as (_ & Heach & _).
  split; [|split; [|split; [|split; [|split]]]].
  - apply (Hdata [dataByte 1 "x" 1] (dataByte 2 "x" 2) [] _ _
             {| pl_name := "x"; pl_local := false |} "x"%string
             eq_refl eq_refl eq_refl eq_refl eq_refl).
  - apply (Htext _ _ [labelOnly 1 "x" false] (labelOnly 2 "x" false) [] _ _
             {| pl_name := "x"; pl_local := false |} "x"%string
             eq_refl eq_refl eq_refl eq_refl eq_refl eq_refl).
  - apply (Heach _ _ [] (labelOnly 2 "x" false) [] _ _
             {| pl_name := "x"; pl_local := false |} "x"%string
             eq_refl eq_refl eq_refl eq_refl eq_refl eq_refl).
  - apply (Hproto {| pl_name := "__proto__"; pl_local := false |} newAssemblyData Data
             eq_refl eq_refl eq_refl).
  - reflexivity.
  - reflexivity.
Defined.
(** * Further properties of the assembler *)

(** ** The label table as a dictionary *)


(** ** Resolving the recorded operands *)

Lemma resolveEach_ok (table : list (string * Label)) (ps : list LabelParameter) :
  forall ps', resolveEach table ps = Ok ps' ->
  length ps' = length ps /\
  forall i p, ps !! i = Some p ->
    exists l, lookupKey (lp_label p) table = Some l /\
      ps' !! i = Some (resolveLabel (label_address l) p).
Proof.
  induction ps as [|a ps IH]; intros ps'; cbn [resolveEach].
  - intros [= <-]. split; [reflexivity|]. intros i p H. destruct i; discriminate.
  - destruct (has (dictionary labelValue table) (lp_label a)); [|discriminate].
    destruct (lookupKey (lp_label a) table) as [l|] eqn:E; [|discriminate].
    destruct (resolveEach table ps) as [rest|e]; cbn [bind]; [|discriminate].
    intros [= <-]. destruct (IH rest eq_refl) as [Hlen Hi].
    split; [cbn; congruence|].
    intros [|i] p H.
    + injection H as <-. exists l. auto.
    + apply Hi. exact H.
Qed.

Lemma resolveEach_defined (table : list (string * Label)) (ps : list LabelParameter) :
  (forall p, p ∈ ps -> exists l, lookupKey (lp_label p) table = Some l) ->
  exists ps', resolveEach table ps = Ok ps'.
Proof.
  induction ps as [|a ps IH]; intros H; cbn [resolveEach]; [eauto|].
  destruct (H a ltac:(left)) as [l Hl].
  rewrite (has_own labelValue _ table l Hl), Hl.
  destruct IH as [rest ->]; [intros p Hp; apply H; right; assumption|].
  cbn [bind]. eauto.
Qed.

Lemma resolveEach_unknown (table : list (string * Label))
    (pre post : list LabelParameter) (p : LabelParameter) :
  (forall x, x ∈ pre -> exists l, lookupKey (lp_label x) table = Some l) ->
  lookupKey (lp_label p) table = None ->
  resolveEach table (pre ++ p :: post)
  = Throw (if has (dictionary labelValue table) (lp_label p)
           then TypeError "Cannot read property 'address' of undefined"
           else assemblyException ("Unknown label " +:+ lp_label p)).
Proof.
  intros Hpre Hp. induction pre as [|a pre IH]; cbn [app resolveEach].
  - rewrite Hp. destruct (has (dictionary labelValue table) (lp_label p)); reflexivity.
  - destruct (Hpre a ltac:(left)) as [l Hl].
    rewrite (has_own labelValue _ table l Hl), Hl.
    rewrite IH by (intros x Hx; apply Hpre; right; assumption). reflexivity.
Qed.

(** X2.  [resolveAddresses] succeeds exactly when the label of every
    recorded operand is a key of the table.  It then leaves the table and
    the number and order of the operands as they were and writes into each
    operand the address of the label it names, whether the label was defined
    before or after the operand was recorded.  Otherwise it fails at the
    first recorded operand whose label is no key: with "Unknown label" when
    [_.has] does not find the label (always so for a label without path
    syntax), and with a [TypeError] when [_.has] takes the label for a path
    into the table, as it does for [g.name], [g.local] and [g.address] when
    [g] is a key. *)
Theorem resolveAddresses_outcome (r : LabelResolver) :
  (forall r', resolveAddresses r = Ok r' ->
     labels r' = labels r /\
     length (unresolvedParameters r') = length (unresolvedParameters r) /\
     forall i p, unresolvedParameters r !! i = Some p ->
       exists l, lookupKey (lp_label p) (labels r) = Some l /\
         unresolvedParameters r' !! i = Some (resolveLabel (label_address l) p)) /\
  ((forall p, p ∈ unresolvedParameters r ->
      exists l, lookupKey (lp_label p) (labels r) = Some l) ->
   exists r', resolveAddresses r = Ok r') /\
  (forall pre p post,
     unresolvedParameters r = pre ++ p :: post ->
     (forall x, x ∈ pre -> exists l, lookupKey (lp_label x) (labels r) = Some l) ->
     lookupKey (lp_label p) (labels r) = None ->
     resolveAddresses r
     = Throw (if hasLabel r (lp_label p)
              then TypeError "Cannot read property 'address' of undefined"
              else assemblyException ("Unknown label " +:+ lp_label p)) /\
     (noPathSyntax (lp_label p) = true ->
      resolveAddresses r = Throw (assemblyException ("Unknown label " +:+ lp_label p))) /\
     (forall g l field,
        lp_label p = dotted g field -> lookupKey g (labels r) = Some l ->
        isName g = true -> In field ["name"; "local"; "address"]%string ->
        resolveAddresses r = Throw (TypeError "Cannot read property 'address' of undefined"))).
Proof.
  split; [|split].
  - intros r'. unfold resolveAddresses.
    destruct (resolveEach (labels r) (unresolvedParameters r)) as [ps|e] eqn:E;
      cbn [bind]; [|discriminate].
    intros [= <-]. cbn [labels unresolvedParameters].
    destruct (resolveEach_ok _ _ _ E) as [Hlen Hi]. auto.
  - intros H. unfold resolveAddresses.
    destruct (resolveEach_defined (labels r) (unresolvedParameters r) H) as [ps ->].
    cbn [bind]. eauto.
  - intros pre p post Hu Hpre Hp.
    assert (H : resolveAddresses r
                = Throw (if hasLabel r (lp_label p)
                         then TypeError "Cannot read property 'address' of undefined"
                         else assemblyException ("Unknown label " +:+ lp_label p))).
    { unfold resolveAddresses. rewrite Hu.
      rewrite (resolveEach_unknown _ pre post p Hpre Hp). reflexivity. }
    split; [exact H|]. split.
    + intros Hs. rewrite H. unfold hasLabel.
      rewrite (has_noPathSyntax labelValue _ (labels r) Hs), Hp. reflexivity.
    + intros g l field Hd Hg Hname Hfield. rewrite H. unfold hasLabel. rewrite Hd in *.
      rewrite (has_dotted labelValue (labels r) g field l Hname), Hp; auto.
      * destruct Hfield as [<-|[<-|[<-|[]]]]; reflexivity.
      * destruct Hfield as [<-|[<-|[<-|[]]]]; reflexivity.
      * destruct Hfield as [<-|[<-|[<-|[]]]]; discriminate.
Qed.

(** A reference to [end] recorded before [end] is defined at address 1
    is resolved to 1; without the definition it is unknown; a reference to
    [x.address] after [x: db 1] raises a [TypeError]. *)
Lemma resolveAddresses_outcome_witness :
  (exists r r', forwardReference = Ok r /\ resolveAddresses r = Ok r' /\
     unresolvedParameters r'
     = [{| lp_size := 4; lp_label := "end"; lp_deref := false; lp_address := Some 1 |}]) /\
  resolveAddresses
    (markUnresolvedParameter
       {| lp_size := 4; lp_label := "end"; lp_deref := false; lp_address := None |}
       newLabelResolver)
  = Throw (assemblyException "Unknown label end") /\
  resolveAddresses pathReference
  = Throw (TypeError "Cannot read property 'address' of undefined").
Proof.
  split; [|split].
  - destruct forwardReference as [r|e] eqn:E; [|vm_compute in E; discriminate].
    destruct (resolveAddresses_outcome r) as (Hok & Hdef & _).
    destruct Hdef as [r' Hr'].
    { vm_compute in E. injection E as <-. intros p Hp.
      apply list_elem_of_singleton in Hp as ->. eexists. reflexivity. }
    exists r, r'. split; [reflexivity|]. split; [exact Hr'|].
    destruct (Hok r' Hr') as (_ & Hlen & Hi).
    vm_compute in E. injection E as <-.
    destruct (Hi 0%nat _ eq_refl) as (l & Hl & H0).
    vm_compute in Hl. injection Hl as <-.
    destruct (unresolvedParameters r') as [|a [|b rest]]; try discriminate.
    cbn in H0. injection H0 as ->. reflexivity.
  - destruct (resolveAddresses_outcome
                (markUnresolvedParameter
                   {| lp_size := 4; lp_label := "end"; lp_deref := false;
                      lp_address := None |} newLabelResolver)) as (_ & _ & Hfail).
    destruct (Hfail [] _ [] eq_refl) as (_ & Hplain & _); [|reflexivity|].
    { intros x Hx. apply elem_of_nil in Hx. contradiction. }
    exact (Hplain eq_refl).
  - destruct (resolveAddresses_outcome pathReference) as (_ & _ & Hfail).
    destruct (Hfail [] _ [] eq_refl) as (_ & _ & Hpath); [|reflexivity|].
    { intros x Hx. apply elem_of_nil in Hx. contradiction. }
    apply (Hpath "x"%string {| label_name := "x"; label_local := false; label_address := 0 |}
                 "address"%string eq_refl eq_refl eq_refl).
    right. right. left. reflexivity.
Defined.
(** ** Encoding operands *)

Lemma getParameterSize_positive (o : Operand) : 0 < getParameterSize o.
Proof.
  destruct o; cbn; try lia. destruct (0 <? size0) eqn:E; [apply Z.ltb_lt in E|]; lia.
Qed.

Lemma loadParameter_build (o : Operand) :
  loadParameter o = build (getParameterSize o) (getInnerParameter o).
Proof. reflexivity. Qed.

(** The builders put the size they are given into the operand they build
    and use it for nothing else. *)
Lemma build_size (size size' : Z) (innerOperand : Operand) (p : EncodedParameter) :
  build size innerOperand = Ok p ->
  build size' innerOperand = Ok (withSize size' p) /\ parameterSize p = Some size.
Proof.
  unfold build. destruct innerOperand as [s v|name|value deref|b i m k|value deref];
    cbn [tag]; try discriminate.
  - unfold parseRegisterParameter.
    destruct (parseRegisterName (Some name)) as [rn|e]; cbn [bind]; [|discriminate].
    destruct (registerId rn) as [id|e]; cbn [bind]; [|discriminate].
    intros [= <-]. split; reflexivity.
  - unfold parseConstantParameter. intros [= <-]. split; reflexivity.
  - unfold parseMemoryParameter.
    destruct (parseRegisterName b) as [bn|e]; cbn [bind]; [|discriminate].
    destruct (registerId bn) as [bid|e]; cbn [bind]; [|discriminate].
    destruct (match i with
              | Some _ => let! indexName := parseRegisterName i in registerId indexName
              | None => Ok 0
              end) as [iid|e]; cbn [bind]; [|discriminate].
    intros [= <-]. split; reflexivity.
Qed.

(** X3.  An operand that is encoded successfully is a register, constant
    or memory operand under any number of casts, never a label operand.
    Without cast, the encoded operand has size 4 and the fields of the
    operand: register names replaced by the ids of the register table, an
    absent index register by 0, absent multiplier and displacement by 0.  A
    cast only changes the size of what the operand it wraps is encoded as: to
    the size of the cast when that is positive, to 4 otherwise; so the size is
    that of the outermost cast, the sizes of the casts inside are ignored,
    and the size is always positive. *)
Theorem loadParameter_encoding (o : Operand) (p : EncodedParameter) :
  loadParameter o = Ok p ->
  (exists size, parameterSize p = Some size /\ 0 < size) /\
  match o with
  | CastOperand castSize inner =>
      exists p', loadParameter inner = Ok p' /\
        p = withSize (if 0 <? castSize then castSize else 4) p'
  | RegOperand name =>
      exists info, lookupKey name REGISTER_INDEX = Some info /\
        p = RegisterParameter 4 (ri_id info)
  | ConstantOperand value deref => p = ConstantParameter 4 value deref
  | MemoryOperand baseRegister indexRegister multiplier constant =>
      exists baseName baseInfo indexId,
        baseRegister = Some baseName /\
        lookupKey baseName REGISTER_INDEX = Some baseInfo /\
        match indexRegister with
        | None => indexId = 0
        | Some indexName =>
            exists indexInfo, lookupKey indexName REGISTER_INDEX = Some indexInfo /\
              indexId = ri_id indexInfo
        end /\
        p = MemoryParameter 4 (ri_id baseInfo) indexId
              (default 0 multiplier) (default 0 constant)
  | LabelOperand _ _ => False
  end.
Proof.
  intros H. split.
  { rewrite loadParameter_build in H.
    destruct (build_size _ 0 _ _ H) as [_ Hs]. exists (getParameterSize o).
    split; [assumption|apply getParameterSize_positive]. }
  destruct o as [castSize inner|name|value deref|b i m k|value deref].
  - rewrite loadParameter_build in H. cbn [getInnerParameter getParameterSize] in H.
    destruct (build_size _ (getParameterSize inner) _ _ H) as [H' _].
    exists (withSize (getParameterSize inner) p). rewrite loadParameter_build.
    split; [exact H'|]. destruct (build_size _ 0 _ _ H) as [_ Hs].
    destruct p; cbn [withSize parameterSize] in *; congruence.
  - unfold loadParameter in H. cbn [getInnerParameter getParameterSize tag] in H.
    unfold parseRegisterParameter in H.
    destruct (let! registerName := parseRegisterName (Some name) in registerId registerName)
      as [id|e] eqn:E.
    + destruct (register_operand_ok _ _ E) as (rn & info & [= <-] & Hinfo & ->).
      exists info. split; [assumption|].
      destruct (parseRegisterName (Some name)) as [rn'|e]; cbn [bind] in *; [|discriminate].
      rewrite E in H. cbn [bind] in H. congruence.
    + destruct (parseRegisterName (Some name)) as [rn'|e']; cbn [bind] in *; [|discriminate].
      rewrite E in H. discriminate.
  - unfold loadParameter in H. cbn in H. congruence.
  - unfold loadParameter in H. cbn [getInnerParameter getParameterSize tag] in H.
    unfold parseMemoryParameter in H.
    destruct (let! registerName := parseRegisterName b in registerId registerName)
      as [bid|e] eqn:Eb.
    + destruct (register_operand_ok _ _ Eb) as (bn & binfo & -> & Hb & ->).
      destruct (parseRegisterName (Some bn)) as [bn'|e]; cbn [bind] in *; [|discriminate].
      rewrite Eb in H. cbn [bind] in H.
      destruct i as [iname|].
      * destruct (let! indexName := parseRegisterName (Some iname) in registerId indexName)
          as [iid|e] eqn:Ei; cbn [bind] in H; [|discriminate].
        destruct (register_operand_ok _ _ Ei) as (inm & iinfo & [= <-] & Hi & ->).
        injection H as <-. exists bn, binfo, (ri_id iinfo).
        repeat (split; [first [reflexivity | assumption | eauto]|]).
        destruct m, k; reflexivity.
      * cbn [bind] in H. injection H as <-. exists bn, binfo, 0.
        repeat (split; [first [reflexivity | assumption]|]).
        destruct m, k; reflexivity.
    + destruct (parseRegisterName b) as [bn'|e']; cbn [bind] in *; [|discriminate].
      rewrite Eb in H. discriminate.
  - unfold loadParameter in H. cbn in H. discriminate.
Qed.

(** The size is that of the outermost cast when it is positive (2 and 1
    below), and 4 when it is not (0 and -3), whatever the casts inside. *)
Lemma loadParameter_encoding_witness :
  loadParameter (CastOperand 0 (CastOperand 2 (RegOperand "AX"))) = Ok (RegisterParameter 4 21) /\
  loadParameter (CastOperand 2 (CastOperand 1 (RegOperand "AX"))) = Ok (RegisterParameter 2 21) /\
  loadParameter (CastOperand (-3) (ConstantOperand 7 true)) = Ok (ConstantParameter 4 7 true) /\
  loadParameter (CastOperand 1 (MemoryOperand (Some "EBX"%string) (Some "ECX"%string)
                                  (Some 4) None))
  = Ok (MemoryParameter 1 24 28 4 0).
Proof.
  assert (Hreg : loadParameter (RegOperand "AX") = Ok (RegisterParameter 4 21)).
  { destruct (loadParameter (RegOperand "AX")) as [p|e] eqn:E; [|vm_compute in E; discriminate].
    destruct (loadParameter_encoding _ _ E) as (_ & info & Hinfo & ->).
    vm_compute in Hinfo. injection Hinfo as <-. reflexivity. }
  split; [|split; [|split]].
  - destruct (loadParameter (CastOperand 0 (CastOperand 2 (RegOperand "AX"))))
      as [p|e] eqn:E; [|vm_compute in E; discriminate].
    destruct (loadParameter_encoding _ _ E) as (_ & p' & Hp' & ->).
    destruct (loadParameter_encoding _ _ Hp') as (_ & p'' & Hp'' & ->).
    rewrite Hreg in Hp''. injection Hp'' as <-. reflexivity.
  - destruct (loadParameter (CastOperand 2 (CastOperand 1 (RegOperand "AX"))))
      as [p|e] eqn:E; [|vm_compute in E; discriminate].
    destruct (loadParameter_encoding _ _ E) as (_ & p' & Hp' & ->).
    destruct (loadParameter_encoding _ _ Hp') as (_ & p'' & Hp'' & ->).
    rewrite Hreg in Hp''. injection Hp'' as <-. reflexivity.
  - destruct (loadParameter (CastOperand (-3) (ConstantOperand 7 true)))
      as [p|e] eqn:E; [|vm_compute in E; discriminate].
    destruct (loadParameter_encoding _ _ E) as (_ & p' & Hp' & ->).
    pose proof (loadParameter_encoding _ _ Hp') as (_ & ->). reflexivity.
  - destruct (loadParameter (CastOperand 1 (MemoryOperand (Some "EBX"%string)
                (Some "ECX"%string) (Some 4) None))) as [p|e] eqn:E;
      [|vm_compute in E; discriminate].
    destruct (loadParameter_encoding _ _ E) as (_ & p' & Hp' & ->).
    destruct (loadParameter_encoding _ _ Hp')
      as (_ & bn & binfo & iid & Hb & Hbi & (iinfo & Hi & ->) & ->).
    injection Hb as <-. vm_compute in Hbi, Hi. injection Hbi as <-. injection Hi as <-.
    reflexivity.
Defined.

(** ** Registers by name and by id *)

(** X4.  Register ids identify the registers of the table: a register
    operand naming a register of the table is encoded as the id of that
    register, and the CPU finds by this id the view it finds by the name
    (same bank, width and offset).  A name that is no key of the table is
    refused: with "Unknown register" when [_.has] does not find it (always so
    for a name without path syntax), and with a [TypeError] when [_.has]
    takes it for a path into the table, as it does for a register name
    followed by a dot and one of the field names [_id], [_bank], [_byteSize]
    and [_index].  For an id that is not in the table [getRegisterByIndex]
    returns [undefined]. *)
Theorem register_id_round_trip (size : Z) (name : string) :
  (forall info, lookupKey name REGISTER_INDEX = Some info ->
     parseRegisterParameter size (RegOperand name) = Ok (RegisterParameter size (ri_id info)) /\
     getRegisterByIndex (ri_id info) = Some (viewOf info) /\
     getRegisterByName name = Some (viewOf info)) /\
  (lookupKey name REGISTER_INDEX = None ->
     parseRegisterParameter size (RegOperand name)
     = Throw (if has registerTable name
              then TypeError "Cannot read property 'id' of undefined"
              else assemblyException ("Unknown register " +:+ name)) /\
     getRegisterByName name = None /\
     (noPathSyntax name = true ->
      parseRegisterParameter size (RegOperand name)
      = Throw (assemblyException ("Unknown register " +:+ name))) /\
     (forall register info field,
        name = dotted register field -> lookupKey register REGISTER_INDEX = Some info ->
        In field ["_id"; "_bank"; "_byteSize"; "_index"]%string ->
        parseRegisterParameter size (RegOperand name)
        = Throw (TypeError "Cannot read property 'id' of undefined"))) /\
  (forall id, (forall info, In info (map snd REGISTER_INDEX) -> ri_id info <> id) ->
     getRegisterByIndex id = None).
Proof.
  split; [|split].
  - intros info Hinfo. split; [|split].
    + unfold parseRegisterParameter.
      pose proof (register_operand_key name info Hinfo) as H.
      destruct (parseRegisterName (Some name)) as [rn|e]; cbn [bind] in *; [|discriminate].
      rewrite H. reflexivity.
    + revert Hinfo. unfold REGISTER_INDEX. cbn [lookupKey].
      repeat (destruct (String.eqb _ name); [intros [= <-]; reflexivity|]).
      discriminate.
    + apply (register_table name info Hinfo).
  - intros Hno.
    assert (H : parseRegisterParameter size (RegOperand name)
                = Throw (if has registerTable name
                         then TypeError "Cannot read property 'id' of undefined"
                         else assemblyException ("Unknown register " +:+ name))).
    { unfold parseRegisterParameter.
      pose proof (register_operand_unknown name Hno) as H.
      destruct (parseRegisterName (Some name)) as [rn|e]; cbn [bind] in *.
      - rewrite H. reflexivity.
      - congruence. }
    split; [exact H|]. split; [|split].
    + unfold getRegisterByName.
      change registerMap with (map (fun '(k, v) => (k, viewOf v)) REGISTER_INDEX).
      rewrite lookupKey_dictionary, Hno. reflexivity.
    + intros Hs. rewrite H. unfold registerTable.
      rewrite (has_noPathSyntax registerInfoValue name REGISTER_INDEX Hs), Hno. reflexivity.
    + intros register info field -> Hreg Hfield. rewrite H. unfold registerTable.
      assert (Hname : isName register = true).
      { revert Hreg. unfold REGISTER_INDEX. cbn [lookupKey].
        repeat (match goal with
                | |- context [String.eqb ?k register] =>
                    let E := fresh "E" in
                    destruct (String.eqb k register) eqn:E;
                    [apply String.eqb_eq in E; subst register; intros _; reflexivity
                    |clear E]
                end).
        discriminate. }
      rewrite (has_dotted registerInfoValue REGISTER_INDEX register field info Hname), Hno.
      * destruct Hfield as [<-|[<-|[<-|[<-|[]]]]]; reflexivity.
      * destruct Hfield as [<-|[<-|[<-|[<-|[]]]]]; reflexivity.
      * destruct Hfield as [<-|[<-|[<-|[<-|[]]]]]; discriminate.
      * assumption.
  - intros id Hid. unfold getRegisterByIndex.
    destruct (findKey (fun reg => ri_id reg =? id) REGISTER_INDEX) as [key|] eqn:E;
      [|reflexivity].
    exfalso. revert E. unfold REGISTER_INDEX. cbn [findKey].
    repeat (match goal with
            | |- context [ri_id (registerInfo ?i ?b ?s ?x) =? id] =>
                let E := fresh "E" in
                destruct (ri_id (registerInfo i b s x) =? id) eqn:E;
                [apply Z.eqb_eq in E; intros _;
                 refine (Hid (registerInfo i b s x) _ E);
                 cbn; repeat (first [left; reflexivity | right])|]
            end).
    discriminate.
Qed.

Lemma register_id_round_trip_witness :
  parseRegisterParameter 4 (RegOperand "CH") = Ok (RegisterParameter 4 30) /\
  getRegisterByIndex 30 = getRegisterByName "CH" /\
  parseRegisterParameter 4 (RegOperand "EDX")
  = Throw (assemblyException "Unknown register EDX") /\
  parseRegisterParameter 4 (RegOperand "EAX._id")
  = Throw (TypeError "Cannot read property 'id' of undefined") /\
  getRegisterByIndex 4 = None.
Proof.
  destruct (register_id_round_trip 4 "CH") as (Hok & _ & _).
  destruct (Hok (registerInfo 30 6 1 1) eq_refl) as (H1 & H2 & H3).
  destruct (register_id_round_trip 4 "EDX") as (_ & Hbad & _).
  destruct (register_id_round_trip 4 "EAX._id") as (_ & Hpath & Hid).
  split; [exact H1|]. split; [rewrite H3; exact H2|].
  split; [exact (proj1 (proj2 (proj2 (Hbad eq_refl))) eq_refl)|].
  split.
  - apply (proj2 (proj2 (proj2 (Hpath eq_refl))) "EAX"%string EAX_info "_id"%string
             eq_refl eq_refl).
    left. reflexivity.
  - apply Hid. cbn. intros info H.
    repeat (destruct H as [<-|H]; [discriminate|]). destruct H.
Defined.

(** ** The layout of the data segment *)

Lemma chained_app (a b c : Z) (l1 l2 : list MemoryDefinition) :
  chained a l1 b -> chained b l2 c -> chained a (l1 ++ l2) c.
Proof.
  revert a. induction l1 as [|m l1 IH]; intros a; cbn [chained app].
  - intros ->. auto.
  - intros [Hm H1] H2. split; [assumption|]. apply IH; assumption.
Qed.

Lemma defineCharacters_layout (sz : Z) (cs : list ascii) :
  forall a, chained a (fst (defineCharacters sz cs a)) (snd (defineCharacters sz cs a)) /\
    map md_value (fst (defineCharacters sz cs a))
    = map (fun ch => Z.of_nat (nat_of_ascii ch)) cs /\
    map md_size (fst (defineCharacters sz cs a)) = map (fun _ => sz) cs.
Proof.
  induction cs as [|c cs IH]; intros a; cbn [defineCharacters fst snd map chained];
    [auto|].
  specialize (IH (a + sz)). destruct (defineCharacters sz cs (a + sz)) as [ds final].
  cbn [fst snd map chained md_address md_size md_value] in *.
  destruct IH as (H1 & H2 & H3). rewrite H2, H3. auto.
Qed.

Lemma defineConstants_layout (sz : Z) (cs : list DataConstant) :
  forall a, chained a (fst (defineConstants sz cs a)) (snd (defineConstants sz cs a)) /\
    map md_value (fst (defineConstants sz cs a)) = flat_map constantValues cs /\
    map md_size (fst (defineConstants sz cs a))
    = map (fun _ => sz) (flat_map constantValues cs).
Proof.
  induction cs as [|[chars|v] cs IH]; intros a;
    cbn [defineConstants fst snd map chained flat_map constantValues]; [auto| |].
  - pose proof (defineCharacters_layout sz chars a) as (C1 & C2 & C3).
    destruct (defineCharacters sz chars a) as [ds next]. cbn [fst snd] in *.
    specialize (IH next). destruct (defineConstants sz cs next) as [ds' final].
    cbn [fst snd] in *. destruct IH as (H1 & H2 & H3).
    split; [eapply chained_app; eassumption|].
    rewrite !map_app, C2, C3, H2, H3, !map_map. auto.
  - specialize (IH (a + sz)). destruct (defineConstants sz cs (a + sz)) as [ds' final].
    cbn [fst snd map chained md_address md_size md_value app] in *.
    destruct IH as (H1 & H2 & H3). rewrite H2, H3. auto.
Qed.

Lemma assembleDataLines_state (lines : list (Located DataLine)) :
  forall acc d acc' d',
  assembleDataLines lines acc d = Ok (acc', d') ->
  exists new added,
    acc' = acc ++ new /\
    chained (dataAddress d) new (dataAddress d') /\
    map md_value new = flat_map lineValues lines /\
    map md_size new = flat_map lineSizes lines /\
    textAddress d' = textAddress d /\ lineMap d' = lineMap d /\
    labels (labelResolver d') = labels (labelResolver d) ++ added /\
    unresolvedParameters (labelResolver d') = unresolvedParameters (labelResolver d).
Proof.
  induction lines as [|l lines IH]; intros acc d acc' d'; cbn [assembleDataLines flat_map].
  - intros [= <- <-]. exists [], []. rewrite !app_nil_r. cbn. auto 10.
  - unfold assembleMemoryDefinitions.
    destruct (match dl_label (line l) with
              | Some label => assembleLabel label d Data
              | None => Ok d
              end) as [d1|e] eqn:E; cbn [bind]; [|discriminate].
    destruct (optional_label_state _ _ _ _ E) as (T1 & D1 & M1 & U1 & a1 & L1).
    unfold lineValues at 1, lineSizes at 1.
    destruct (dl_size (line l)) as [sz|].
    + pose proof (defineConstants_layout sz (dl_constants (line l)) (dataAddress d1))
        as (C1 & C2 & C3).
      destruct (defineConstants sz (dl_constants (line l)) (dataAddress d1))
        as [defs final]. cbn [fst snd] in *.
      intros H. destruct (IH _ _ _ _ H) as (new & a2 & -> & Hc & Hv & Hs & T2 & M2 & L2 & U2).
      cbn [setDataAddress dataAddress textAddress lineMap labelResolver] in *.
      exists (defs ++ new), (a1 ++ a2). rewrite app_assoc. split; [reflexivity|].
      split; [eapply chained_app; [rewrite <- D1; eassumption|assumption]|].
      rewrite !map_app, C2, C3, Hv, Hs, L2, L1, app_assoc.
      repeat (split; [first [reflexivity | congruence]|]). congruence.
    + intros H. rewrite app_nil_r in H.
      destruct (IH _ _ _ _ H) as (new & a2 & -> & Hc & Hv & Hs & T2 & M2 & L2 & U2).
      exists new, (a1 ++ a2). split; [reflexivity|].
      split; [rewrite <- D1; assumption|].
      rewrite Hv, Hs, L2, L1, app_assoc. cbn [app].
      repeat (split; [first [reflexivity | congruence]|]). congruence.
Qed.

(** X5.  The data pass lays the definitions out without gap: the first one
    is at the data cursor the pass starts with, each next one at the address
    of the one before plus its size, and the cursor ends just behind the
    last one.  A line with an element size produces one definition of that
    size per number and per character of a string (holding the character
    code), in order; a line without element size produces none.  The pass
    leaves the text cursor and the line map as they were. *)
Theorem data_pass_layout (lines : list (Located DataLine)) (d d' : AssemblyData)
    (definitions : list MemoryDefinition) :
  assembleDataSegment lines d = Ok (definitions, d') ->
  chained (dataAddress d) definitions (dataAddress d') /\
  map md_value definitions = flat_map lineValues lines /\
  map md_size definitions = flat_map lineSizes lines /\
  textAddress d' = textAddress d /\ lineMap d' = lineMap d.
Proof.
  unfold assembleDataSegment. intros H.
  destruct (assembleDataLines_state _ _ _ _ _ H)
    as (new & added & Hn & Hc & Hv & Hs & Ht & Hm & _ & _).
  cbn [app] in Hn. subst new. auto.
Qed.

Lemma data_pass_layout_witness :
  exists d', assembleDataSegment twoDataLines newAssemblyData
    = Ok ([ {| md_address := 0; md_size := 1; md_value := 72 |};
            {| md_address := 1; md_size := 1; md_value := 105 |};
            {| md_address := 2; md_size := 1; md_value := 0 |};
            {| md_address := 3; md_size := 4; md_value := 7 |} ], d') /\
    dataAddress d' = 7.
Proof.
  destruct (assembleDataSegment twoDataLines newAssemblyData) as [[defs d']|e] eqn:E;
    [|vm_compute in E; discriminate].
  destruct (data_pass_layout _ _ _ _ E) as (Hc & Hv & Hs & _).
  exists d'. cbn in Hv, Hs.
  destruct defs as [|[a1 s1 v1] [|[a2 s2 v2] [|[a3 s3 v3] [|[a4 s4 v4] [|? ?]]]]];
    try discriminate.
  cbn in Hv, Hs, Hc. injection Hv as -> -> -> ->. injection Hs as -> -> -> ->.
  destruct Hc as (-> & -> & -> & -> & <-). split; reflexivity.
Defined.

(** ** The layout of the text segment *)


Section TextLayout.

Variable valid : Instruction -> list (list ParameterTag).
Variable display : Instruction -> string.
Variable members : Instruction -> list (string * Value).

Lemma assembleInstruction_state (l : TextLine) (d d' : AssemblyData)
    (encoded : option EncodedInstruction) :
  assembleInstruction valid display members l d = Ok (encoded, d') ->
  textAddress d' = textAddress d /\ dataAddress d' = dataAddress d /\
  lineMap d' = lineMap d /\
  unresolvedParameters (labelResolver d') = unresolvedParameters (labelResolver d) /\
  (exists added, labels (labelResolver d') = labels (labelResolver d) ++ added) /\
  match tl_instruction l with
  | Some i => exists e, encoded = Some e /\ parseInstruction valid display members i = Ok e
  | None => encoded = None
  end.
Proof.
  unfold assembleInstruction.
  destruct (match tl_label l with
            | Some label => assembleLabel label d Text
            | None => Ok d
            end) as [d1|e] eqn:E; cbn [bind]; [|discriminate].
  destruct (optional_label_state _ _ _ _ E) as (T1 & D1 & M1 & U1 & L1).
  destruct (tl_instruction l) as [i|].
  - destruct (parseInstruction valid display members i) as [enc|e]; cbn [bind]; [|discriminate].
    intros [= <- <-]. repeat (split; [assumption|]). eauto.
  - intros [= <- <-]. auto 10.
Qed.

Lemma assembleTextLines_state (lines : list (Located TextLine)) :
  forall acc d acc' d',
  assembleTextLines valid display members lines acc d = Ok (acc', d') ->
  exists new added,
    acc' = acc ++ new /\
    Forall2 (encodes valid display members) (instructionLines lines) new /\
    textAddress d' = textAddress d + Z.of_nat (length new) /\
    lineMap d' = lineMap d ++ numbered (textAddress d) (instructionLines lines) /\
    dataAddress d' = dataAddress d /\
    labels (labelResolver d') = labels (labelResolver d) ++ added /\
    unresolvedParameters (labelResolver d') = unresolvedParameters (labelResolver d).
Proof.
  induction lines as [|l lines IH]; intros acc d acc' d'; cbn [assembleTextLines].
  - intros [= <- <-]. exists [], []. rewrite !app_nil_r, Z.add_0_r. cbn.
    repeat (split; [first [reflexivity | constructor]|]). reflexivity.
  - destruct (assembleInstruction valid display members (line l) d) as [[encoded d1]|e] eqn:E;
      [|discriminate].
    destruct (assembleInstruction_state _ _ _ _ E) as (T1 & D1 & M1 & U1 & (a1 & L1) & Hi).
    unfold instructionLines. cbn [List.filter]. fold (instructionLines lines).
    destruct (tl_instruction (line l)) as [i|] eqn:Ei.
    + destruct Hi as (enc & -> & Henc). intros H.
      destruct (IH _ _ _ _ H) as (new & a2 & -> & Hf & T2 & M2 & D2 & L2 & U2).
      cbn [advanceText textAddress lineMap dataAddress labelResolver] in *.
      exists (enc :: new), (a1 ++ a2). rewrite <- app_assoc. split; [reflexivity|].
      split; [constructor; [exists i; auto|assumption]|].
      cbn [length numbered]. rewrite T2, M2, D2, L2, U2, L1, T1, M1, D1, U1.
      unfold mapLine. rewrite <- !app_assoc. cbn [app].
      split; [lia|]. split; [reflexivity|]. split; [reflexivity|]. split; reflexivity.
    + subst encoded. intros H.
      destruct (IH _ _ _ _ H) as (new & a2 & -> & Hf & T2 & M2 & D2 & L2 & U2).
      exists new, (a1 ++ a2). split; [reflexivity|]. split; [assumption|].
      rewrite T2, M2, D2, L2, U2, L1, T1, M1, D1, U1, <- app_assoc.
      repeat (split; [reflexivity|]). reflexivity.
Qed.

(** X6.  The text pass emits one encoded instruction per line that carries
    an instruction, in the order of the lines, and nothing for the other
    lines.  The text cursor advances by the number of instructions emitted,
    so instruction addresses are consecutive from the cursor the pass starts
    with, and the line map gains, for each instruction, its address paired
    with the line number of the grammar minus 1.  The data cursor is left as
    it was. *)
Theorem text_pass_layout (lines : list (Located TextLine)) (d d' : AssemblyData)
    (encoded : list EncodedInstruction) :
  assembleTextSegment valid display members lines d = Ok (encoded, d') ->
  Forall2 (encodes valid display members) (instructionLines lines) encoded /\
  textAddress d' = textAddress d + Z.of_nat (length (instructionLines lines)) /\
  lineMap d' = lineMap d ++ numbered (textAddress d) (instructionLines lines) /\
  dataAddress d' = dataAddress d.
Proof.
  unfold assembleTextSegment. intros H.
  destruct (assembleTextLines_state _ _ _ _ _ H)
    as (new & added & Hn & Hf & Ht & Hm & Hd & _ & _).
  cbn [app] in Hn. subst new. rewrite (Forall2_length _ _ _ Hf). auto.
Qed.


End TextLayout.

Lemma text_pass_layout_witness :
  exists encoded d',
    assembleTextSegment specValidParameters specToString plainClass (pp_text movInt) newAssemblyData
    = Ok (encoded, d') /\
    length encoded = 2%nat /\ textAddress d' = 2 /\ lineMap d' = [(0, 1); (1, 3)].
Proof.
  destruct (assembleTextSegment specValidParameters specToString plainClass (pp_text movInt)
              newAssemblyData) as [[encoded d']|e] eqn:E; [|vm_compute in E; discriminate].
  destruct (text_pass_layout _ _ _ _ _ _ _ E) as (Hf & Ht & Hm & _).
  exists encoded, d'. split; [reflexivity|].
  split; [rewrite <- (Forall2_length _ _ _ Hf); reflexivity|].
  split; [exact Ht|exact Hm].
Defined.


(** ** Encoding instructions *)

Lemma mapResult_Forall2 {A B : Type} (f : A -> Result B) (l : list A) :
  forall ys, mapResult f l = Ok ys <-> Forall2 (fun x y => f x = Ok y) l ys.
Proof.
  induction l as [|a l IH]; intros ys; cbn [mapResult].
  - split; [intros [= <-]; constructor|]. intros H. inversion H. reflexivity.
  - split.
    + destruct (f a) as [y|e] eqn:Ea; cbn [bind]; [|discriminate].
      destruct (mapResult f l) as [ys'|e] eqn:El; cbn [bind]; [|discriminate].
      intros [= <-]. constructor; [assumption|]. apply IH. reflexivity.
    + intros H. inversion H as [|? y ? ys' Hy Hys]; subst.
      rewrite Hy. cbn [bind]. apply IH in Hys. rewrite Hys. reflexivity.
Qed.

Lemma classic_in (m : list ParameterTag) (ms : list (list ParameterTag)) :
  In m ms \/ ~ In m ms.
Proof.
  destruct (In_dec (fun a b : list ParameterTag => decide (a = b)) m ms); auto.
Qed.

Section Instructions.

Variable valid : Instruction -> list (list ParameterTag).
Variable display : Instruction -> string.
Variable members : Instruction -> list (string * Value).

Lemma checkParameterCompatibility_ok (c : Instruction) (operands : list Operand) :
  (In (parameterMask operands) (valid c) ->
   checkParameterCompatibility valid display c operands = Ok tt) /\
  (~ In (parameterMask operands) (valid c) ->
   checkParameterCompatibility valid display c operands
   = Throw (assemblyException
              ("Unknown parameter combination for instruction " +:+ display c))).
Proof.
  unfold checkParameterCompatibility. fold (parameterMask operands).
  destruct (existsb (fun validMask => bool_decide (parameterMask operands = validMask))
                    (valid c)) eqn:E.
  - split; [reflexivity|]. intros Hno. exfalso. apply Hno.
    apply existsb_exists in E as (m & Hm & Heq). apply bool_decide_eq_true in Heq.
    subst. assumption.
  - split; [|reflexivity]. intros Hin. exfalso.
    assert (existsb (fun validMask => bool_decide (parameterMask operands = validMask))
                    (valid c) = true); [|congruence].
    apply existsb_exists. exists (parameterMask operands). split; [assumption|].
    apply bool_decide_eq_true. reflexivity.
Qed.

(** X8.  An instruction is encoded exactly when its mnemonic is one of
    MOV, JMP and INT, the kinds of its operands (casts removed) form one of
    the valid masks of its class, and every operand can be encoded; the
    encoded instruction has that class and the encoded operands in the order
    of the operands.  A mnemonic that is no key of the mapping is refused:
    with "Unknown instruction type" followed by the [type] field of the parsed
    instruction (not its name) when [_.has] does not find it (always so for a
    mnemonic without path syntax), and with a [TypeError] when [_.has] takes
    it for a path into the mapping, as it does for a mnemonic followed by a
    dot and the name of a property of its class.  An operand combination that
    is not valid is refused before any operand is encoded, whatever the
    operands are. *)
Theorem parseInstruction_outcome (i : ParsedInstruction) :
  (forall encoded,
     parseInstruction valid display members i = Ok encoded <->
     exists c, lookupKey (pi_name i) InstructionMapping = Some c /\
       ei_instruction encoded = c /\
       In (parameterMask (pi_operands i)) (valid c) /\
       Forall2 (fun o p => loadParameter o = Ok p) (pi_operands i) (ei_parameters encoded)) /\
  (lookupKey (pi_name i) InstructionMapping = None ->
   parseInstruction valid display members i
   = Throw (if has (instructionTable members) (pi_name i)
            then TypeError "undefined is not a constructor"
            else assemblyException
                   ("Unknown instruction type " +:+ default "undefined"%string (pi_type i))) /\
   (noPathSyntax (pi_name i) = true ->
    parseInstruction valid display members i
    = Throw (assemblyException
               ("Unknown instruction type " +:+ default "undefined"%string (pi_type i)))) /\
   (forall mnemonic c member v,
      pi_name i = dotted mnemonic member ->
      lookupKey mnemonic InstructionMapping = Some c ->
      lookupKey member (members c) = Some v ->
      isName member = true -> member <> EmptyString ->
      parseInstruction valid display members i
      = Throw (TypeError "undefined is not a constructor"))) /\
  (forall c, lookupKey (pi_name i) InstructionMapping = Some c ->
     ~ In (parameterMask (pi_operands i)) (valid c) ->
     parseInstruction valid display members i
     = Throw (assemblyException
                ("Unknown parameter combination for instruction " +:+ display c))).
Proof.
  split; [|split].
  - intros encoded. unfold parseInstruction, loadParameters.
    destruct (lookupKey (pi_name i) InstructionMapping) as [c|] eqn:Ec.
    + rewrite (has_own _ _ _ c Ec).
      destruct (checkParameterCompatibility_ok c (pi_operands i)) as [Hyes Hno].
      destruct (classic_in (parameterMask (pi_operands i)) (valid c)) as [Hin|Hout].
      * rewrite (Hyes Hin). cbn [bind].
        destruct (mapResult loadParameter (pi_operands i)) as [ps|e] eqn:E; cbn [bind].
        -- split.
           ++ intros [= <-]. exists c. cbn. repeat (split; [first [reflexivity|assumption]|]).
              apply mapResult_Forall2. assumption.
           ++ intros (c' & [= <-] & Hc & _ & Hf). apply mapResult_Forall2 in Hf.
              rewrite E in Hf. injection Hf as Hps. destruct encoded. cbn in *. congruence.
        -- split; [discriminate|]. intros (c' & _ & _ & _ & Hf).
           apply mapResult_Forall2 in Hf. congruence.
      * rewrite (Hno Hout). cbn [bind]. split; [discriminate|].
        intros (c' & [= <-] & _ & Hin & _). contradiction.
    + split; [|intros (c' & Hc & _); discriminate].
      destruct (has _ (pi_name i)); discriminate.
  - intros Hno.
    assert (H : parseInstruction valid display members i
                = Throw (if has (instructionTable members) (pi_name i)
                         then TypeError "undefined is not a constructor"
                         else assemblyException
                                ("Unknown instruction type "
                                 +:+ default "undefined"%string (pi_type i)))).
    { unfold parseInstruction, instructionTable. rewrite Hno.
      destruct (has _ (pi_name i)); reflexivity. }
    split; [exact H|]. split.
    + intros Hs. rewrite H. unfold instructionTable.
      rewrite (has_noPathSyntax _ _ InstructionMapping Hs), Hno. reflexivity.
    + intros mnemonic c member v Hd Hc Hm Hname Hne. rewrite H. unfold instructionTable.
      rewrite Hd in *.
      assert (Hmn : isName mnemonic = true).
      { revert Hc. unfold InstructionMapping. cbn [lookupKey].
        repeat (match goal with
                | |- context [String.eqb ?k mnemonic] =>
                    let E := fresh "E" in
                    destruct (String.eqb k mnemonic) eqn:E;
                    [apply String.eqb_eq in E; subst mnemonic; intros _; reflexivity
                    |clear E]
                end).
        discriminate. }
      rewrite (has_dotted _ InstructionMapping mnemonic member c Hmn Hname Hne Hc), Hno.
      cbn [matches orb hasOwnProperty]. rewrite Hm. reflexivity.
  - intros c Hc Hout. unfold parseInstruction, loadParameters.
    rewrite (has_own _ _ _ c Hc), Hc.
    rewrite (proj2 (checkParameterCompatibility_ok c (pi_operands i)) Hout). reflexivity.
Qed.

End Instructions.

(** [MOV EAX, 5] is encoded; the mnemonic [ADD] is unknown; [MOV.name] is
    taken for the name of the class [Move] and raises; [INT] does not take a
    register. *)
Lemma parseInstruction_outcome_witness :
  parseInstruction specValidParameters specToString plainClass
    {| pi_type := None; pi_name := "MOV";
       pi_operands := [RegOperand "EAX"; ConstantOperand 5 false] |}
  = Ok {| ei_instruction := Move;
          ei_parameters := [RegisterParameter 4 20; ConstantParameter 4 5 false] |} /\
  parseInstruction specValidParameters specToString plainClass
    {| pi_type := None; pi_name := "ADD"; pi_operands := [] |}
  = Throw (assemblyException "Unknown instruction type undefined") /\
  parseInstruction specValidParameters specToString plainClass
    {| pi_type := Some "Instruction"%string; pi_name := "MOV.name"; pi_operands := [] |}
  = Throw (TypeError "undefined is not a constructor") /\
  parseInstruction specValidParameters specToString plainClass
    {| pi_type := None; pi_name := "INT"; pi_operands := [RegOperand "nowhere"] |}
  = Throw (assemblyException "Unknown parameter combination for instruction INT").
Proof.
  split; [|split; [|split]].
  - apply (proj1 (parseInstruction_outcome specValidParameters specToString plainClass
                    {| pi_type := None; pi_name := "MOV";
                       pi_operands := [RegOperand "EAX"; ConstantOperand 5 false] |})).
    exists Move. split; [reflexivity|]. split; [reflexivity|]. split; [cbn; auto|].
    repeat constructor.
  - destruct (parseInstruction_outcome specValidParameters specToString plainClass
                {| pi_type := None; pi_name := "ADD"; pi_operands := [] |}) as (_ & H & _).
    exact (proj1 (proj2 (H eq_refl)) eq_refl).
  - destruct (parseInstruction_outcome specValidParameters specToString plainClass
                {| pi_type := Some "Instruction"%string; pi_name := "MOV.name";
                   pi_operands := [] |}) as (_ & H & _).
    apply (proj2 (proj2 (H eq_refl)) "MOV"%string Move "name"%string (VString "Move")
             eq_refl eq_refl eq_refl eq_refl).
    discriminate.
  - apply (proj2 (proj2 (parseInstruction_outcome specValidParameters specToString plainClass
                           {| pi_type := None; pi_name := "INT";
                              pi_operands := [RegOperand "nowhere"] |}))
             Interrupt eq_refl).
    cbn. intros [H|[]]. discriminate.
Defined.

(** ** What a run of the assembler returns *)

Lemma loadParameter_notLabelRef (o : Operand) (p : EncodedParameter) :
  loadParameter o = Ok p -> notLabelRef p.
Proof.
  unfold loadParameter, notLabelRef.
  destruct (getInnerParameter o) as [s v|name|value deref|b i m k|value deref];
    cbn [tag]; try discriminate.
  - unfold parseRegisterParameter.
    destruct (parseRegisterName (Some name)); cbn [bind]; [|discriminate].
    destruct (registerId a); cbn [bind]; [|discriminate]. intros [= <-]. discriminate.
  - intros [= <-]. discriminate.
  - unfold parseMemoryParameter.
    destruct (parseRegisterName b); cbn [bind]; [|discriminate].
    destruct (registerId a); cbn [bind]; [|discriminate].
    destruct (match i with
              | Some _ => let! indexName := parseRegisterName i in registerId indexName
              | None => Ok 0
              end); cbn [bind]; [|discriminate].
    intros [= <-]. discriminate.
Qed.









Section Outcome.

Variable valid : Instruction -> list (list ParameterTag).
Variable display : Instruction -> string.
Variable members : Instruction -> list (string * Value).





(** X10.  The assembly succeeds exactly when both passes succeed (the
    resolution at the end cannot fail).  The image it returns holds the
    instructions of the lines that carry one, in order and at the addresses
    0, 1, 2, ...; the line map pairs each address with the line number of its
    instruction minus 1; the memory definitions are those of the data lines,
    laid out without gap from address 0; no encoded operand is a label
    operand and no label operand is recorded. *)
Theorem assemble_image (p : ParsedProgram) :
  ((exists image, assemble valid display members (Parsed p) = Ok image) <->
   (exists mds d0 ins d,
      assembleDataSegment (pp_data p) newAssemblyData = Ok (mds, d0) /\
      assembleTextSegment valid display members (pp_text p) d0 = Ok (ins, d))) /\
  (forall image, assemble valid display members (Parsed p) = Ok image ->
     Forall2 (encodes valid display members) (instructionLines (pp_text p)) (instructions image) /\
     prog_lineMap image = numbered 0 (instructionLines (pp_text p)) /\
     map md_value (memoryDefinitions image) = flat_map lineValues (pp_data p) /\
     map md_size (memoryDefinitions image) = flat_map lineSizes (pp_data p) /\
     (exists final, chained 0 (memoryDefinitions image) final) /\
     labelParameters image = [] /\
     Forall (fun i => Forall notLabelRef (ei_parameters i)) (instructions image)).
Proof.
  unfold assemble, assembleDataSegment, assembleTextSegment.
  destruct (assembleDataLines (pp_data p) [] newAssemblyData) as [[mds d0]|e0] eqn:Ed;
    cbn [bind].
  2: { split; [|discriminate]. split; [intros [? ?]; discriminate|].
       intros (? & ? & ? & ? & ? & _). discriminate. }
  destruct (assembleTextLines valid display members (pp_text p) [] d0) as [[ins d]|e1] eqn:Et;
    cbn [bind].
  2: { split; [|discriminate]. split; [intros [? ?]; discriminate|].
       intros (? & ? & ? & ? & [= <- <-] & ?). congruence. }
  destruct (assembleDataLines_state _ _ _ _ _ Ed)
    as (new0 & _ & Hn0 & C0 & V0 & S0 & T0 & M0 & _ & U0).
  destruct (assembleTextLines_state _ _ _ _ _ _ _ _ Et)
    as (new1 & _ & Hn1 & F1 & _ & M1 & _ & _ & U1).
  cbn [app] in Hn0, Hn1. subst new0 new1.
  unfold resolveAddresses. rewrite U1, U0. cbn [newAssemblyData labelResolver
    newLabelResolver unresolvedParameters resolveEach bind].
  split; [split; eauto 10|].
  intros image [= <-]. cbn [instructions memoryDefinitions prog_lineMap labelParameters].
  split; [assumption|]. rewrite M1, M0, T0. cbn [newAssemblyData lineMap textAddress app].
  repeat (split; [first [reflexivity | assumption]|]).
  split; [eauto|]. split; [reflexivity|].
  clear - F1. induction F1 as [|l enc ls encs (i & _ & Hi) _ IH]; constructor; [|assumption].
  unfold parseInstruction, loadParameters in Hi.
  destruct (has _ (pi_name i)); [|discriminate].
  destruct (lookupKey (pi_name i) InstructionMapping) as [c|]; [|discriminate].
  destruct (checkParameterCompatibility valid display c (pi_operands i)); cbn [bind] in Hi;
    [|discriminate].
  destruct (mapResult loadParameter (pi_operands i)) as [ps|e] eqn:E; cbn [bind] in Hi;
    [|discriminate].
  injection Hi as <-. cbn [ei_parameters].
  apply mapResult_Forall2 in E. clear - E.
  induction E as [|o q os qs Hq _ IH]; constructor; [|assumption].
  eapply loadParameter_notLabelRef. exact Hq.
Qed.

End Outcome.


Lemma assemble_image_witness :
  exists image, assemble specValidParameters specToString plainClass (Parsed movInt) = Ok image /\
    prog_lineMap image = [(0, 1); (1, 3)] /\ labelParameters image = [] /\
    length (instructions image) = 2%nat.
Proof.
  destruct (assemble_image specValidParameters specToString plainClass movInt) as [Hiff Himg].
  destruct (proj2 Hiff) as [image Himage].
  { eexists _, _, _, _. split; reflexivity. }
  exists image. split; [assumption|].
  destruct (Himg image Himage) as (Hf & Hm & _ & _ & _ & Hl & _).
  split; [exact Hm|]. split; [exact Hl|].
  rewrite <- (Forall2_length _ _ _ Hf). reflexivity.
Defined.

(** * Further properties of the CPU *)

(** ** Breakpoints *)

Lemma filterTruthy_In (l : list (option Z)) (a : Z) :
  In a (filterTruthy l) <-> a <> 0 /\ In (Some a) l.
Proof.
  induction l as [|[n|] l IH]; cbn [filterTruthy truthy In].
  - tauto.
  - destruct (n =? 0) eqn:E; cbn [negb].
    + apply Z.eqb_eq in E. subst. rewrite IH. split; [tauto|].
      intros [Ha [H|H]]; [congruence|tauto].
    + apply Z.eqb_neq in E. cbn [In]. rewrite IH. split.
      * intros [->|[Ha H]]; auto.
      * intros [Ha [[= ->]|H]]; auto.
  - rewrite IH. split; [tauto|]. intros [Ha [H|H]]; [discriminate|tauto].
Qed.

(** X11.  The breakpoint set that the setter stores holds exactly the
    addresses, other than 0, that the line map gives for the lines it is
    passed: a line without instruction contributes nothing, and neither does
    the line of the instruction at address 0.  The setter changes nothing
    else of the CPU. *)
Theorem set_breakpoints_addresses (rows : list Z) (c : CPU) :
  exists stored,
    set_breakpoints rows c = setBreakpoints (Some stored) c /\
    forall a, In a stored <->
      a <> 0 /\ exists row, In row rows /\
        getAddressByLine (prog_lineMap (program c)) row = Some a.
Proof.
  eexists. split; [reflexivity|]. intros a. rewrite filterTruthy_In, in_map_iff.
  split.
  - intros [Ha (row & Hrow & Hin)]. eauto.
  - intros [Ha (row & Hin & Hrow)]. eauto.
Qed.

Lemma hasBreakpoint_same (c c' : CPU) :
  registers c' = registers c -> breakpoints c' = breakpoints c ->
  hasBreakpoint c' = hasBreakpoint c.
Proof.
  intros Hr Hb. unfold hasBreakpoint, eip, getValue, blockOf. rewrite Hr, Hb. reflexivity.
Qed.

(** X12.  The two calls at a breakpoint.  When the program is not
    finished, the address in EIP is in the breakpoint set and the CPU has not
    just stopped there, [step] executes nothing: registers, memory, flags,
    program and breakpoints stay as they were, the CPU is paused (running is
    false, the scheduled timer cleared) and marked as stopped on a
    breakpoint.  The next [step] then clears the mark and executes the
    instruction at that address. *)
Theorem breakpoint_two_calls (execute : EncodedInstruction -> CPU -> Result (Z * CPU))
    (c : CPU) :
  isFinished c = Ok false -> hasBreakpoint c = Ok true -> stoppedOnBreakpoint c = false ->
  exists c1,
    step execute c = Ok c1 /\
    registers c1 = registers c /\ memory c1 = memory c /\ status c1 = status c /\
    program c1 = program c /\ breakpoints c1 = breakpoints c /\
    running c1 = false /\ stoppedOnBreakpoint c1 = true /\
    events c1 = events c ++ cancellation c /\
    step execute c1 = executeOneInstruction execute (setStoppedOnBreakpoint false c1).
Proof.
  intros Hfin Hbp Hstop. unfold step at 1. rewrite Hfin. cbn [bind]. rewrite Hbp, Hstop.
  cbn [negb]. set (c0 := setStoppedOnBreakpoint true c).
  destruct (pause_frame c0) as (H1 & H2 & H3 & H4 & H5 & H6 & H7 & H8).
  exists (pause c0). split; [reflexivity|].
  repeat (split; [assumption|]). split; [rewrite events_pause; reflexivity|].
  unfold step.
  rewrite (isFinished_same c (pause c0)) by assumption. rewrite Hfin. cbn [bind].
  rewrite (hasBreakpoint_same c (pause c0)) by assumption. rewrite Hbp, H5. reflexivity.
Qed.

(** A breakpoint on the second line of [MOV EAX, 5 / INT 0]: the first
    [step] executes the first instruction, the second one stops at address
    1, the third one executes the instruction there. *)
Lemma breakpoint_two_calls_witness :
  exists c1 c2 c3,
    step fallThrough (set_breakpoints [1] twoInstructionsCPU) = Ok c1 /\ eip c1 = Ok 1 /\
    step fallThrough c1 = Ok c2 /\ eip c2 = Ok 1 /\ stoppedOnBreakpoint c2 = true /\
    step fallThrough c2 = Ok c3 /\ eip c3 = Ok 2 /\ stoppedOnBreakpoint c3 = false.
Proof.
  destruct (step fallThrough (set_breakpoints [1] twoInstructionsCPU)) as [c1|e] eqn:E1;
    vm_compute in E1; [|discriminate].
  injection E1 as E1.
  assert (Hc1 : eip c1 = Ok 1 /\ isFinished c1 = Ok false /\ hasBreakpoint c1 = Ok true /\
                stoppedOnBreakpoint c1 = false).
  { rewrite <- E1. repeat split. }
  destruct Hc1 as (He1 & Hf1 & Hb1 & Hs1).
  destruct (breakpoint_two_calls fallThrough c1 Hf1 Hb1 Hs1)
    as (c2 & Hstep & Hr & _ & _ & _ & _ & _ & Hs2 & _ & Hnext).
  assert (He2 : eip c2 = Ok 1).
  { unfold eip, getValue, blockOf in *. rewrite Hr. exact He1. }
  assert (H3 : exists c3, step fallThrough c2 = Ok c3 /\ eip c3 = Ok 2 /\
                 stoppedOnBreakpoint c3 = false).
  { rewrite Hnext. rewrite <- E1 in Hstep. vm_compute in Hstep. injection Hstep as Hstep.
    rewrite <- Hstep. vm_compute. eexists. repeat split. }
  destruct H3 as (c3 & H3 & He3 & Hs3).
  exists c1, c2, c3. auto 10.
Defined.

(** ** Timers *)

Lemma pendingTimers_snoc (trace : list Event) (e : Event) :
  pendingTimers (trace ++ [e]) = applyEvent (pendingTimers trace) e.
Proof. unfold pendingTimers. rewrite fold_left_app. reflexivity. Qed.

Lemma clearScheduledRun_pending (c : CPU) :
  onlyScheduled c ->
  pendingTimers (events (clearScheduledRun c)) = [] /\
  scheduleTimeout (clearScheduledRun c) = scheduleTimeout c.
Proof.
  intros H. unfold clearScheduledRun, onlyScheduled in *.
  destruct (scheduleTimeout c) as [h0|] eqn:E; cbn [events emit scheduleTimeout].
  - rewrite pendingTimers_snoc. cbn [applyEvent]. split; [|assumption].
    induction (pendingTimers (events c)) as [|h l IH]; [reflexivity|].
    cbn [List.filter]. pose proof (H h ltac:(left; reflexivity)) as [= ->].
    rewrite Nat.eqb_refl. cbn [negb]. apply IH. intros x Hx. apply H. right. assumption.
  - split; [|assumption]. destruct (pendingTimers (events c)) as [|h l]; [reflexivity|].
    specialize (H h ltac:(left; reflexivity)). discriminate.
Qed.

(** X13.  A CPU never leaves two timers pending.  If every pending timer
    of the host is the one whose handle the CPU holds (as after construction,
    where none is pending), then this is still so after [run], [scheduleRun]
    and [pause]; after [run] and [scheduleRun] exactly the new timer is
    pending, and after [pause] none is, so that no scheduled step can fire
    once [pause] has returned. *)
Theorem one_timer_at_most (c : CPU) (handle : nat) :
  onlyScheduled c ->
  onlyScheduled (run handle c) /\ pendingTimers (events (run handle c)) = [handle] /\
  onlyScheduled (scheduleRun handle c) /\
  pendingTimers (events (scheduleRun handle c)) = [handle] /\
  onlyScheduled (pause c) /\ pendingTimers (events (pause c)) = [] /\
  running (run handle c) = true /\ running (pause c) = false.
Proof.
  intros H.
  assert (Hs : forall c0, onlyScheduled c0 ->
            onlyScheduled (scheduleRun handle c0) /\
            pendingTimers (events (scheduleRun handle c0)) = [handle]).
  { intros c0 H0. destruct (clearScheduledRun_pending c0 H0) as [Hp _].
    assert (Hev : pendingTimers (events (scheduleRun handle c0)) = [handle]).
    { unfold scheduleRun. cbn [events setScheduleTimeout emit].
      rewrite pendingTimers_snoc, Hp. reflexivity. }
    split; [|assumption]. intros h Hh. rewrite Hev in Hh.
    destruct Hh as [<-|[]]. reflexivity. }
  assert (Hp : forall c0, onlyScheduled c0 ->
            onlyScheduled (clearScheduledRun c0) /\
            pendingTimers (events (clearScheduledRun c0)) = []).
  { intros c0 H0. destruct (clearScheduledRun_pending c0 H0) as [Hp _].
    split; [|assumption]. intros h Hh. rewrite Hp in Hh. destruct Hh. }
  destruct (Hs (setRunning true c) H) as [R1 R2].
  destruct (Hs c H) as [S1 S2].
  destruct (Hp (setRunning false c) H) as [P1 P2].
  repeat (split; [assumption|]). split.
  - unfold run, scheduleRun, clearScheduledRun. cbn [scheduleTimeout setRunning].
    destruct (scheduleTimeout c); reflexivity.
  - apply pause_frame.
Qed.

Lemma one_timer_at_most_witness :
  pendingTimers (events (run 2 (run 1 smallCPU))) = [2%nat] /\
  pendingTimers (events (pause (run 2 (run 1 smallCPU)))) = [].
Proof.
  assert (H0 : onlyScheduled smallCPU) by (intros h []).
  destruct (one_timer_at_most smallCPU 1 H0) as (H1 & _).
  destruct (one_timer_at_most (run 1 smallCPU) 2 H1) as (H2 & Hp & _).
  destruct (one_timer_at_most (run 2 (run 1 smallCPU)) 0 H2) as (_ & _ & _ & _ & _ & Hq & _).
  split; assumption.
Defined.

Lemma exitCount_app (t1 t2 : list Event) : exitCount (t1 ++ t2) = (exitCount t1 + exitCount t2)%nat.
Proof. unfold exitCount. rewrite List.filter_app, length_app. reflexivity. Qed.

Lemma exitCount_cancellation (c : CPU) : exitCount (cancellation c) = 0%nat.
Proof. unfold cancellation. destruct (scheduleTimeout c); reflexivity. Qed.

(** X14.  When the timer fires on a running CPU whose program is finished,
    [tickStep] notifies the exit observers once, leaves the CPU not running
    and with registers and memory as they were, and still sets a new timer;
    when that timer fires, and at every later tick, [tickStep] does nothing:
    the exit is notified exactly once, however many ticks follow. *)
Theorem tick_after_the_end (execute : EncodedInstruction -> CPU -> Result (Z * CPU))
    (c : CPU) (handle : nat) :
  running c = true -> isFinished c = Ok true ->
  exists c',
    tickStep execute handle c = Ok c' /\
    running c' = false /\ registers c' = registers c /\ memory c' = memory c /\
    scheduleTimeout c' = Some handle /\
    exitCount (events c') = S (exitCount (events c)) /\
    forall later, tickStep execute later c' = Ok c'.
Proof.
  intros Hrun Hfin. unfold tickStep at 1. rewrite Hrun.
  unfold step. rewrite Hfin. cbn [bind].
  destruct (pause_frame c) as (H1 & H2 & _ & _ & _ & _ & H7 & H8).
  eexists. split; [reflexivity|].
  assert (Hrunning : running (scheduleRun handle (emit ExitNotified (pause c))) = false).
  { unfold scheduleRun, clearScheduledRun. cbn [scheduleTimeout emit].
    destruct (scheduleTimeout (pause c)); cbn; assumption. }
  split; [assumption|]. split; [|split; [|split; [|split]]].
  - unfold scheduleRun, clearScheduledRun. cbn [scheduleTimeout emit].
    destruct (scheduleTimeout (pause c)); cbn; assumption.
  - unfold scheduleRun, clearScheduledRun. cbn [scheduleTimeout emit].
    destruct (scheduleTimeout (pause c)); cbn; assumption.
  - reflexivity.
  - unfold scheduleRun, clearScheduledRun. cbn [scheduleTimeout emit events setScheduleTimeout].
    rewrite H7.
    destruct (scheduleTimeout c) as [h0|] eqn:E; cbn [events emit];
      rewrite !exitCount_app, events_pause, exitCount_app, exitCount_cancellation;
      cbn; lia.
  - intros later. unfold tickStep. rewrite Hrunning. reflexivity.
Qed.

Lemma tick_after_the_end_witness :
  exists c1 c2,
    tickStep fallThrough 8 finishedCPU = Ok c1 /\ tickStep fallThrough 9 c1 = Ok c2 /\
    exitCount (events c2) = 1%nat /\ running c2 = false.
Proof.
  destruct (tick_after_the_end fallThrough finishedCPU 8 eq_refl eq_refl)
    as (c1 & H1 & Hr & _ & _ & _ & Hc & Hidle).
  exists c1, c1. split; [assumption|]. split; [apply Hidle|]. split; [exact Hc|exact Hr].
Defined.

(** ** The stack, continued *)

Lemma getValue_memory (c : CPU) (a : Z) (n : nat) (x : Z) :
  getValue (load a n) c = Ok x -> x = readBytes (memory c) (Z.to_nat a) n.
Proof.
  unfold getValue, load. cbn [mv_block mv_index mv_byteSize blockOf bind]. unfold blockGet.
  destruct (inBounds (memory c) a n); [|discriminate]. congruence.
Qed.

(** X15.  The stack is last in, first out.  For a CPU state whose stack
    pointer holds [e] with 8 <= e <= memory size and values [a], [b] that fit
    four bytes: after [push a] and [push b], the first [pop] returns [b], the
    second returns [a], and the stack pointer is [e] again. *)
Theorem push_push_pop_pop (c : CPU) (a b e : Z) :
  wellFormed c -> registerValue "ESP" c = Ok e ->
  8 <= e <= size (memory c) -> 0 <= a < 2 ^ 32 -> 0 <= b < 2 ^ 32 ->
  exists c1 c2 c3 c4,
    push a c = Ok c1 /\ push b c1 = Ok c2 /\
    pop c2 = Ok (b, c3) /\ pop c3 = Ok (a, c4) /\
    registerValue "ESP" c4 = Ok e.
Proof.
  intros Hwf He Hb Ha Hbv.
  pose proof (registerValue_range c "ESP" ESP_info e Hwf eq_refl He) as Hr.
  change (256 ^ Z.of_nat (ri_byteSize ESP_info)) with (2 ^ 32) in Hr.
  destruct (push_spec c a e Hwf He ltac:(lia)) as (c1 & P1 & W1 & E1 & M1 & G1).
  assert (S1 : size (memory c1) = size (memory c)).
  { unfold size. rewrite M1, length_writeBytes. reflexivity. }
  destruct (push_spec c1 b (e - 4) W1 E1 ltac:(lia)) as (c2 & P2 & W2 & E2 & M2 & G2).
  assert (S2 : size (memory c2) = size (memory c)).
  { unfold size. rewrite M2, length_writeBytes. exact S1. }
  replace (e - 4 - 4) with (e - 8) in * by lia.
  destruct (pop_spec c2 (e - 8) W2 E2 ltac:(lia) ltac:(lia)) as (c3 & P3 & W3 & G3 & E3 & M3).
  replace (e - 8 + 4) with (e - 4) in * by lia.
  destruct (pop_spec c3 (e - 4) W3 E3 ltac:(rewrite M3; lia) ltac:(lia))
    as (c4 & P4 & W4 & G4 & E4 & M4).
  replace (e - 4 + 4) with e in * by lia.
  exists c1, c2, c3, c4.
  assert (Hb' : readBytes (memory c2) (Z.to_nat (e - 8)) 4 = b).
  { rewrite G2 in G3. rewrite Z.mod_small in G3 by assumption. congruence. }
  assert (Ha' : readBytes (memory c3) (Z.to_nat (e - 4)) 4 = a).
  { rewrite M3, M2. apply getValue_memory in G1. rewrite Z.mod_small in G1 by assumption.
    rewrite G1. apply readBytes_ext. intros j Hj. apply writeBytes_outside. lia. }
  rewrite Hb' in P3. rewrite Ha' in P4. auto 10.
Qed.

Lemma push_push_pop_pop_witness :
  exists c c1 c2 c3 c4, construct emptyProgram (newMemoryBlock 16) = Ok c /\
    push 1 c = Ok c1 /\ push 2 c1 = Ok c2 /\
    pop c2 = Ok (2, c3) /\ pop c3 = Ok (1, c4) /\ registerValue "ESP" c4 = Ok 15.
Proof.
  assert (Hb : 0 < size (memory smallCPU) <= 2 ^ 32).
  { vm_compute. split; [reflexivity|discriminate]. }
  destruct (reset_ok smallCPU wellFormed_smallCPU Hb) as (c & Hc & Hwf & Hm & _ & Hesp & _).
  change (size (memory smallCPU) - 1) with 15 in Hesp.
  assert (Hs : 8 <= 15 <= size (memory c)) by (rewrite Hm; vm_compute; split; discriminate).
  destruct (push_push_pop_pop c 1 2 15 Hwf Hesp Hs ltac:(lia) ltac:(lia))
    as (c1 & c2 & c3 & c4 & H).
  exists c, c1, c2, c3, c4. split; [exact Hc|exact H].
Defined.

Lemma setValue_shape (view : MemoryView) (v : Z) (c c' : CPU) :
  setValue view v c = Ok c' ->
  exists b', c' = putBlock (mv_block view) b' c /\
    forall b, blockOf (mv_block view) c = Ok b -> length b' = length b.
Proof.
  unfold setValue. destruct (blockOf (mv_block view) c) as [b|e]; cbn [bind]; [|discriminate].
  unfold blockSet. destruct (inBounds b (mv_index view) (mv_byteSize view)); cbn [bind];
    [|discriminate].
  intros [= <-]. eexists. split; [reflexivity|]. intros b0 [= <-]. apply length_writeBytes.
Qed.

(** X16.  [push] and [pop] touch the stack pointer and the stack slot
    only.  A [push] that succeeds changes no register bank other than that of
    ESP, keeps the size of the memory, and leaves flags, program,
    breakpoints, running state and event trace as they were; a [pop] that
    succeeds moreover leaves the memory itself unchanged. *)
Theorem stack_frame (c : CPU) (v : Z) :
  (forall c', push v c = Ok c' ->
     (forall k, k <> 3%nat -> registers c' !! k = registers c !! k) /\
     length (memory c') = length (memory c) /\
     status c' = status c /\ program c' = program c /\ breakpoints c' = breakpoints c /\
     running c' = running c /\ stoppedOnBreakpoint c' = stoppedOnBreakpoint c /\
     scheduleTimeout c' = scheduleTimeout c /\ events c' = events c) /\
  (forall x c', pop c = Ok (x, c') ->
     (forall k, k <> 3%nat -> registers c' !! k = registers c !! k) /\
     memory c' = memory c /\
     status c' = status c /\ program c' = program c /\ breakpoints c' = breakpoints c /\
     running c' = running c /\ stoppedOnBreakpoint c' = stoppedOnBreakpoint c /\
     scheduleTimeout c' = scheduleTimeout c /\ events c' = events c).
Proof.
  split.
  - intros c'. unfold push.
    change (method (getRegisterByName "ESP")) with (Ok (viewOf ESP_info)). cbn [bind]. unfold add.
    destruct (getValue (viewOf ESP_info) c) as [old|e]; cbn [bind]; [|discriminate].
    destruct (setValue (viewOf ESP_info) (old + -4) c) as [c1|e] eqn:E1; cbn [bind];
      [|discriminate].
    destruct (setValue_shape _ _ _ _ E1) as (b1 & -> & _).
    unfold deref.
    destruct (getValue (viewOf ESP_info) _) as [address|e]; cbn [bind]; [|discriminate].
    intros E2. destruct (setValue_shape _ _ _ _ E2) as (m' & -> & Hlen).
    cbn [load mv_block putBlock viewOf ESP_info registerInfo ri_bank blockOf] in *.
    cbn [registers memory status program breakpoints running stoppedOnBreakpoint
         scheduleTimeout events setMemory setRegisters].
    split; [intros k Hk; apply list_lookup_insert_ne; auto|].
    split; [apply Hlen; reflexivity|]. auto 10.
  - intros x c'. unfold pop.
    change (method (getRegisterByName "ESP")) with (Ok (viewOf ESP_info)). cbn [bind]. unfold deref.
    destruct (getValue (viewOf ESP_info) c) as [address|e]; cbn [bind]; [|discriminate].
    destruct (getValue (load address _) c) as [value|e]; cbn [bind]; [|discriminate].
    unfold add.
    destruct (getValue (viewOf ESP_info) c) as [old|e]; cbn [bind]; [|discriminate].
    destruct (setValue (viewOf ESP_info) (old + 4) c) as [c1|e] eqn:E1; cbn [bind];
      [|discriminate].
    destruct (setValue_shape _ _ _ _ E1) as (b1 & -> & _).
    intros [= <- <-].
    cbn [mv_block putBlock viewOf ESP_info registerInfo ri_bank].
    cbn [registers memory status program breakpoints running stoppedOnBreakpoint
         scheduleTimeout events setMemory setRegisters].
    split; [intros k Hk; apply list_lookup_insert_ne; auto|]. auto 10.
Qed.

Lemma stack_frame_witness :
  exists c c1, construct emptyProgram (newMemoryBlock 16) = Ok c /\ push 7 c = Ok c1 /\
    eip c1 = eip c /\ registerValue "EAX" c1 = registerValue "EAX" c /\
    status c1 = status c.
Proof.
  destruct (construct emptyProgram (newMemoryBlock 16)) as [c|e] eqn:Ec;
    [|vm_compute in Ec; discriminate].
  destruct (push 7 c) as [c1|e] eqn:Ep.
  2: { vm_compute in Ec. injection Ec as <-. vm_compute in Ep. discriminate. }
  destruct (stack_frame c 7) as [Hpush _].
  destruct (Hpush c1 Ep) as (Hr & _ & Hs & _).
  exists c, c1. split; [reflexivity|]. split; [exact Ep|].
  unfold eip, registerValue, getValue.
  change (method (lookupKey "EIP" registerMap)) with (Ok (viewOf EIP_info)).
  change (method (getRegisterByName "EAX")) with (Ok (viewOf (registerInfo 20 4 4 0))).
  cbn [bind viewOf mv_block blockOf registerInfo EIP_info ri_bank].
  rewrite (Hr 1%nat) by discriminate. rewrite (Hr 4%nat) by discriminate. auto.
Defined.

(** ** reset, continued *)

Lemma writeBytes_idempotent (n : nat) (b : MemoryBlock) (i : nat) (v : Z) :
  (i + n <= length b)%nat ->
  writeBytes (writeBytes b i n v) i n v = writeBytes b i n v.
Proof.
  intros Hlen. apply list_eq. intros j.
  destruct (decide (i <= j < i + n)%nat) as [Hin|Hout].
  - rewrite !writeBytes_inside by (rewrite ?length_writeBytes; lia). reflexivity.
  - apply writeBytes_outside. lia.
Qed.

Lemma setRegisters_same (c : CPU) : setRegisters (registers c) c = c.
Proof. destruct c. reflexivity. Qed.

(** Writing to a register the bytes it holds leaves the CPU as it is. *)
Lemma setValue_unchanged (c : CPU) (k sz : nat) (idx v : Z) (b : list Z) :
  registers c !! k = Some b -> length b = 4%nat ->
  0 <= idx -> idx + Z.of_nat sz <= 4 ->
  writeBytes b (Z.to_nat idx) sz v = b ->
  setValue {| mv_block := RegisterBank k; mv_byteSize := sz; mv_index := idx |} v c = Ok c.
Proof.
  intros E Hl H0 H4 Hw. rewrite (setValue_bank c k sz idx v b E Hl H0 H4).
  rewrite Hw, list_insert_id by assumption. rewrite setRegisters_same. reflexivity.
Qed.

(** X17.  On a CPU with its ten 4-byte register banks [reset] always
    succeeds, whatever the size of the memory.  It writes the banks of EIP,
    EBP and ESP only: the other register banks, the memory, the flags, the
    program, the breakpoints, the stopped-on-breakpoint mark, the running
    state and the scheduled timer are as before.  A second [reset] changes
    nothing. *)
Theorem reset_frame (c : CPU) :
  wellFormed c ->
  exists c',
    reset c = Ok c' /\ reset c' = Ok c' /\ wellFormed c' /\
    (forall k, k <> 1%nat -> k <> 2%nat -> k <> 3%nat ->
       registers c' !! k = registers c !! k) /\
    memory c' = memory c /\ status c' = status c /\ program c' = program c /\
    breakpoints c' = breakpoints c /\ stoppedOnBreakpoint c' = stoppedOnBreakpoint c /\
    running c' = running c /\ scheduleTimeout c' = scheduleTimeout c /\
    events c' = events c.
Proof.
  intros Hwf.
  destruct (register_write c "EIP" EIP_info 0 Hwf eq_refl) as (b1 & L1 & N1 & E1 & W1).
  set (c1 := setRegisters _ c) in *.
  destruct (register_write c1 "ESP" ESP_info (size (memory c1) - 1) W1 eq_refl)
    as (b3 & L3 & N3 & E3 & W3).
  set (c2 := setRegisters _ c1) in *.
  destruct (register_write c2 "EBP" EBP_info (size (memory c2) - 1) W3 eq_refl)
    as (b2 & L2 & N2 & E2 & W2).
  set (c3 := setRegisters _ c2) in *.
  assert (Hreset : forall x, x = c ->
            reset x = Ok c3).
  { intros x ->. unfold reset.
    change (method (getRegisterByName "EIP")) with (Ok (viewOf EIP_info)).
    change (method (getRegisterByName "ESP")) with (Ok (viewOf ESP_info)).
    change (method (getRegisterByName "EBP")) with (Ok (viewOf EBP_info)).
    cbn [bind]. rewrite E1. cbn [bind]. rewrite E3. cbn [bind]. exact E2. }
  pose proof (lookup_lt_Some _ _ _ L1) as K1.
  pose proof (lookup_lt_Some _ _ _ L3) as K3.
  pose proof (lookup_lt_Some _ _ _ L2) as K2.
  cbn [ri_bank ri_index ri_byteSize EIP_info ESP_info EBP_info registerInfo] in *.
  change (Z.to_nat 0) with 0%nat in *.
  set (B1 := writeBytes b1 0 4 0) in *.
  set (B3 := writeBytes b3 0 4 (size (memory c1) - 1)) in *.
  set (B2 := writeBytes b2 0 4 (size (memory c2) - 1)) in *.
  assert (R3 : registers c3 = <[2%nat := B2]> (<[3%nat := B3]> (<[1%nat := B1]> (registers c))))
    by reflexivity.
  assert (G1 : registers c3 !! 1%nat = Some B1).
  { rewrite R3, !list_lookup_insert_ne by discriminate.
    apply list_lookup_insert_eq. assumption. }
  assert (G3 : registers c3 !! 3%nat = Some B3).
  { rewrite R3, list_lookup_insert_ne by discriminate.
    apply list_lookup_insert_eq. assumption. }
  assert (G2 : registers c3 !! 2%nat = Some B2).
  { rewrite R3. apply list_lookup_insert_eq. assumption. }
  exists c3. split; [apply Hreset; reflexivity|]. split.
  { unfold reset.
    change (method (getRegisterByName "EIP")) with (Ok (viewOf EIP_info)).
    change (method (getRegisterByName "ESP")) with (Ok (viewOf ESP_info)).
    change (method (getRegisterByName "EBP")) with (Ok (viewOf EBP_info)).
    cbn [bind]. unfold viewOf.
    cbn [ri_bank ri_index ri_byteSize EIP_info ESP_info EBP_info registerInfo].
    rewrite (setValue_unchanged c3 1 4 0 0 B1 G1); cbn [bind];
      [|unfold B1; rewrite length_writeBytes; assumption|lia|lia
       |unfold B1; apply writeBytes_idempotent; lia].
    rewrite (setValue_unchanged c3 3 4 0 _ B3 G3); cbn [bind];
      [|unfold B3; rewrite length_writeBytes; assumption|lia|lia
       |unfold B3; apply writeBytes_idempotent; lia].
    rewrite (setValue_unchanged c3 2 4 0 _ B2 G2);
      [reflexivity|unfold B2; rewrite length_writeBytes; assumption|lia|lia
       |unfold B2; apply writeBytes_idempotent; lia]. }
  split; [assumption|]. split; [|auto 10].
  intros k H1 H2 H3. rewrite R3, !list_lookup_insert_ne by auto. reflexivity.
Qed.

Lemma reset_frame_witness :
  exists c1 c2, push 9 twoInstructionsCPU = Ok c1 /\ reset c1 = Ok c2 /\
    registerValue "ESP" c2 = Ok 15 /\ memory c2 = memory c1 /\ reset c2 = Ok c2.
Proof.
  destruct (push 9 twoInstructionsCPU) as [c1|e] eqn:E1; vm_compute in E1; [|discriminate].
  injection E1 as E1.
  assert (Hwf : wellFormed c1).
  { rewrite <- E1. split; cbn.
    - reflexivity.
    - intros b Hb. apply list_elem_of_In in Hb. cbn in Hb.
      repeat (destruct Hb as [<-|Hb]; [reflexivity|]). destruct Hb.
    - intros b Hb. apply list_elem_of_In in Hb. cbn in Hb.
      repeat (destruct Hb as [<-|Hb];
              [repeat constructor; unfold isByte; lia|]). destruct Hb.
    - repeat constructor; unfold isByte; lia. }
  destruct (reset_frame c1 Hwf) as (c2 & Hr & Hrr & _ & _ & Hm & _).
  exists c1, c2. split; [reflexivity|]. split; [assumption|].
  split; [|split; assumption].
  rewrite <- E1 in Hr. vm_compute in Hr. injection Hr as <-. reflexivity.
Defined.

(** ** Executing an instruction *)

Lemma wellFormed_twoInstructionsCPU : wellFormed twoInstructionsCPU.
Proof.
  apply (wellFormed_construct twoInstructions (newMemoryBlock 16)); [|reflexivity].
  unfold newMemoryBlock. apply Forall_replicate. unfold isByte. lia.
Qed.

(** X18.  On a CPU with its ten 4-byte register banks whose program is not
    finished and which is not stopped by a breakpoint, [step] fetches the
    instruction at the address in EIP, which lies inside the program,
    executes it, and then writes the address it returns into EIP, on top of
    whatever the instruction did: when the instruction leaves the register
    banks well formed and returns an address below 2^32, EIP holds that
    address afterwards and the memory, the flags and the other register banks
    are as the instruction left them.  When the instruction raises an
    exception, so does [step]. *)
Theorem step_executes (execute : EncodedInstruction -> CPU -> Result (Z * CPU)) (c : CPU) :
  wellFormed c -> isFinished c = Ok false -> hasBreakpoint c = Ok false ->
  exists a i,
    eip c = Ok a /\ 0 <= a < Z.of_nat (length (instructions (program c))) /\
    instructions (program c) !! Z.to_nat a = Some i /\
    (forall e, execute i c = Throw e -> step execute c = Throw e) /\
    (forall next c', execute i c = Ok (next, c') -> wellFormed c' -> 0 <= next < 2 ^ 32 ->
       exists c'', step execute c = Ok c'' /\ eip c'' = Ok next /\
         memory c'' = memory c' /\ status c'' = status c' /\
         forall k, k <> 1%nat -> registers c'' !! k = registers c' !! k).
Proof.
  intros Hwf Hfin Hbp.
  unfold isFinished in Hfin. destruct (eip c) as [a|e] eqn:Ea; cbn [bind] in Hfin;
    [|discriminate].
  injection Hfin as Hlt. apply Z.leb_gt in Hlt.
  pose proof (registerValue_range c "EIP" EIP_info a Hwf eq_refl Ea) as [Ha _].
  destruct (lookup_lt_is_Some_2 (instructions (program c)) (Z.to_nat a)) as [i Hi]; [lia|].
  assert (Hstep : step execute c
                  = (let! '(nextAddress, c') := execute i c in
                     let! r := method (getRegisterByName "EIP") in setValue r nextAddress c')).
  { unfold step, isFinished. rewrite Ea. cbn [bind].
    replace (Z.of_nat (length (instructions (program c))) <=? a) with false
      by (symmetry; apply Z.leb_gt; lia).
    rewrite Hbp. unfold executeOneInstruction. rewrite Ea. cbn [bind].
    unfold loadInstruction.
    replace (0 <=? a) with true by (symmetry; apply Z.leb_le; lia). rewrite Hi.
    reflexivity. }
  exists a, i. split; [reflexivity|]. split; [lia|]. split; [assumption|]. split.
  - intros e He. rewrite Hstep, He. reflexivity.
  - intros next c' He Hwf' Hnext. rewrite Hstep, He. cbn [bind].
    change (method (getRegisterByName "EIP")) with (Ok (viewOf EIP_info)). cbn [bind].
    destruct (register_write c' "EIP" EIP_info next Hwf' eq_refl) as (b & Lb & Nb & Es & Ws).
    destruct (registerValue_written _ _ "EIP" EIP_info next Hwf' eq_refl Es) as (_ & Hm & Hr).
    eexists. split; [exact Es|]. split; [|split; [assumption|split; [reflexivity|]]].
    + change (eip ?x) with (registerValue "EIP" x). rewrite Hr.
      rewrite Z.mod_small; [reflexivity|]. change (256 ^ Z.of_nat (ri_byteSize EIP_info))
        with (2 ^ 32). assumption.
    + intros k Hk. cbn [registers setRegisters]. apply list_lookup_insert_ne. auto.
Qed.

Lemma step_executes_witness :
  exists c1 c2,
    step fallThrough twoInstructionsCPU = Ok c1 /\ eip c1 = Ok 1 /\
    step fallThrough c1 = Ok c2 /\ eip c2 = Ok 2 /\ isFinished c2 = Ok true.
Proof.
  pose proof wellFormed_twoInstructionsCPU as Hwf0.
  destruct (step_executes fallThrough twoInstructionsCPU Hwf0 eq_refl eq_refl)
    as (a & i & Ha & _ & Hi & _ & Hok).
  vm_compute in Ha. injection Ha as <-. cbn in Hi. injection Hi as <-.
  destruct (Hok 1 twoInstructionsCPU eq_refl Hwf0 ltac:(lia))
    as (c1 & H1 & He1 & _ & _ & _).
  exists c1.
  assert (H2 : exists c2, step fallThrough c1 = Ok c2 /\ eip c2 = Ok 2 /\
                 isFinished c2 = Ok true).
  { vm_compute in H1. injection H1 as <-. vm_compute. eexists. repeat split. }
  destruct H2 as (c2 & H2 & He2 & Hf2). exists c2. auto.
Defined.
